(** * Update manager: dependency graph store, archive delta engine and
      lifecycle orchestration of [update.py], as a shallow embedding.

    Modelling conventions.
    - A path is the list of its components; [os.path.join a b] is [a ++ b]
      and [os.path.dirname] drops the last component. This is what the
      operating system resolves for directory arguments written without a
      trailing separator and for components other than the empty one, [.]
      and [..].
    - The file system is a finite map from paths to nodes (directory or
      regular file with its content).
    - A string is the sequence of the bytes of its UTF-8 encoding.
    - [dependencies.json] is a file of the modelled file system. When it
      holds a dependency object, its content is the pair of dictionaries the
      program loads and saves ([json.dump] and [json.load] are not modelled
      beyond that); any other content stands for text that [json.load]
      rejects. JSON values of another shape and bytes that are no text are
      not modelled.
    - Python dictionaries with string keys are [gmap string _]; Python lists
      are lists.
    - Console output is not modelled, with the exception of the lines written
      by [print_dependencies]; every [input()] call consumes one line of the
      modelled standard input.
    - The name of an archive member is given by its components, among which
      there may be empty ones, [.] and [..]. The extraction drops these, as
      [zipfile] does; the reversal joins the name as it is. Directory
      listings ([os.listdir], [os.walk]) come in the order of the finite
      map, which is fixed but not specified.
    - An operation fails when the tree forbids it (missing parent, a file
      where a directory is needed, and so on); permissions, symbolic links
      and full disks are not modelled. The text of an exception is its bare
      message. *)

From Stdlib Require Import Ascii.
From stdpp Require Import gmap strings list fin_maps pretty sorting.

Local Open Scope string_scope.
Local Open Scope list_scope.

(** ** Dependency graph store *)

(** The object held in [dependencies.json]:
    [{"dependencies": {...}, "dependents": {...}}]. *)
Record dependency_data := DependencyData {
  dd_dependencies : gmap string (list string);
  dd_dependents : gmap string (list string)
}.

(** [{"dependencies": {}, "dependents": {}}] *)
Definition empty_dependency_data : dependency_data :=
  DependencyData ∅ ∅.

(** [d.get(k, [])] *)
Definition dict_get (d : gmap string (list string)) (k : string) : list string :=
  default [] (d !! k).

(** One iteration of the loop of [update_dependencies] (lines 89-93) on the
    [dependents] dictionary. *)
Definition add_dependent (update_name dep : string)
    (dents : gmap string (list string)) : gmap string (list string) :=
  let dents1 :=
    match dents !! dep with
    | None => <[dep := []]> dents
    | Some _ => dents
    end in
  let cur := dict_get dents1 dep in
  if decide (update_name ∈ cur) then dents1
  else <[dep := cur ++ [update_name]]> dents1.

(** The in-memory part of [update_dependencies] (lines 86-93): what happens to
    the loaded object between [load_dependencies] and [save_dependencies]. *)
Definition update_dependency_data (update_name : string)
    (dependencies : list string) (dd : dependency_data) : dependency_data :=
  DependencyData
    (<[update_name := dependencies]> (dd_dependencies dd))
    (foldl (λ dents dep, add_dependent update_name dep dents)
           (dd_dependents dd) dependencies).

(** In-memory part of [get_dependents] and [get_dependencies]. *)
Definition dependents_of (dd : dependency_data) (update_name : string) : list string :=
  dict_get (dd_dependents dd) update_name.

Definition dependencies_of (dd : dependency_data) (update_name : string) : list string :=
  dict_get (dd_dependencies dd) update_name.

(** A sequence of record operations, applied in order. *)
Definition record_all (ops : list (string * list string))
    (dd : dependency_data) : dependency_data :=
  foldl (λ dd op, update_dependency_data op.1 op.2 dd) dd ops.

(** The inner loop of [check_unused_dependencies] (lines 126-130). *)
Definition still_needed (dd : dependency_data) (installed_updates : list string)
    (removed_update dep : string) : bool :=
  existsb (λ dependent,
             bool_decide (dependent ≠ removed_update) &&
             bool_decide (dependent ∈ installed_updates))
          (dict_get (dd_dependents dd) dep).

(** The in-memory part of [check_unused_dependencies] (lines 116-135), given
    the loaded object and the names listed in the installed bucket. *)
Definition unused_dependencies (dd : dependency_data)
    (installed_updates : list string) (removed_update : string) : list string :=
  let removed_deps := dict_get (dd_dependencies dd) removed_update in
  foldl (λ unused_deps dep,
           if bool_decide (dep ∈ installed_updates) then
             if still_needed dd installed_updates removed_update dep
             then unused_deps
             else unused_deps ++ [dep]
           else unused_deps)
        [] removed_deps.

(** ** Dependency graph rendering *)

(** The [for] loop of [print_dependencies] (lines 655-673) over the remaining
    items [deps], the item at the head having index [i] of [n]. The recursive
    call of line 673 is the argument [rec]; the result is the list of printed
    lines. *)
Definition print_dependencies_loop
    (rec : list string → string → list string → option (list string))
    (n : nat) (dd : dependency_data) (installed_updates : list string)
    (indent : string) (visited : list string)
    : nat → list string → option (list string) :=
  fix loop (i : nat) (deps : list string) {struct deps} :=
    match deps with
    | [] => Some []
    | dep :: rest =>
        let is_last := bool_decide (i = n - 1) in
        let prefix := if is_last then "└── " else "├── " in
        let status :=
          if bool_decide (dep ∈ installed_updates)
          then "[INSTALLED]" else "[MISSING]" in
        if bool_decide (dep ∈ visited) then
          out_rest ← loop (S i) rest;
          Some ((indent +:+ prefix +:+ dep +:+ " " +:+ status +:+
                 " (circular dependency)") :: out_rest)
        else
          let line := indent +:+ prefix +:+ dep +:+ " " +:+ status in
          let sub_deps := dict_get (dd_dependencies dd) dep in
          match sub_deps with
          | [] => out_rest ← loop (S i) rest; Some (line :: out_rest)
          | _ :: _ =>
              let next_indent :=
                indent +:+ (if is_last then "    " else "│   ") in
              out_sub ← rec sub_deps next_indent (visited ++ [dep]);
              out_rest ← loop (S i) rest;
              Some (line :: out_sub ++ out_rest)
          end
    end.

(** [print_dependencies]; [fuel] bounds the depth of the recursion, and the
    result is [None] when it is exhausted. *)
Fixpoint print_dependencies (fuel : nat) (dependencies : list string)
    (dd : dependency_data) (installed_updates : list string)
    (indent : string) (visited : list string) : option (list string) :=
  match fuel with
  | 0 => None
  | S fuel' =>
      print_dependencies_loop
        (λ sub_deps next_indent visited',
           print_dependencies fuel' sub_deps dd installed_updates
                              next_indent visited')
        (length dependencies) dd installed_updates indent visited
        0 dependencies
  end.

(** The number of recorded packages that are not on the current path: the
    recursion depth still available to [print_dependencies]. *)
Definition unvisited (dd : dependency_data) (visited : list string) : nat :=
  size (dom (dd_dependencies dd) ∖ list_to_set visited).

(** The line printed for item [i] of [n] (line 667), to which line 664 adds
    the annotation. *)
Definition item_line (installed_updates : list string) (indent : string)
    (n i : nat) (dep : string) : string :=
  indent +:+ (if bool_decide (i = n - 1) then "└── " else "├── ") +:+ dep +:+
  " " +:+ (if bool_decide (dep ∈ installed_updates)
           then "[INSTALLED]" else "[MISSING]").

(** The indentation of the items below item [i] of [n] (line 672). *)
Definition item_indent (indent : string) (n i : nat) : string :=
  indent +:+ (if bool_decide (i = n - 1) then "    " else "│   ").

(** [block] is what item [i] of [n] contributes to the output, the recursive
    call being [rec]: the annotated line alone for a dependency on the path
    [visited], and otherwise the line followed by the rendering of the
    dependency's own dependencies. *)
Definition item_block (dd : dependency_data) (installed_updates : list string)
    (rec : list string → string → list string → option (list string))
    (indent : string) (visited : list string) (n i : nat) (dep : string)
    (block : list string) : Prop :=
  if bool_decide (dep ∈ visited) then
    block = [item_line installed_updates indent n i dep +:+
             " (circular dependency)"]
  else
    ∃ sub, block = item_line installed_updates indent n i dep :: sub ∧
      match dict_get (dd_dependencies dd) dep with
      | [] => sub = []
      | sub_deps =>
          rec sub_deps (item_indent indent n i) (visited ++ [dep]) = Some sub
      end.

(** ** Example graphs *)

(** B recorded with dependency A, then recorded again with none. *)
Definition graph_rerecorded : dependency_data :=
  record_all [("B", ["A"]); ("B", [])] empty_dependency_data.

(** B and C recorded with dependency A, then C recorded again with none. *)
Definition graph_stale_dependent : dependency_data :=
  record_all [("B", ["A"]); ("C", ["A"]); ("C", [])] empty_dependency_data.

(** The cycle A → B → A, with C hanging off B. *)
Definition graph_cycle : dependency_data :=
  record_all [("A", ["B"]); ("B", ["A"; "C"])] empty_dependency_data.

(** ** File system *)

(** A path, as the list of its components. *)
Abbreviation path := (list string).

(** What a regular file holds: a valid zip archive (the list of its members
    in archive order), the text of a dependency object, or anything else. A
    member is a name, the mark of a directory member (the stored name ends in
    a slash) and its data. *)
Inductive content :=
  | Raw (bytes : string)
  | Zip (entries : list zip_entry)
  | Json (dd : dependency_data)
with zip_entry :=
  | ZipEntry (name : path) (is_dir : bool) (data : content).

Definition ze_name (e : zip_entry) : path :=
  match e with ZipEntry name _ _ => name end.
Definition ze_is_dir (e : zip_entry) : bool :=
  match e with ZipEntry _ is_dir _ => is_dir end.
Definition ze_data (e : zip_entry) : content :=
  match e with ZipEntry _ _ data => data end.

Inductive node :=
  | Dir
  | File (c : content).

Abbreviation file_system := (gmap path node).

(** The exceptions the program can meet. *)
Inductive exn :=
  | FileNotFoundError
  | FileExistsError
  | NotADirectoryError
  | IsADirectoryError
  | DirectoryNotEmpty
  | ShutilError
  | BadZipFile
  | EOFError
  | IndexError.

(** [str(e)] *)
Definition exn_str (e : exn) : string :=
  match e with
  | FileNotFoundError => "No such file or directory"
  | FileExistsError => "File exists"
  | NotADirectoryError => "Not a directory"
  | IsADirectoryError => "Is a directory"
  | DirectoryNotEmpty => "Directory not empty"
  | ShutilError => "Destination path already exists"
  | BadZipFile => "File is not a zip file"
  | EOFError => "EOF when reading a line"
  | IndexError => "list index out of range"
  end.

(** Computations on a state [S] that return a value or raise; the state
    reached is kept in both cases. *)
Definition comp (S A : Type) : Type := S → (exn + A) * S.

Definition comp_ret {S A} (a : A) : comp S A := λ s, (inr a, s).
Definition comp_bind {S A B} (m : comp S A) (k : A → comp S B) : comp S B :=
  λ s, match m s with
       | (inr a, s') => k a s'
       | (inl e, s') => (inl e, s')
       end.
Definition raise {S A} (e : exn) : comp S A := λ s, (inl e, s).

(** [try: m except Exception as e: handler e] *)
Definition try_except {S A} (m : comp S A) (handler : exn → comp S A) : comp S A :=
  λ s, match m s with
       | (inr a, s') => (inr a, s')
       | (inl e, s') => handler e s'
       end.

Definition get_state {S} : comp S S := λ s, (inr s, s).

#[global] Instance comp_mret {S} : MRet (comp S) := @comp_ret S.
#[global] Instance comp_mbind {S} : MBind (comp S) := λ A B k m, comp_bind m k.

(** File-system primitives. *)
Abbreviation F := (comp file_system).

(** [os.path.dirname] and [os.path.basename] *)
Definition dirname (p : path) : path := removelast p.
Definition basename (p : path) : string := List.last p EmptyString.

(** [os.path.exists], [os.path.isfile], [os.path.isdir] *)
Definition path_exists (fs : file_system) (p : path) : bool :=
  match fs !! p with Some _ => true | None => false end.
Definition isfile (fs : file_system) (p : path) : bool :=
  match fs !! p with Some (File _) => true | _ => false end.
Definition isdir (fs : file_system) (p : path) : bool :=
  match fs !! p with Some Dir => true | _ => false end.

(** [child_name d k] is [Some n] when [k] is [d] followed by the single
    component [n]. *)
Fixpoint child_name (d k : path) : option string :=
  match d, k with
  | [], [n] => Some n
  | x :: d', y :: k' => if decide (x = y) then child_name d' k' else None
  | _, _ => None
  end.

(** The names in directory [d], in the order the file system lists them. *)
Definition children (fs : file_system) (d : path) : list string :=
  omap (λ kv, child_name d kv.1) (map_to_list fs).

(** [os.listdir] *)
Definition listdir (d : path) : F (list string) :=
  λ fs, match fs !! d with
        | Some Dir => (inr (children fs d), fs)
        | Some (File _) => (inl NotADirectoryError, fs)
        | None => (inl FileNotFoundError, fs)
        end.

(** [os.mkdir] *)
Definition mkdir (p : path) : F unit :=
  λ fs, match fs !! p with
        | Some _ => (inl FileExistsError, fs)
        | None =>
            match fs !! dirname p with
            | Some Dir => (inr tt, <[p := Dir]> fs)
            | Some (File _) => (inl NotADirectoryError, fs)
            | None => (inl FileNotFoundError, fs)
            end
        end.

(** [os.makedirs(name, exist_ok=exist_ok)], on the reversed path [rname]:
    the parent is created first when it does not exist, then the directory
    itself. *)
Fixpoint makedirs_rev (exist_ok : bool) (rname : list string) : F unit :=
  λ fs,
    let name := rev rname in
    let '(r, fs1) :=
      match rname with
      | [] => (inr tt, fs)
      | _ :: rhead =>
          if path_exists fs (rev rhead) then (inr tt, fs)
          else match makedirs_rev exist_ok rhead fs with
               | (inl FileExistsError, fs') => (inr tt, fs')
               | res => res
               end
      end in
    match r with
    | inl e => (inl e, fs1)
    | inr _ =>
        match mkdir name fs1 with
        | (inl e, fs2) =>
            if negb exist_ok || negb (isdir fs2 name) then (inl e, fs2)
            else (inr tt, fs2)
        | res => res
        end
    end.

Definition makedirs (exist_ok : bool) (name : path) : F unit :=
  makedirs_rev exist_ok (rev name).

(** [open(p, "wb")] followed by writing [c]. *)
Definition write_file (p : path) (c : content) : F unit :=
  λ fs, match fs !! p with
        | Some Dir => (inl IsADirectoryError, fs)
        | _ =>
            match fs !! dirname p with
            | Some Dir => (inr tt, <[p := File c]> fs)
            | Some (File _) => (inl NotADirectoryError, fs)
            | None => (inl FileNotFoundError, fs)
            end
        end.

(** [shutil.copy2(src, dst)] for a source file named [src_name] holding [c]:
    a destination that is a directory receives the file under its own name. *)
Definition copy2 (src_name : string) (c : content) (dst : path) : F unit :=
  λ fs, if isdir fs dst then write_file (dst ++ [src_name]) c fs
        else write_file dst c fs.

(** [os.remove] *)
Definition remove (p : path) : F unit :=
  λ fs, match fs !! p with
        | Some (File _) => (inr tt, delete p fs)
        | Some Dir => (inl IsADirectoryError, fs)
        | None => (inl FileNotFoundError, fs)
        end.

(** [os.rmdir] *)
Definition rmdir (p : path) : F unit :=
  λ fs, match fs !! p with
        | Some Dir =>
            match children fs p with
            | [] => (inr tt, delete p fs)
            | _ :: _ => (inl DirectoryNotEmpty, fs)
            end
        | Some (File _) => (inl NotADirectoryError, fs)
        | None => (inl FileNotFoundError, fs)
        end.

(** [shutil.move(src, dst)]: a destination that is a directory receives the
    source under its own name and must not hold that name yet; a regular file
    is renamed, replacing a regular file at the destination; a directory is
    moved with everything below it. *)
Definition move (src dst : path) : F unit :=
  λ fs,
    if isdir fs dst && bool_decide (src = dst) then (inr tt, fs) else
    let real_dst := if isdir fs dst then dst ++ [basename src] else dst in
    if isdir fs dst && path_exists fs real_dst then (inl ShutilError, fs) else
    match fs !! src with
    | None => (inl FileNotFoundError, fs)
    | Some (File c) =>
        match fs !! real_dst with
        | Some Dir => (inl IsADirectoryError, fs)
        | _ =>
            match fs !! dirname real_dst with
            | Some Dir => (inr tt, <[real_dst := File c]> (delete src fs))
            | Some (File _) => (inl NotADirectoryError, fs)
            | None => (inl FileNotFoundError, fs)
            end
        end
    | Some Dir =>
        if bool_decide (src `prefix_of` real_dst) then (inl ShutilError, fs)
        else
          match makedirs false real_dst fs with
          | (inl e, fs1) => (inl e, fs1)
          | (inr _, fs1) =>
              let below := filter (λ kv, src `prefix_of` kv.1) fs1 in
              let rest := filter (λ kv, ¬ src `prefix_of` kv.1) fs1 in
              (inr tt,
               kmap (λ k, real_dst ++ drop (length src) k) below ∪ rest)
          end
    end.

(** [zipfile.ZipFile(p, "r")] and [namelist]/[infolist]. *)
Definition read_zip (p : path) : F (list zip_entry) :=
  λ fs, match fs !! p with
        | Some (File (Zip entries)) => (inr entries, fs)
        | Some (File _) => (inl BadZipFile, fs)
        | Some Dir => (inl IsADirectoryError, fs)
        | None => (inl FileNotFoundError, fs)
        end.

(** Sequential iteration, stopping at the first exception. *)
Fixpoint for_each {S A} (l : list A) (body : A → comp S unit) : comp S unit :=
  match l with
  | [] => mret tt
  | x :: l' => body x ≫= λ _, for_each l' body
  end.

(** The name [ZipFile._extract_member] extracts a member to: the components
    that are empty, [.] or [..] are dropped, and with them a leading
    slash. *)
Definition sanitize (name : path) : path :=
  filter (λ x, x ∉ [EmptyString; "."; ".."]) name.

(** [ZipFile._extract_member], the extraction directory being the root of
    the file system it is run on. *)
Definition extract_member (e : zip_entry) : F unit :=
  let targetpath := sanitize (ze_name e) in
  let upperdirs := dirname targetpath in
  ((λ fs, if path_exists fs upperdirs then (inr tt, fs)
          else makedirs false upperdirs fs) : F unit) ≫= λ _,
  if ze_is_dir e then
    ((λ fs, if isdir fs targetpath then (inr tt, fs)
            else mkdir targetpath fs) : F unit)
  else write_file targetpath (ze_data e).

(** [ZipFile.extractall] into a fresh temporary directory: the resulting
    tree, or the exception raised on the way. *)
Definition extractall (entries : list zip_entry) : exn + file_system :=
  match for_each entries extract_member {[ [] := Dir ]} with
  | (inr _, tmp) => inr tmp
  | (inl e, _) => inl e
  end.

(** The regular files [os.walk] meets in the extracted tree, with their
    paths relative to its root, in the order the file system lists them. *)
Definition walk_files (tmp : file_system) : list (path * content) :=
  omap (λ kv, match kv.2 with File c => Some (kv.1, c) | Dir => None end)
       (map_to_list tmp).

(** ** Archive delta engine *)

(** The three result lists of [apply_update_zip] and [analyze_update_zip]. *)
Abbreviation delta_result := (list path * list path * list (path * string))%type.

(** The loop of [apply_update_zip] over the extracted files (lines 302-328).
    An exception of [os.makedirs] leaves the loop and is caught at line 333;
    an exception of the copy is caught at line 327 and the loop goes on. *)
Fixpoint apply_files (update_zip_path primary_folder : path)
    (files : list (path * content))
    (copied_files overwritten_files : list path)
    (failed_files : list (path * string)) (fs : file_system)
    : delta_result * file_system :=
  match files with
  | [] => ((copied_files, overwritten_files, failed_files), fs)
  | (rel, c) :: files' =>
      let target_file_path := primary_folder ++ rel in
      match makedirs true (dirname target_file_path) fs with
      | (inl e, fs1) =>
          ((copied_files, overwritten_files,
            failed_files ++ [(update_zip_path, exn_str e)]), fs1)
      | (inr _, fs1) =>
          if path_exists fs1 target_file_path then
            match copy2 (basename rel) c target_file_path fs1 with
            | (inr _, fs2) =>
                apply_files update_zip_path primary_folder files'
                  copied_files (overwritten_files ++ [target_file_path])
                  failed_files fs2
            | (inl e, fs2) =>
                apply_files update_zip_path primary_folder files'
                  copied_files overwritten_files
                  (failed_files ++ [(target_file_path, exn_str e)]) fs2
            end
          else
            match copy2 (basename rel) c target_file_path fs1 with
            | (inr _, fs2) =>
                apply_files update_zip_path primary_folder files'
                  (copied_files ++ [target_file_path]) overwritten_files
                  failed_files fs2
            | (inl e, fs2) =>
                apply_files update_zip_path primary_folder files'
                  copied_files overwritten_files
                  (failed_files ++ [(target_file_path, exn_str e)]) fs2
            end
      end
  end.

(** [apply_update_zip]: the result lists and the file system reached. The
    function catches every exception. *)
Definition apply_update_zip (update_zip_path primary_folder : path)
    (fs : file_system) : delta_result * file_system :=
  if negb (path_exists fs update_zip_path) then
    (([], [], [(update_zip_path, "File not found")]), fs)
  else if negb (path_exists fs primary_folder) then
    (([], [], [(primary_folder, "Directory not found")]), fs)
  else
    match read_zip update_zip_path fs with
    | (inl BadZipFile, fs1) =>
        (([], [], [(update_zip_path, "Invalid zip file")]), fs1)
    | (inl e, fs1) => (([], [], [(update_zip_path, exn_str e)]), fs1)
    | (inr entries, fs1) =>
        match extractall entries with
        | inl BadZipFile =>
            (([], [], [(update_zip_path, "Invalid zip file")]), fs1)
        | inl e => (([], [], [(update_zip_path, exn_str e)]), fs1)
        | inr tmp =>
            apply_files update_zip_path primary_folder (walk_files tmp)
                        [] [] [] fs1
        end
    end.

(** The [while] loop of lines 254-259, on the reversed directory path: empty
    directories are removed upwards until [primary_folder], a missing
    directory or a directory that is not empty is reached. *)
Fixpoint prune_empty_dirs (primary_folder : path) (rdir : list string) : F unit :=
  λ fs,
    let dir_path := rev rdir in
    if bool_decide (dir_path ≠ primary_folder) && path_exists fs dir_path then
      match listdir dir_path fs with
      | (inl e, fs1) => (inl e, fs1)
      | (inr (_ :: _), fs1) => (inr tt, fs1)
      | (inr [], fs1) =>
          match rmdir dir_path fs1 with
          | (inl e, fs2) => (inl e, fs2)
          | (inr _, fs2) =>
              match rdir with
              | [] => (inr tt, fs2)
              | _ :: rdir' => prune_empty_dirs primary_folder rdir' fs2
              end
          end
      end
    else (inr tt, fs).

(** The loop of [analyze_update_zip] over the archive's name list (lines
    237-264). Every exception is caught at line 261, after the path has been
    appended to [removed_files] when it is the pruning that raises. *)
Fixpoint analyze_entries (primary_folder : path) (file_list : list zip_entry)
    (removed_files not_found_files : list path)
    (failed_to_remove : list (path * string)) (fs : file_system)
    : delta_result * file_system :=
  match file_list with
  | [] => ((removed_files, not_found_files, failed_to_remove), fs)
  | e :: file_list' =>
      if ze_is_dir e then
        analyze_entries primary_folder file_list'
          removed_files not_found_files failed_to_remove fs
      else
        let primary_file_path := primary_folder ++ ze_name e in
        if path_exists fs primary_file_path then
          match remove primary_file_path fs with
          | (inl ex, fs1) =>
              analyze_entries primary_folder file_list'
                removed_files not_found_files
                (failed_to_remove ++ [(primary_file_path, exn_str ex)]) fs1
          | (inr _, fs1) =>
              match prune_empty_dirs primary_folder
                      (rev (dirname primary_file_path)) fs1 with
              | (inl ex, fs2) =>
                  analyze_entries primary_folder file_list'
                    (removed_files ++ [primary_file_path]) not_found_files
                    (failed_to_remove ++ [(primary_file_path, exn_str ex)]) fs2
              | (inr _, fs2) =>
                  analyze_entries primary_folder file_list'
                    (removed_files ++ [primary_file_path]) not_found_files
                    failed_to_remove fs2
              end
          end
        else
          analyze_entries primary_folder file_list'
            removed_files (not_found_files ++ [primary_file_path])
            failed_to_remove fs
  end.

(** [analyze_update_zip]: the result lists and the file system reached. *)
Definition analyze_update_zip (update_zip_path primary_folder : path)
    (fs : file_system) : delta_result * file_system :=
  if negb (path_exists fs update_zip_path) then
    (([], [], [(update_zip_path, "File not found")]), fs)
  else if negb (path_exists fs primary_folder) then
    (([], [], [(primary_folder, "Directory not found")]), fs)
  else
    match read_zip update_zip_path fs with
    | (inl BadZipFile, fs1) =>
        (([], [], [(update_zip_path, "Invalid zip file")]), fs1)
    | (inl e, fs1) => (([], [], [(update_zip_path, exn_str e)]), fs1)
    | (inr entries, fs1) => analyze_entries primary_folder entries [] [] [] fs1
    end.

(** ** Strings *)

(** A string is the sequence of the bytes of its UTF-8 encoding. *)
Definition byte (c : Ascii.ascii) : N := Stdlib.Strings.Ascii.N_of_ascii c.

(** [s.isascii()] *)
Fixpoint is_ascii (s : string) : bool :=
  match s with
  | String c s' => (byte c <? 128)%N && is_ascii s'
  | EmptyString => true
  end.

(** The whitespace characters [str.strip] removes. Of one byte: U+0009 to
    U+000D, U+001C to U+001F and the space. *)
Definition py_is_space (c : Ascii.ascii) : bool :=
  Ascii.is_space c || ((28 <=? byte c) && (byte c <=? 31))%N.

(** Of two bytes: U+0085 and U+00A0. *)
Definition py_is_space2 (c1 c2 : Ascii.ascii) : bool :=
  ((byte c1 =? 194) && ((byte c2 =? 133) || (byte c2 =? 160)))%N.

(** Of three bytes: U+1680, U+2000 to U+200A, U+2028, U+2029, U+202F, U+205F
    and U+3000. *)
Definition py_is_space3 (c1 c2 c3 : Ascii.ascii) : bool :=
  ((byte c1 =? 225) && (byte c2 =? 154) && (byte c3 =? 128) ||
   (byte c1 =? 226) && (byte c2 =? 128) &&
     ((128 <=? byte c3) && (byte c3 <=? 138) ||
      (byte c3 =? 168) || (byte c3 =? 169) || (byte c3 =? 175)) ||
   (byte c1 =? 226) && (byte c2 =? 129) && (byte c3 =? 159) ||
   (byte c1 =? 227) && (byte c2 =? 128) && (byte c3 =? 128))%N.

(** Removal of the leading whitespace characters; with [reversed] the string
    is read backwards, so that the bytes of a character come last first. *)
Fixpoint lstrip (reversed : bool) (s : string) : string :=
  match s with
  | String c1 s1 =>
      if py_is_space c1 then lstrip reversed s1 else
      match s1 with
      | String c2 s2 =>
          if (if reversed then py_is_space2 c2 c1 else py_is_space2 c1 c2)
          then lstrip reversed s2 else
          match s2 with
          | String c3 s3 =>
              if (if reversed then py_is_space3 c3 c2 c1
                  else py_is_space3 c1 c2 c3)
              then lstrip reversed s3 else s
          | EmptyString => s
          end
      | EmptyString => s
      end
  | EmptyString => EmptyString
  end.

(** [s.strip()] *)
Definition strip (s : string) : string :=
  String.rev (lstrip true (String.rev (lstrip false s))).

Definition lower_char (c : Ascii.ascii) : Ascii.ascii :=
  let n := byte c in
  if ((65 <=? n) && (n <=? 90))%N then Stdlib.Strings.Ascii.ascii_of_N (n + 32) else c.

(** [s.lower()], as far as the program looks at it: the result is only
    compared with words made of hyphens and ASCII letters other than [k],
    and a string with a character beyond ASCII, which is left as it is here,
    lowers to none of these words. *)
Fixpoint lower (s : string) : string :=
  match s with
  | String c s' => String (lower_char c) (lower s')
  | EmptyString => EmptyString
  end.

(** [s.endswith(suffix)] *)
Definition endswith (s suffix : string) : bool :=
  String.prefix (String.rev suffix) (String.rev s).

(** [s.split(sep)] for a separator of one character *)
Fixpoint split_on (sep : Ascii.ascii) (s : string) : list string :=
  match s with
  | EmptyString => [EmptyString]
  | String c s' =>
      if decide (c = sep) then EmptyString :: split_on sep s'
      else match split_on sep s' with
           | h :: t => String c h :: t
           | [] => [String c EmptyString]
           end
  end.

(** [c in s] for a character *)
Fixpoint contains_char (c : Ascii.ascii) (s : string) : bool :=
  match s with
  | EmptyString => false
  | String c' s' => bool_decide (c = c') || contains_char c s'
  end.

(** Decimal digits, single underscores allowed between digits. *)
Fixpoint parse_digits (acc : N) (after_digit : bool) (s : string) : option N :=
  match s with
  | EmptyString => if after_digit then Some acc else None
  | String c s' =>
      match Ascii.is_nat c with
      | Some d => parse_digits (acc * 10 + N.of_nat d) true s'
      | None =>
          if bool_decide (c = "_"%char) && after_digit
          then parse_digits acc false s'
          else None
      end
  end.

(** The blanks [int] skips around a numeral: tab, line feed, vertical tab,
    form feed, carriage return and space. *)
Fixpoint int_lstrip (s : string) : string :=
  match s with
  | String c s' => if Ascii.is_space c then int_lstrip s' else s
  | EmptyString => EmptyString
  end.

(** [int(s)] for a string of ASCII characters; [None] stands for
    [ValueError]. Beyond ASCII, [int] knows further blanks and decimal
    digits, and the interpreter refuses a numeral longer than its digit
    limit, which is never set below 640. *)
Definition py_int (s : string) : option Z :=
  match String.rev (int_lstrip (String.rev (int_lstrip s))) with
  | String "-" s' => (λ n, (- Z.of_N n)%Z) <$> parse_digits 0 false s'
  | String "+" s' => Z.of_N <$> parse_digits 0 false s'
  | s' => Z.of_N <$> parse_digits 0 false s'
  end.

(** [l[i]] with Python's negative indices; [None] stands for [IndexError]. *)
Definition py_index {A} (l : list A) (i : Z) : option A :=
  if (0 <=? i)%Z then l !! Z.to_nat i
  else if (- Z.of_nat (length l) <=? i)%Z
       then l !! Z.to_nat (Z.of_nat (length l) + i)
       else None.

(** [list(range(a, b + 1))] *)
Definition py_range_incl (a b : Z) : list Z :=
  (λ k : nat, (a + Z.of_nat k)%Z) <$> seq 0 (Z.to_nat (b + 1 - a)).

(** [selected.update(l)] on a set kept as a duplicate-free list *)
Definition set_update (selected l : list Z) : list Z :=
  foldl (λ acc x, if decide (x ∈ acc) then acc else acc ++ [x]) selected l.

(** One iteration of the loop of [parse_selection] (lines 193-207). *)
Definition parse_part (max_num : nat) (selected : list Z) (part : string) : list Z :=
  if contains_char "-" part then
    match py_int <$> split_on "-" part with
    | [Some start; Some end_] =>
        if ((1 <=? start) && (start <=? end_) && (end_ <=? Z.of_nat max_num))%Z
        then set_update selected (py_range_incl start end_)
        else selected
    | _ => selected
    end
  else
    match py_int part with
    | Some num =>
        if ((1 <=? num) && (num <=? Z.of_nat max_num))%Z
        then set_update selected [num]
        else selected
    | None => selected
    end.

(** [parse_selection] *)
Definition parse_selection (selection_str : string) (max_num : nat) : list Z :=
  if decide (lower selection_str = "all") then py_range_incl 1 (Z.of_nat max_num)
  else merge_sort Z.le (foldl (parse_part max_num) [] (split_on "," selection_str)).

(** [os.path.splitext] on a file name: the extension starts at the last dot,
    unless only dots come before it. *)
Fixpoint split_last_dot (s : string) : option (string * string) :=
  match s with
  | EmptyString => None
  | String c s' =>
      match split_last_dot s' with
      | Some (b, e) => Some (String c b, e)
      | None => if decide (c = "."%char) then Some (EmptyString, s) else None
      end
  end.

Fixpoint all_dots (s : string) : bool :=
  match s with
  | EmptyString => true
  | String c s' => bool_decide (c = "."%char) && all_dots s'
  end.

Definition splitext (name : string) : string * string :=
  match split_last_dot name with
  | Some (b, e) => if all_dots b then (name, EmptyString) else (b, e)
  | None => (name, EmptyString)
  end.

(** ** The program's world *)

(** The file system and the lines waiting on standard input. *)
Record world := World {
  w_fs : file_system;
  w_stdin : list string
}.

Abbreviation M := (comp world).

Definition lift_fs {A} (m : F A) : M A :=
  λ w, let '(r, fs') := m (w_fs w) in (r, World fs' (w_stdin w)).

(** [input(...)]: the next line, [EOFError] when there is none. *)
Definition input : M string :=
  λ w, match w_stdin w with
       | line :: rest => (inr line, World (w_fs w) rest)
       | [] => (inl EOFError, w)
       end.

(** [input(...).strip().lower()] *)
Definition input_answer : M string :=
  input ≫= λ line, mret (lower (strip line)).

Definition INSTALLED_DIR_NAME : string := "_installed_".
Definition UNINSTALLED_DIR_NAME : string := "_uninstalled_".
Definition DEPENDENCY_FILE : string := "dependencies.json".

(** The list comprehension of lines 24-28 (and 39-43, 50-54). *)
Definition zip_files_in (fs : file_system) (d : path) (names : list string)
    : list (string * path) :=
  omap (λ f, if endswith f ".zip" && isfile fs (d ++ [f])
             then Some (f, d ++ [f]) else None) names.

(** [get_installed_updates] *)
Definition get_installed_updates (updates_dir : path) : F (list (string * path)) :=
  let installed_dir := updates_dir ++ [INSTALLED_DIR_NAME] in
  get_state ≫= λ fs,
  if negb (path_exists fs installed_dir) then
    makedirs false installed_dir ≫= λ _, mret []
  else
    listdir installed_dir ≫= λ names,
    mret (zip_files_in fs installed_dir names).

(** [[name for name, _ in get_installed_updates(updates_dir)]] *)
Definition installed_names (updates_dir : path) : F (list string) :=
  get_installed_updates updates_dir ≫= λ zs, mret (zs.*1).

(** [load_dependencies]: a file that does not hold a dependency object
    stands for text [json.load] cannot parse. *)
Definition load_dependencies (updates_dir : path) : F dependency_data :=
  let dependency_file := updates_dir ++ [DEPENDENCY_FILE] in
  λ fs, match fs !! dependency_file with
        | None => (inr empty_dependency_data, fs)
        | Some Dir => (inl IsADirectoryError, fs)
        | Some (File (Json dd)) => (inr dd, fs)
        | Some (File _) => (inr empty_dependency_data, fs)
        end.

(** [save_dependencies] *)
Definition save_dependencies (updates_dir : path) (dd : dependency_data) : F unit :=
  write_file (updates_dir ++ [DEPENDENCY_FILE]) (Json dd).

(** [update_dependencies] *)
Definition update_dependencies (updates_dir : path) (update_name : string)
    (dependencies : list string) : F unit :=
  load_dependencies updates_dir ≫= λ dd,
  save_dependencies updates_dir
    (update_dependency_data update_name dependencies dd).

(** [get_dependents] and [get_dependencies] *)
Definition get_dependents (updates_dir : path) (update_name : string)
    : F (list string) :=
  load_dependencies updates_dir ≫= λ dd, mret (dependents_of dd update_name).

Definition get_dependencies (updates_dir : path) (update_name : string)
    : F (list string) :=
  load_dependencies updates_dir ≫= λ dd, mret (dependencies_of dd update_name).

(** [check_unused_dependencies] *)
Definition check_unused_dependencies (updates_dir : path)
    (removed_update : string) : F (list string) :=
  load_dependencies updates_dir ≫= λ dd,
  installed_names updates_dir ≫= λ installed_updates,
  mret (unused_dependencies dd installed_updates removed_update).

(** [select_dependencies]; [None] is the cancellation. *)
Definition select_dependencies (updates_dir : path) (update_name : string)
    : M (option (list string)) :=
  lift_fs (installed_names updates_dir) ≫= λ installed_updates,
  match installed_updates with
  | [] => mret (Some [])
  | _ :: _ =>
      input ≫= λ line,
      let selection := strip line in
      if decide (lower selection = "cancel") then mret None
      else if decide (selection = EmptyString) then mret (Some [])
      else
        let selected_indices :=
          parse_selection selection (length installed_updates) in
        match mapM (λ i, py_index installed_updates (i - 1)%Z) selected_indices with
        | Some names => mret (Some names)
        | None => raise IndexError
        end
  end.

(** ** Lifecycle orchestration *)

(** The [while] loop of lines 575-576 (and 437-438), [taken i] telling whether
    the name with suffix [i] exists; [fuel] bounds the number of
    iterations. *)
Fixpoint first_free_suffix (fuel : nat) (taken : nat → bool) (i : nat) : nat :=
  match fuel with
  | 0 => i
  | S fuel' => if taken i then first_free_suffix fuel' taken (S i) else i
  end.

(** [f"{base}_{i}{ext}"] *)
Definition suffixed_name (base ext : string) (i : nat) : string :=
  base +:+ "_" +:+ pretty i +:+ ext.

(** Lines 570-577: where the archive goes in the installed bucket. The
    search needs at most as many iterations as the file system has
    entries. *)
Definition installed_target (installed_dir : path) (zip_name : string)
    (fs : file_system) : path :=
  let target_path := installed_dir ++ [zip_name] in
  if path_exists fs target_path then
    let '(base, ext) := splitext zip_name in
    let i := first_free_suffix (size fs)
               (λ i, path_exists fs (installed_dir ++ [suffixed_name base ext i]))
               1 in
    installed_dir ++ [suffixed_name base ext i]
  else target_path.

(** Lines 568-584 (and 430-446): the archive is moved to the installed bucket
    when at least one file was copied or overwritten; an exception of the
    move is caught. *)
Definition relocate_installed (installed_dir : path) (zip_name : string)
    (source_path : path) (copied overwritten : list path) : F unit :=
  if (0 <? length copied)%nat || (0 <? length overwritten)%nat then
    try_except
      (get_state ≫= λ fs,
       move source_path (installed_target installed_dir zip_name fs))
      (λ _, mret tt)
  else mret tt.

(** The body of the loop of [install_selected_updates] for one archive. *)
Definition install_item (primary_folder updates_dir : path)
    (zip_name : string) (source_path : path) : M unit :=
  let installed_dir := updates_dir ++ [INSTALLED_DIR_NAME] in
  select_dependencies updates_dir zip_name ≫= λ dependencies,
  match dependencies with
  | None => mret tt
  | Some dependencies =>
      lift_fs (update_dependencies updates_dir zip_name dependencies) ≫= λ _,
      lift_fs (λ fs, let '(r, fs') := apply_update_zip source_path primary_folder fs
                     in (inr r, fs')) ≫= λ '(copied, overwritten, failed),
      lift_fs (relocate_installed installed_dir zip_name source_path
                                  copied overwritten) ≫= λ _,
      match copied, overwritten, failed with
      | [], [], [] => mret tt
      | _, _, _ => input_answer ≫= λ _, mret tt
      end
  end.

(** [install_selected_updates] *)
Definition install_selected_updates (primary_folder updates_dir : path)
    (selected_indices : list Z) (zip_files : list (string * path)) : M unit :=
  for_each selected_indices (λ idx,
    match py_index zip_files (idx - 1)%Z with
    | None => raise IndexError
    | Some (zip_name, source_path) =>
        install_item primary_folder updates_dir zip_name source_path
    end).

(** Lines 499-509: removal of the unused dependencies the user agreed to
    remove. *)
Definition remove_unused_dependencies (primary_folder updates_dir : path)
    (unused_deps : list string) : F unit :=
  let installed_dir := updates_dir ++ [INSTALLED_DIR_NAME] in
  let uninstalled_dir := updates_dir ++ [UNINSTALLED_DIR_NAME] in
  for_each unused_deps (λ dep,
    let dep_path := installed_dir ++ [dep] in
    get_state ≫= λ fs,
    if path_exists fs dep_path then
      (λ fs, let '(r, fs') := analyze_update_zip dep_path primary_folder fs
             in (inr r, fs')) ≫= λ '(dep_removed, _, _),
      if (0 <? length dep_removed)%nat
      then move dep_path (uninstalled_dir ++ [dep])
      else mret tt
    else mret tt).

(** Lines 483-514: the archive is moved to the uninstalled bucket when at
    least one file was removed, and the unused dependencies are then looked
    for; every exception raised in between is caught. *)
Definition relocate_uninstalled (primary_folder updates_dir : path)
    (zip_name : string) (zip_path : path) (removed : list path) : M unit :=
  let uninstalled_dir := updates_dir ++ [UNINSTALLED_DIR_NAME] in
  if (0 <? length removed)%nat then
    try_except
      (lift_fs (move zip_path (uninstalled_dir ++ [zip_name])) ≫= λ _,
       lift_fs (check_unused_dependencies updates_dir zip_name) ≫= λ unused_deps,
       match unused_deps with
       | [] => mret tt
       | _ :: _ =>
           input_answer ≫= λ removal,
           if decide (removal = "y") then
             lift_fs (remove_unused_dependencies primary_folder updates_dir
                                                 unused_deps)
           else mret tt
       end)
      (λ _, mret tt)
  else mret tt.

(** The body of the loop of [remove_selected_updates] for one archive. *)
Definition remove_item (primary_folder updates_dir : path)
    (zip_name : string) (zip_path : path) : M unit :=
  lift_fs (get_dependents updates_dir zip_name) ≫= λ dependents,
  lift_fs (installed_names updates_dir) ≫= λ installed_updates,
  let actual_dependents :=
    filter (λ dep, dep ∈ installed_updates) dependents in
  (match actual_dependents with
   | [] => mret true
   | _ :: _ => input_answer ≫= λ confirmation,
               mret (bool_decide (confirmation = "y"))
   end) ≫= λ proceed : bool,
  if proceed then
    lift_fs (λ fs, let '(r, fs') := analyze_update_zip zip_path primary_folder fs
                   in (inr r, fs')) ≫= λ '(removed, not_found, failed),
    relocate_uninstalled primary_folder updates_dir zip_name zip_path removed
      ≫= λ _,
    match removed, not_found, failed with
    | [], [], [] => mret tt
    | _, _, _ => input_answer ≫= λ _, mret tt
    end
  else mret tt.

(** [remove_selected_updates] *)
Definition remove_selected_updates (primary_folder updates_dir : path)
    (selected_indices : list Z) (zip_files : list (string * path)) : M unit :=
  for_each selected_indices (λ idx,
    match py_index zip_files (idx - 1)%Z with
    | None => raise IndexError
    | Some (zip_name, zip_path) =>
        remove_item primary_folder updates_dir zip_name zip_path
    end).

(** The body of the loop of [remove_all_updates] for one archive (lines
    363-381). *)
Definition remove_all_item (primary_folder updates_dir : path)
    (zip_name : string) (zip_path : path) : F unit :=
  let uninstalled_dir := updates_dir ++ [UNINSTALLED_DIR_NAME] in
  (λ fs, let '(r, fs') := analyze_update_zip zip_path primary_folder fs
         in (inr r, fs')) ≫= λ '(removed, _, _),
  if (0 <? length removed)%nat then
    try_except (move zip_path (uninstalled_dir ++ [zip_name])) (λ _, mret tt)
  else mret tt.

(** [remove_all_updates] *)
Definition remove_all_updates (primary_folder updates_dir : path) : M unit :=
  lift_fs (get_installed_updates updates_dir) ≫= λ zip_files,
  match zip_files with
  | [] => mret tt
  | _ :: _ =>
      input_answer ≫= λ confirmation,
      if decide (confirmation ≠ "y") then mret tt
      else
        lift_fs (for_each zip_files (λ '(zip_name, zip_path),
                   remove_all_item primary_folder updates_dir zip_name zip_path))
  end.

(** ** The per-item removal logic, part by part *)

(** The installed-dependents warning gate of [remove_selected_updates]
    (lines 461-472), its question being answered by [answer]: [true] when
    the removal goes on. *)
Definition dependents_gate (answer : M string) (updates_dir : path)
    (zip_name : string) : M bool :=
  lift_fs (get_dependents updates_dir zip_name) ≫= λ dependents,
  lift_fs (installed_names updates_dir) ≫= λ installed_updates,
  let actual_dependents :=
    filter (λ dep, dep ∈ installed_updates) dependents in
  match actual_dependents with
  | [] => mret true
  | _ :: _ => answer ≫= λ confirmation,
              mret (bool_decide (confirmation = "y"))
  end.

(** The unused-dependency detection that follows the relocation (lines
    491-509), its question being answered by [answer]. *)
Definition unused_detection (answer : M string)
    (primary_folder updates_dir : path) (zip_name : string) : M unit :=
  lift_fs (check_unused_dependencies updates_dir zip_name) ≫= λ unused_deps,
  match unused_deps with
  | [] => mret tt
  | _ :: _ =>
      answer ≫= λ removal,
      if decide (removal = "y") then
        lift_fs (remove_unused_dependencies primary_folder updates_dir
                                            unused_deps)
      else mret tt
  end.

(** The body of the loop of [remove_selected_updates] (lines 457-514) with
    three of its parts as parameters: the warning gate, the detection that
    follows the relocation, and the question about the detailed results.
    What remains is the delta reversal and the relocation gate. *)
Definition per_item_removal (gate : M bool) (detection details : M unit)
    (primary_folder updates_dir : path) (zip_name : string) (zip_path : path)
    : M unit :=
  let uninstalled_dir := updates_dir ++ [UNINSTALLED_DIR_NAME] in
  gate ≫= λ proceed : bool,
  if proceed then
    lift_fs (λ fs, let '(r, fs') := analyze_update_zip zip_path primary_folder fs
                   in (inr r, fs')) ≫= λ '(removed, not_found, failed),
    (if (0 <? length removed)%nat then
       try_except
         (lift_fs (move zip_path (uninstalled_dir ++ [zip_name])) ≫= λ _,
          detection)
         (λ _, mret tt)
     else mret tt) ≫= λ _,
    match removed, not_found, failed with
    | [], [], [] => mret tt
    | _, _, _ => details
    end
  else mret tt.

(** A bulk removal: one confirmation for the batch, then [item] for every
    installed archive, in listing order; [item] is given the confirmation. *)
Definition remove_all_by (item : string → string → path → M unit)
    (updates_dir : path) : M unit :=
  lift_fs (get_installed_updates updates_dir) ≫= λ zip_files,
  match zip_files with
  | [] => mret tt
  | _ :: _ =>
      input_answer ≫= λ confirmation,
      if decide (confirmation ≠ "y") then mret tt
      else
        for_each zip_files (λ '(zip_name, zip_path),
          item confirmation zip_name zip_path)
  end.

(** The bulk removal the way the specification words it: the per-item
    removal logic of [remove_selected_updates], warning gate and detection
    included, with the confirmation of the batch in the place of the
    questions of the items. *)
Definition remove_all_per_item (primary_folder updates_dir : path) : M unit :=
  remove_all_by
    (λ confirmation zip_name zip_path,
       per_item_removal
         (dependents_gate (mret confirmation) updates_dir zip_name)
         (unused_detection (mret confirmation) primary_folder updates_dir
                           zip_name)
         (mret tt)
         primary_folder updates_dir zip_name zip_path)
    updates_dir.


(** ** Predicates on file-system changes *)

(** [only_adds_dirs p fs fs']: [fs'] is [fs] with directories added at
    missing prefixes of [p]. *)
Definition only_adds_dirs (p : path) (fs fs' : file_system) : Prop :=
  ∀ k, fs' !! k = fs !! k ∨
       (fs !! k = None ∧ fs' !! k = Some Dir ∧ k `prefix_of` p).

(** [well_formed fs]: everything above an entry is a directory. *)
Definition well_formed (fs : file_system) : Prop :=
  ∀ k n, fs !! k = Some n → fs !! dirname k = Some Dir.

(** [only_deletes primary_folder l fs fs']: [fs'] is [fs] without some
    directories and without some regular files that are targets of file
    members of [l]. *)
Definition only_deletes (primary_folder : path) (l : list zip_entry)
    (fs fs' : file_system) : Prop :=
  ∀ k, fs' !! k = fs !! k ∨
       (fs' !! k = None ∧
        (fs !! k = Some Dir ∨
         ∃ e, e ∈ l ∧ ze_is_dir e = false ∧ k = primary_folder ++ ze_name e)).

(** [keeps_kinds fs fs']: directories of [fs] are directories of [fs'] and
    regular files of [fs] are regular files of [fs']. *)
Definition keeps_kinds (fs fs' : file_system) : Prop :=
  ∀ k, (fs !! k = Some Dir → fs' !! k = Some Dir) ∧
       (∀ c, fs !! k = Some (File c) → ∃ c', fs' !! k = Some (File c')).

(** ** Example worlds *)

(** An archive with a directory member and two file members. *)
Definition example_entries : list zip_entry :=
  [ZipEntry ["textures"] true (Raw EmptyString);
   ZipEntry ["textures"; "a.png"] false (Raw "png");
   ZipEntry ["b.txt"] false (Raw "new")].

(** The primary folder [game] already holds [b.txt]; the archive waits in the
    update root [u]. *)
Definition example_fs : file_system :=
  list_to_map
    [([], Dir); (["game"], Dir); (["u"], Dir);
     (["u"; "_installed_"], Dir); (["u"; "_uninstalled_"], Dir);
     (["u"; "mod.zip"], File (Zip example_entries));
     (["game"; "b.txt"], File (Raw "old"))].

(** The archive [mod.zip] has the single member [../x.txt]; neither the
    primary folder [game] nor the directory above it holds an [x.txt]. *)
Definition example_dotdot_fs : file_system :=
  list_to_map
    [([], Dir); (["game"], Dir); (["u"], Dir);
     (["u"; "_installed_"], Dir); (["u"; "_uninstalled_"], Dir);
     (["u"; "mod.zip"],
      File (Zip [ZipEntry [".."; "x.txt"] false (Raw "x")]))].

(** The installed bucket already holds [A.zip] and [A_1.zip]; another
    [A.zip] waits in the update root. *)
Definition example_collision_fs : file_system :=
  list_to_map
    [([], Dir); (["game"], Dir); (["u"], Dir);
     (["u"; "_installed_"], Dir); (["u"; "_uninstalled_"], Dir);
     (["u"; "_installed_"; "A.zip"], File (Zip []));
     (["u"; "_installed_"; "A_1.zip"], File (Zip []));
     (["u"; "A.zip"], File (Zip example_entries))].


(** [A.zip] depends on [B.zip]; both are installed and their files are in
    the primary folder. *)
Definition example_dependent_fs : file_system :=
  list_to_map
    [([], Dir); (["game"], Dir); (["u"], Dir);
     (["u"; "_installed_"], Dir); (["u"; "_uninstalled_"], Dir);
     (["u"; "_installed_"; "A.zip"],
      File (Zip [ZipEntry ["a.txt"] false (Raw "a")]));
     (["u"; "_installed_"; "B.zip"],
      File (Zip [ZipEntry ["b.txt"] false (Raw "b")]));
     (["game"; "a.txt"], File (Raw "a"));
     (["game"; "b.txt"], File (Raw "b"));
     (["u"; "dependencies.json"],
      File (Json (record_all [("B.zip", []); ("A.zip", ["B.zip"])]
                             empty_dependency_data)))].

(** [A.zip] is installed and its file is in the primary folder; the
    dependency file cannot be read, a directory being in its place. *)
Definition example_unreadable_store_fs : file_system :=
  list_to_map
    [([], Dir); (["game"], Dir); (["u"], Dir);
     (["u"; "_installed_"], Dir); (["u"; "_uninstalled_"], Dir);
     (["u"; "_installed_"; "A.zip"],
      File (Zip [ZipEntry ["a.txt"] false (Raw "a")]));
     (["game"; "a.txt"], File (Raw "a"));
     (["u"; "dependencies.json"], Dir)].

(** [C.zip] was recorded with the dependency [A.zip]; [A.zip] and [B.zip]
    both hold [g.txt] and nothing else. All three are installed. *)
Definition example_cascade_fs : file_system :=
  list_to_map
    [([], Dir); (["game"], Dir); (["u"], Dir);
     (["u"; "_installed_"], Dir); (["u"; "_uninstalled_"], Dir);
     (["u"; "_installed_"; "C.zip"],
      File (Zip [ZipEntry ["f.txt"] false (Raw "f")]));
     (["u"; "_installed_"; "B.zip"],
      File (Zip [ZipEntry ["g.txt"] false (Raw "g")]));
     (["u"; "_installed_"; "A.zip"],
      File (Zip [ZipEntry ["g.txt"] false (Raw "g")]));
     (["game"; "f.txt"], File (Raw "f"));
     (["game"; "g.txt"], File (Raw "g"));
     (["u"; "dependencies.json"],
      File (Json (record_all [("A.zip", []); ("B.zip", []);
                              ("C.zip", ["A.zip"])]
                             empty_dependency_data)))].

(** [A.zip] and [B.zip] are installed and their files are in the primary
    folder; [A.zip] was recorded with the dependency [C.zip], which has been
    removed since. *)
Definition example_recorded_fs : file_system :=
  list_to_map
    [([], Dir); (["game"], Dir); (["u"], Dir);
     (["u"; "_installed_"], Dir); (["u"; "_uninstalled_"], Dir);
     (["u"; "_installed_"; "A.zip"],
      File (Zip [ZipEntry ["a.txt"] false (Raw "a")]));
     (["u"; "_installed_"; "B.zip"],
      File (Zip [ZipEntry ["b.txt"] false (Raw "b")]));
     (["u"; "_uninstalled_"; "C.zip"],
      File (Zip [ZipEntry ["c.txt"] false (Raw "c")]));
     (["game"; "a.txt"], File (Raw "a"));
     (["game"; "b.txt"], File (Raw "b"));
     (["u"; "dependencies.json"],
      File (Json (record_all [("C.zip", []); ("A.zip", ["C.zip"]);
                              ("B.zip", [])]
                             empty_dependency_data)))].





(** An archive without members waits in the update root. *)
Definition example_empty_archive_fs : file_system :=
  list_to_map
    [([], Dir); (["game"], Dir); (["u"], Dir);
     (["u"; "_installed_"], Dir); (["u"; "_uninstalled_"], Dir);
     (["u"; "empty.zip"], File (Zip []))].

(** ** Selections *)

(** [part_selects max_num part i]: the comma-separated piece [part] of a
    selection string selects the index [i]: a number in range, or a range
    [start-end] within [1..max_num] that contains [i]. *)
Definition part_selects (max_num : nat) (part : string) (i : Z) : Prop :=
  if contains_char "-" part then
    ∃ start end_ : Z,
      py_int <$> split_on "-" part = [Some start; Some end_] ∧
      (1 ≤ start ∧ start ≤ i ∧ i ≤ end_ ∧ end_ ≤ Z.of_nat max_num)%Z
  else py_int part = Some i ∧ (1 ≤ i ∧ i ≤ Z.of_nat max_num)%Z.

(** ** Available archives and bulk installation *)

(** [sys.exit(code)] ends the program: [SystemExit] is no [Exception], so no
    handler of the program catches it. A function that may call it yields
    [Exit code], or [Return a] when it returns [a]. *)
Inductive exit_or (A : Type) :=
  | Exit (code : Z)
  | Return (a : A).
Arguments Exit {A} code.
Arguments Return {A} a.

(** [get_available_updates] *)
Definition get_available_updates (updates_dir : path)
    : F (exit_or (list (string * path))) :=
  let uninstalled_dir := updates_dir ++ [UNINSTALLED_DIR_NAME] in
  get_state ≫= λ fs,
  if negb (path_exists fs updates_dir) then mret (Exit 1)
  else
    listdir updates_dir ≫= λ names,
    let root_zips := zip_files_in fs updates_dir names in
    (if negb (path_exists fs uninstalled_dir)
     then makedirs false uninstalled_dir else mret tt) ≫= λ _,
    get_state ≫= λ fs1,
    listdir uninstalled_dir ≫= λ names',
    let uninstalled_zips := zip_files_in fs1 uninstalled_dir names' in
    mret (Return (root_zips ++ uninstalled_zips)).

(** The body of the loop of [install_all_updates] for one archive (lines
    408-446). *)
Definition install_all_item (primary_folder updates_dir : path)
    (zip_name : string) (source_path : path) : M unit :=
  let installed_dir := updates_dir ++ [INSTALLED_DIR_NAME] in
  select_dependencies updates_dir zip_name ≫= λ dependencies,
  match dependencies with
  | None => mret tt
  | Some dependencies =>
      lift_fs (update_dependencies updates_dir zip_name dependencies) ≫= λ _,
      lift_fs (λ fs, let '(r, fs') := apply_update_zip source_path primary_folder fs
                     in (inr r, fs')) ≫= λ '(copied, overwritten, failed),
      lift_fs (relocate_installed installed_dir zip_name source_path
                                  copied overwritten)
  end.

(** [install_all_updates] *)
Definition install_all_updates (primary_folder updates_dir : path)
    : M (exit_or unit) :=
  lift_fs (get_available_updates updates_dir) ≫= λ available,
  match available with
  | Exit code => mret (Exit code)
  | Return [] => mret (Return tt)
  | Return ((_ :: _) as zip_files) =>
      input_answer ≫= λ confirmation,
      if decide (confirmation ≠ "y") then mret (Return tt)
      else
        for_each zip_files (λ '(zip_name, source_path),
          install_all_item primary_folder updates_dir zip_name source_path)
        ≫= λ _, mret (Return tt)
  end.

(** ** The command line *)

(** The [mode] argument, one of ["install"], ["remove"] and ["graph"]. *)
Inductive mode :=
  | Install
  | Remove
  | Graph.

(** The parsed arguments. The two optional positional arguments are [None]
    when they are absent or empty, which is what [not args.x] tests. *)
Record args := Args {
  args_mode : mode;
  args_primary_folder : option path;
  args_updates_dir : option path
}.

(** [display_dependency_graph], as far as files and input go: the graph is
    loaded, the installed archives are listed and, unless no dependency is
    recorded, one line of input is awaited after the graph has been
    printed. *)
Definition display_dependency_graph (updates_dir : path) : M unit :=
  lift_fs (load_dependencies updates_dir) ≫= λ dependency_data,
  lift_fs (installed_names updates_dir) ≫= λ installed_updates,
  if decide (dd_dependencies dependency_data = ∅) then mret tt
  else input ≫= λ _, mret tt.

(** Lines 712-716: the two buckets are created when they are missing. *)
Definition ensure_dir (d : path) : F unit :=
  get_state ≫= λ fs,
  if negb (path_exists fs d) then makedirs false d else mret tt.

(** Lines 719-727: the archives offered for selection. *)
Definition listed_updates (m : mode) (updates_dir : path)
    : F (exit_or (list (string * path))) :=
  match m with
  | Install => get_available_updates updates_dir
  | _ => get_installed_updates updates_dir ≫= λ zip_files, mret (Return zip_files)
  end.

(** [main], from the parsed arguments on. [parser.error] ends the program
    with status 2; falling off the end of [main] is [Return tt]. *)
Definition main (a : args) : M (exit_or unit) :=
  match args_mode a with
  | Graph =>
      match args_updates_dir a with
      | None => mret (Exit 2)
      | Some updates_dir =>
          display_dependency_graph updates_dir ≫= λ _, mret (Exit 0)
      end
  | m =>
      match args_primary_folder a, args_updates_dir a with
      | Some primary_folder, Some updates_dir =>
          lift_fs get_state ≫= λ fs,
          if negb (path_exists fs primary_folder) then mret (Exit 1)
          else
            lift_fs (ensure_dir (updates_dir ++ [INSTALLED_DIR_NAME])) ≫= λ _,
            lift_fs (ensure_dir (updates_dir ++ [UNINSTALLED_DIR_NAME])) ≫= λ _,
            lift_fs (listed_updates m updates_dir) ≫= λ listed,
            match listed with
            | Exit code => mret (Exit code)
            | Return [] => mret (Exit 0)
            | Return ((_ :: _) as zip_files) =>
                input ≫= λ line,
                (if decide (lower (strip line) = "graph") then
                   display_dependency_graph updates_dir ≫= λ _,
                   input ≫= λ line', mret (strip line')
                 else mret (strip line)) ≫= λ selection,
                match m with
                | Install =>
                    if decide (lower selection = "install-all") then
                      install_all_updates primary_folder updates_dir ≫= λ r,
                      match r with
                      | Exit code => mret (Exit code)
                      | Return _ => mret (Exit 0)
                      end
                    else
                      match parse_selection selection (length zip_files) with
                      | [] => mret (Exit 0)
                      | (_ :: _) as selected_indices =>
                          install_selected_updates primary_folder updates_dir
                            selected_indices zip_files ≫= λ _, mret (Return tt)
                      end
                | _ =>
                    if decide (lower selection = "remove-all") then
                      remove_all_updates primary_folder updates_dir ≫= λ _,
                      mret (Exit 0)
                    else
                      match parse_selection selection (length zip_files) with
                      | [] => mret (Exit 0)
                      | (_ :: _) as selected_indices =>
                          remove_selected_updates primary_folder updates_dir
                            selected_indices zip_files ≫= λ _, mret (Return tt)
                      end
                end
            end
      | _, _ => mret (Exit 2)
      end
  end.

(** [raises_only E m]: whatever the state, an exception that leaves [m]
    satisfies [E]. *)
Definition raises_only {S A} (E : exn → Prop) (m : comp S A) : Prop :=
  ∀ s e, (m s).1 = inl e → E e.

(** The exceptions of the operating system and of the input stream: every
    one but [IndexError]. *)
Definition not_index_error (e : exn) : Prop := e ≠ IndexError.

(** ** Properties of the dependency graph store *)

Section graph_store.
Implicit Types (dd : dependency_data) (dents : gmap string (list string)).
Implicit Types (name dep d n : string) (deps : list string).

Lemma dict_get_insert_eq dents d (l : list string) :
  dict_get (<[d := l]> dents) d = l.
Proof. unfold dict_get. by rewrite lookup_insert_eq. Qed.

Lemma dict_get_insert_ne dents d d' (l : list string) :
  d ≠ d' → dict_get (<[d := l]> dents) d' = dict_get dents d'.
Proof. intros Hne. unfold dict_get. by rewrite lookup_insert_ne. Qed.

(** Effect of one loop iteration on the entry of the dependency itself. *)
Lemma add_dependent_same name dep dents :
  dict_get (add_dependent name dep dents) dep =
    if decide (name ∈ dict_get dents dep) then dict_get dents dep
    else dict_get dents dep ++ [name].
Proof.
  unfold add_dependent.
  destruct (dents !! dep) as [l|] eqn:Hl.
  - replace (dict_get dents dep) with l by (unfold dict_get; by rewrite Hl).
    destruct (decide (name ∈ l)).
    + unfold dict_get. by rewrite Hl.
    + apply dict_get_insert_eq.
  - rewrite dict_get_insert_eq.
    replace (dict_get dents dep) with (@nil string)
      by (unfold dict_get; by rewrite Hl).
    destruct (decide (name ∈ [])) as [Hin|_]; [inversion Hin|].
    apply dict_get_insert_eq.
Qed.

(** ... and on every other entry. *)
Lemma add_dependent_other name dep d dents :
  dep ≠ d → dict_get (add_dependent name dep dents) d = dict_get dents d.
Proof.
  intros Hne. unfold add_dependent.
  destruct (dents !! dep) eqn:Hl; destruct (decide _);
    rewrite ?dict_get_insert_ne by done; done.
Qed.

(** The whole loop, entry by entry. *)
Lemma add_dependents_loop name deps d dents :
  dict_get (foldl (λ m dep, add_dependent name dep m) dents deps) d =
    if decide (d ∈ deps) then
      if decide (name ∈ dict_get dents d) then dict_get dents d
      else dict_get dents d ++ [name]
    else dict_get dents d.
Proof.
  revert dents. induction deps as [|dep deps IH]; intros dents; simpl.
  - destruct (decide (d ∈ [])) as [Hin|_]; [inversion Hin|done].
  - rewrite IH. destruct (decide (dep = d)) as [->|Hne].
    + rewrite add_dependent_same.
      rewrite (decide_True (P := d ∈ d :: deps)) by left.
      destruct (decide (name ∈ dict_get dents d)) as [Hin|Hnin].
      * rewrite (decide_True (P := name ∈ dict_get dents d)) by done.
        by destruct (decide (d ∈ deps)).
      * rewrite (decide_True (P := name ∈ dict_get dents d ++ [name]))
          by set_solver.
        by destruct (decide (d ∈ deps)).
    + rewrite add_dependent_other by done.
      destruct (decide (d ∈ deps)) as [Hin|Hnin].
      * rewrite (decide_True (P := d ∈ dep :: deps)) by (by right). done.
      * rewrite (decide_False (P := d ∈ dep :: deps)); [done|].
        intros Hin. apply elem_of_cons in Hin as [->|?]; done.
Qed.

Lemma dependents_of_update name deps dd d :
  dependents_of (update_dependency_data name deps dd) d =
    if decide (d ∈ deps) then
      if decide (name ∈ dependents_of dd d) then dependents_of dd d
      else dependents_of dd d ++ [name]
    else dependents_of dd d.
Proof. unfold dependents_of, update_dependency_data. apply add_dependents_loop. Qed.

Lemma dependencies_of_update name deps dd b :
  dependencies_of (update_dependency_data name deps dd) b =
    if decide (name = b) then deps else dependencies_of dd b.
Proof.
  unfold dependencies_of, update_dependency_data; simpl.
  destruct (decide (name = b)) as [->|Hne].
  - apply dict_get_insert_eq.
  - by apply dict_get_insert_ne.
Qed.

Lemma elem_of_dependents_of_update name deps dd d n :
  n ∈ dependents_of (update_dependency_data name deps dd) d ↔
  n ∈ dependents_of dd d ∨ (n = name ∧ d ∈ deps).
Proof.
  rewrite dependents_of_update.
  destruct (decide (d ∈ deps)) as [Hd|Hd].
  - destruct (decide (name ∈ dependents_of dd d)) as [Hn|Hn].
    + split; [by left|]. intros [?|[-> _]]; done.
    + rewrite elem_of_app, list_elem_of_singleton. split.
      * intros [? | ->]; [by left|by right].
      * intros [?|[-> _]]; [by left|by right].
  - split; [by left|]. intros [?|[_ ?]]; done.
Qed.

Lemma record_all_snoc ops name deps dd :
  record_all (ops ++ [(name, deps)]) dd =
  update_dependency_data name deps (record_all ops dd).
Proof. unfold record_all. by rewrite foldl_app. Qed.

Lemma dependents_of_empty d : dependents_of empty_dependency_data d = [].
Proof. done. Qed.

Lemma dependencies_of_empty d : dependencies_of empty_dependency_data d = [].
Proof. done. Qed.

(** Recorded dependents lists stay duplicate-free. *)
Lemma update_dependency_data_NoDup name deps dd :
  (∀ d, NoDup (dependents_of dd d)) →
  ∀ d, NoDup (dependents_of (update_dependency_data name deps dd) d).
Proof.
  intros Hnd d. rewrite dependents_of_update.
  destruct (decide (d ∈ deps)); [|done].
  destruct (decide (name ∈ dependents_of dd d)) as [|Hn]; [done|].
  apply NoDup_app. split_and!; [done| |apply NoDup_singleton].
  intros x Hx Hx'. apply list_elem_of_singleton in Hx' as ->. done.
Qed.

Lemma record_all_NoDup ops :
  ∀ d, NoDup (dependents_of (record_all ops empty_dependency_data) d).
Proof.
  induction ops as [|[name deps] ops IH] using rev_ind; intros d.
  - apply NoDup_nil_2.
  - rewrite record_all_snoc. by apply update_dependency_data_NoDup.
Qed.

Lemma iter_update_S k name deps dd :
  Nat.iter (S k) (update_dependency_data name deps) dd =
  update_dependency_data name deps
    (Nat.iter k (update_dependency_data name deps) dd).
Proof. done. Qed.
Lemma record_all_app ops1 ops2 dd :
  record_all (ops1 ++ ops2) dd = record_all ops2 (record_all ops1 dd).
Proof. unfold record_all. by rewrite foldl_app. Qed.

Lemma record_all_cons name deps ops dd :
  record_all ((name, deps) :: ops) dd =
  record_all ops (update_dependency_data name deps dd).
Proof. done. Qed.

(** A package that is not recorded keeps its dependency list. *)
Lemma dependencies_of_record_all_other ops dd b :
  b ∉ ops.*1 → dependencies_of (record_all ops dd) b = dependencies_of dd b.
Proof.
  induction ops as [|[name deps] ops IH] using rev_ind; [done|].
  rewrite fmap_app, not_elem_of_app. simpl. intros [Hops Hne].
  rewrite record_all_snoc, dependencies_of_update.
  rewrite decide_False; [by apply IH|].
  intros ->. apply Hne. left.
Qed.

(** The reverse index accumulates the records. *)
Lemma elem_of_dependents_of_record_all ops a b :
  b ∈ dependents_of (record_all ops empty_dependency_data) a ↔
  ∃ deps, (b, deps) ∈ ops ∧ a ∈ deps.
Proof.
  induction ops as [|[name deps] ops IH] using rev_ind.
  - split; [intros Hin; inversion Hin|].
    intros (deps & Hin & _). inversion Hin.
  - rewrite record_all_snoc, elem_of_dependents_of_update, IH. split.
    + intros [(deps' & Hin & HA)|[-> HA]].
      * exists deps'. split; [|done]. apply elem_of_app. by left.
      * exists deps. split; [|done]. apply elem_of_app. right. left.
    + intros (deps' & Hin & HA).
      apply elem_of_app in Hin as [Hin|Hin].
      * left. by exists deps'.
      * apply list_elem_of_singleton in Hin. injection Hin as -> ->.
        by right.
Qed.

End graph_store.

(** C1, as stated, fails: after re-recording B with a smaller list, B is
    still in dependents[A] although A is no longer in dependencies[B]. *)
Lemma C1_consistency_counterexample :
  ¬ ("B" ∈ dependents_of graph_rerecorded "A" ↔
     "A" ∈ dependencies_of graph_rerecorded "B").
Proof.
  intros [Hfwd _].
  assert (Hin : "B" ∈ dependents_of graph_rerecorded "A").
  { vm_compute. left. }
  specialize (Hfwd Hin). vm_compute in Hfwd. inversion Hfwd.
Qed.

(** C1 (amended): after any sequence of record operations from the empty
    graph, every recorded dependency is mirrored in the reverse index
    (A in dependencies[B] implies B in dependents[A]); B is in dependents[A]
    exactly when some record operation of the sequence recorded B with A in
    its dependency list, so that earlier entries of dependents stay in
    place; and each record of B overwrites dependencies[B]: it is the list
    of the last record of B, and the empty list when B was never
    recorded. *)
Theorem C1_recorded_dependents (ops : list (string * list string)) (A B : string) :
  let g := record_all ops empty_dependency_data in
  (A ∈ dependencies_of g B → B ∈ dependents_of g A) ∧
  (B ∈ dependents_of g A ↔ ∃ deps, (B, deps) ∈ ops ∧ A ∈ deps) ∧
  (∀ ops1 deps ops2,
     ops = ops1 ++ (B, deps) :: ops2 → B ∉ ops2.*1 →
     dependencies_of g B = deps) ∧
  (B ∉ ops.*1 → dependencies_of g B = []).
Proof.
  simpl. split_and!.
  - induction ops as [|[name deps] ops IH] using rev_ind.
    + intros Hin. inversion Hin.
    + rewrite record_all_snoc.
      rewrite dependencies_of_update, elem_of_dependents_of_update.
      destruct (decide (name = B)) as [->|Hne]; [by right|].
      intros Hin. left. by apply IH.
  - apply elem_of_dependents_of_record_all.
  - intros ops1 deps ops2 -> Hlast.
    rewrite record_all_app, record_all_cons.
    rewrite dependencies_of_record_all_other by done.
    rewrite dependencies_of_update. by rewrite decide_True.
  - intros Hnever. by rewrite dependencies_of_record_all_other.
Qed.

(** C4: on a graph whose dependents lists are duplicate-free (as they are in
    every graph the store produces), after one or more calls of
    record(name, deps) with the same arguments, name occurs exactly once in
    dependentsOf(d) for every d in deps, whatever duplicates deps has. *)
Theorem C4_idempotent_reverse_index (dd : dependency_data) (name : string)
    (deps : list string) (k : nat) (d : string) :
  (∀ d', NoDup (dependents_of dd d')) →
  d ∈ deps →
  count_occ String.string_dec
    (dependents_of (Nat.iter (S k) (update_dependency_data name deps) dd) d)
    name = 1.
Proof.
  intros Hnd Hd.
  assert (Hiter : ∀ j d', NoDup (dependents_of
            (Nat.iter j (update_dependency_data name deps) dd) d')).
  { induction j as [|j IHj]; [done|]. intros d'.
    rewrite iter_update_S. by apply update_dependency_data_NoDup. }
  assert (Hin : name ∈ dependents_of
            (Nat.iter (S k) (update_dependency_data name deps) dd) d).
  { rewrite iter_update_S. apply elem_of_dependents_of_update. by right. }
  specialize (Hiter (S k) d).
  apply NoDup_ListNoDup in Hiter.
  apply list_elem_of_In in Hin.
  pose proof (proj1 (NoDup_count_occ String.string_dec _) Hiter name) as Hle.
  pose proof (proj1 (count_occ_In String.string_dec _ name) Hin) as Hge.
  lia.
Qed.

Lemma C4_idempotent_reverse_index_witness :
  count_occ String.string_dec
    (dependents_of
       (Nat.iter 3 (update_dependency_data "app" ["lib"; "lib"; "core"])
                 (record_all [("tool", ["lib"])] empty_dependency_data))
       "lib")
    "app" = 1.
Proof.
  apply (C4_idempotent_reverse_index
           (record_all [("tool", ["lib"])] empty_dependency_data)
           "app" ["lib"; "lib"; "core"] 2 "lib").
  - apply record_all_NoDup.
  - left.
Defined.

(** C10: a record call only grows the reverse index; an entry of
    dependents[d] present before the call is present after it. *)
Theorem C10_dependents_only_grow (dd : dependency_data) (name : string)
    (deps : list string) (d n : string) :
  n ∈ dependents_of dd d →
  n ∈ dependents_of (update_dependency_data name deps dd) d.
Proof. intros Hin. apply elem_of_dependents_of_update. by left. Qed.

Lemma C10_dependents_only_grow_witness :
  "B" ∈ dependents_of
          (update_dependency_data "B" []
             (record_all [("B", ["A"])] empty_dependency_data)) "A".
Proof.
  apply (C10_dependents_only_grow
           (record_all [("B", ["A"])] empty_dependency_data) "B" [] "A" "B").
  vm_compute. left.
Defined.

(** ** Unused dependencies after a removal *)

Lemma still_needed_spec (dd : dependency_data) (installed : list string)
    (removed dep : string) :
  still_needed dd installed removed dep = true ↔
  ∃ p, p ∈ dependents_of dd dep ∧ p ≠ removed ∧ p ∈ installed.
Proof.
  unfold still_needed, dependents_of. rewrite existsb_exists. split.
  - intros (p & Hp & Hb). apply andb_true_iff in Hb as [H1 H2].
    apply bool_decide_eq_true in H1, H2.
    exists p. by rewrite list_elem_of_In.
  - intros (p & Hp & Hne & Hin). exists p. split; [by apply list_elem_of_In|].
    apply andb_true_iff. by rewrite !bool_decide_eq_true.
Qed.

Lemma unused_loop_spec (dd : dependency_data) (installed : list string)
    (removed : string) (deps acc : list string) (d : string) :
  d ∈ foldl (λ unused_deps dep,
               if bool_decide (dep ∈ installed) then
                 if still_needed dd installed removed dep
                 then unused_deps
                 else unused_deps ++ [dep]
               else unused_deps) acc deps ↔
  d ∈ acc ∨ (d ∈ deps ∧ d ∈ installed ∧
             still_needed dd installed removed d = false).
Proof.
  revert acc. induction deps as [|dep deps IH]; intros acc; simpl.
  - split; [by left|]. intros [?|[Hin _]]; [done|inversion Hin].
  - rewrite IH. clear IH. rewrite elem_of_cons.
    destruct (bool_decide (dep ∈ installed)) eqn:Hi.
    + apply bool_decide_eq_true in Hi.
      destruct (still_needed dd installed removed dep) eqn:Hs.
      * split.
        -- intros [?|(? & ? & ?)]; [by left|]. right. by split_and!; [right|..].
        -- intros [?|([->|?] & ? & ?)]; [by left|congruence|].
           right. by split_and!.
      * rewrite elem_of_app, list_elem_of_singleton. split.
        -- intros [[?| ->]|(? & ? & ?)]; [by left|right|right].
           ++ by split_and!; [left|..].
           ++ by split_and!; [right|..].
        -- intros [?|([->|?] & ? & ?)]; [by left; left|by left; right|].
           right. by split_and!.
    + apply bool_decide_eq_false in Hi. split.
      * intros [?|(? & ? & ?)]; [by left|]. right. by split_and!; [right|..].
      * intros [?|([->|?] & ? & ?)]; [by left|done|]. right. by split_and!.
Qed.


(** C2, as stated, fails: no installed package other than B lists A as a
    dependency, yet A is not reported, because C is still in dependents[A]. *)
Lemma C2_unused_counterexample :
  ¬ ("A" ∈ unused_dependencies graph_stale_dependent ["A"; "C"] "B" ↔
     "A" ∈ dependencies_of graph_stale_dependent "B" ∧
     "A" ∈ ["A"; "C"] ∧
     ∀ p, p ∈ ["A"; "C"] → p ≠ "B" →
          "A" ∉ dependencies_of graph_stale_dependent p).
Proof.
  intros [_ Hbwd].
  assert (Hno : "A" ∉ unused_dependencies graph_stale_dependent ["A"; "C"] "B").
  { vm_compute. intros Hin. inversion Hin. }
  apply Hno, Hbwd. split_and!.
  - vm_compute. left.
  - left.
  - intros p Hp _ Hin.
    apply elem_of_cons in Hp as [->|Hp].
    + vm_compute in Hin. inversion Hin.
    + apply list_elem_of_singleton in Hp as ->.
      vm_compute in Hin. inversion Hin.
Qed.

(** C2 (amended): check_unused_dependencies returns a dependency d of the
    removed package X if and only if d is installed and no installed package
    other than X is listed in dependents[d], the reverse index; only direct
    dependencies of X are considered (one hop). *)
Theorem C2_unused_dependencies_spec (dd : dependency_data)
    (installed : list string) (X d : string) :
  d ∈ unused_dependencies dd installed X ↔
  d ∈ dependencies_of dd X ∧ d ∈ installed ∧
  ∀ p, p ∈ dependents_of dd d → p ∈ installed → p = X.
Proof.
  unfold unused_dependencies. rewrite unused_loop_spec.
  fold (dependencies_of dd X). split.
  - intros [Hin|(Hd & Hi & Hs)]; [inversion Hin|].
    split_and!; [done..|].
    intros p Hp Hpi. destruct (decide (p = X)) as [|Hne]; [done|].
    assert (still_needed dd installed X d = true) as Ht; [|congruence].
    apply still_needed_spec. by exists p.
  - intros (Hd & Hi & Hall). right. split_and!; [done..|].
    apply not_true_is_false. intros Ht.
    apply still_needed_spec in Ht as (p & Hp & Hne & Hpi).
    by apply Hne, Hall.
Qed.

(** ** Termination and shape of the graph rendering *)

Section rendering.
Variable dd : dependency_data.
Variable installed_updates : list string.

Local Abbreviation loop := (λ rec n, print_dependencies_loop rec n dd installed_updates).

Lemma string_app_assoc (a b c : string) : (a +:+ b) +:+ c = a +:+ (b +:+ c).
Proof.
  induction a as [|x a IH]; [done|].
  change (String x ((a +:+ b) +:+ c) = String x (a +:+ b +:+ c)).
  by rewrite IH.
Qed.

(** The loop returns as soon as the recursive calls it makes return. *)
Lemma print_dependencies_loop_total rec n indent visited i deps :
  (∀ dep sub_deps next_indent,
      dep ∉ visited → dep ∈ dom (dd_dependencies dd) →
      is_Some (rec sub_deps next_indent (visited ++ [dep]))) →
  is_Some (loop rec n indent visited i deps).
Proof.
  intros Hrec. revert i. induction deps as [|dep rest IH]; intros i; simpl.
  - by eexists.
  - destruct (IH (S i)) as [out_rest Hrest].
    case_bool_decide as Hvis.
    + rewrite Hrest. by eexists.
    + destruct (dict_get (dd_dependencies dd) dep) as [|s l] eqn:Hsub.
      * rewrite Hrest. by eexists.
      * destruct (Hrec dep (s :: l)
                    (indent +:+ (if bool_decide (i = n - 1)
                                 then "    " else "│   "))) as [out_sub Hs].
        { done. }
        { apply elem_of_dom. unfold dict_get in Hsub.
          destruct (dd_dependencies dd !! dep); [by eexists|done]. }
        rewrite Hs. simpl. rewrite Hrest. by eexists.
Qed.

(** The loop's output does not depend on the recursive call beyond its
    results. *)
Lemma print_dependencies_loop_mono rec1 rec2 n indent visited i deps out :
  (∀ s ind vis o, rec1 s ind vis = Some o → rec2 s ind vis = Some o) →
  loop rec1 n indent visited i deps = Some out →
  loop rec2 n indent visited i deps = Some out.
Proof.
  intros Hrec. revert i out.
  induction deps as [|dep rest IH]; intros i out; simpl; [done|].
  case_bool_decide as Hvis.
  - destruct (print_dependencies_loop rec1 _ _ _ _ _ (S i) rest) as [o|] eqn:Ho;
      [|done].
    by rewrite (IH _ _ Ho).
  - destruct (dict_get (dd_dependencies dd) dep) as [|s l].
    + destruct (print_dependencies_loop rec1 _ _ _ _ _ (S i) rest) as [o|] eqn:Ho;
        [|done].
      by rewrite (IH _ _ Ho).
    + destruct (rec1 (s :: l) _ _) as [os|] eqn:Hos; [|done]. simpl.
      rewrite (Hrec _ _ _ _ Hos). simpl.
      destruct (print_dependencies_loop rec1 _ _ _ _ _ (S i) rest) as [o|] eqn:Ho;
        [|done].
      by rewrite (IH _ _ Ho).
Qed.

(** The loop's output is the concatenation of one block per item. *)
Lemma print_dependencies_loop_blocks rec n indent visited i deps out :
  loop rec n indent visited i deps = Some out →
  ∃ blocks, out = concat blocks ∧
    Forall2 (λ '(j, dep) block, item_block dd installed_updates rec indent visited n j dep block)
            (zip (seq i (length deps)) deps) blocks.
Proof.
  revert i out. induction deps as [|dep rest IH]; intros i out; simpl.
  - intros [= <-]. exists []. split; [done|constructor].
  - case_bool_decide as Hvis.
    + destruct (print_dependencies_loop rec _ _ _ _ _ (S i) rest) as [o|] eqn:Ho;
        [|done].
      intros [= <-]. destruct (IH _ _ Ho) as (blocks & -> & Hall).
      exists ([item_line installed_updates indent n i dep +:+ " (circular dependency)"] :: blocks).
      split.
      { simpl. f_equal. unfold item_line. by rewrite !string_app_assoc. }
      constructor; [|done].
      unfold item_block. by rewrite bool_decide_eq_true_2.
    + destruct (dict_get (dd_dependencies dd) dep) as [|s l] eqn:Hsub.
      * destruct (print_dependencies_loop rec _ _ _ _ _ (S i) rest) as [o|] eqn:Ho;
          [|done].
        intros [= <-]. destruct (IH _ _ Ho) as (blocks & -> & Hall).
        exists ([item_line installed_updates indent n i dep] :: blocks).
        split; [done|constructor; [|done]].
        unfold item_block. rewrite bool_decide_eq_false_2 by done.
        exists []. by rewrite Hsub.
      * destruct (rec (s :: l) _ _) as [os|] eqn:Hos; [|done]. simpl.
        destruct (print_dependencies_loop rec _ _ _ _ _ (S i) rest) as [o|] eqn:Ho;
          [|done].
        intros [= <-]. destruct (IH _ _ Ho) as (blocks & -> & Hall).
        exists ((item_line installed_updates indent n i dep :: os) :: blocks).
        split; [done|constructor; [|done]].
        unfold item_block. rewrite bool_decide_eq_false_2 by done.
        exists os. by rewrite Hsub.
Qed.

Lemma print_dependencies_fuel_mono (fuel fuel' : nat) deps indent visited out :
  (fuel ≤ fuel')%nat →
  print_dependencies fuel deps dd installed_updates indent visited = Some out →
  print_dependencies fuel' deps dd installed_updates indent visited = Some out.
Proof.
  revert fuel' deps indent visited out.
  induction fuel as [|fuel IH]; intros fuel' deps indent visited out Hle;
    [done|].
  destruct fuel' as [|fuel']; [lia|]. simpl.
  apply print_dependencies_loop_mono.
  intros s ind vis o. apply IH. lia.
Qed.

(** Descending into a recorded package that is not on the path leaves
    strictly fewer packages to descend into. *)
Lemma unvisited_descend visited dep :
  dep ∉ visited → dep ∈ dom (dd_dependencies dd) →
  unvisited dd (visited ++ [dep]) < unvisited dd visited.
Proof.
  intros Hvis Hdom. unfold unvisited.
  apply subset_size. apply strict_spec_alt. split.
  - intros x. rewrite !elem_of_difference, !elem_of_list_to_set, elem_of_app.
    intros [? Hx]. split; [done|]. intros ?. apply Hx. by left.
  - intros Heq.
    assert (Hin : dep ∈ dom (dd_dependencies dd) ∖ list_to_set (C := gset string) visited).
    { apply elem_of_difference. by rewrite elem_of_list_to_set. }
    rewrite <- Heq in Hin.
    apply elem_of_difference in Hin as [_ Hn]. apply Hn.
    rewrite elem_of_list_to_set, elem_of_app. right. left.
Qed.

Lemma print_dependencies_total fuel deps indent visited :
  unvisited dd visited < fuel →
  is_Some (print_dependencies fuel deps dd installed_updates indent visited).
Proof.
  revert deps indent visited.
  induction fuel as [|fuel IH]; intros deps indent visited Hlt; [lia|].
  simpl. apply print_dependencies_loop_total.
  intros dep sub_deps next_indent Hvis Hdom. apply IH.
  pose proof (unvisited_descend visited dep Hvis Hdom). lia.
Qed.
End rendering.

(** C5: on every dependency graph, cyclic or not, print_dependencies returns:
    a recursion depth of one more than the number of recorded packages off
    the current path is enough, and more depth does not change the output.
    The output is one block of lines per dependency; the block of a
    dependency that is on the ancestor path is the single line annotated
    "(circular dependency)" (it is not expanded), and the block of any other
    dependency is its line followed by the rendering of its own
    dependencies with that dependency added to the path. *)
Theorem C5_print_dependencies_terminates (dd : dependency_data)
    (installed_updates dependencies : list string) (indent : string)
    (visited : list string) :
  ∃ out blocks,
    (∀ fuel, unvisited dd visited < fuel →
       print_dependencies fuel dependencies dd installed_updates indent visited
       = Some out) ∧
    out = concat blocks ∧
    Forall2
      (λ '(i, dep) block,
         item_block dd installed_updates
           (λ sub_deps next_indent visited',
              print_dependencies (unvisited dd visited) sub_deps dd
                                 installed_updates next_indent visited')
           indent visited (length dependencies) i dep block)
      (zip (seq 0 (length dependencies)) dependencies) blocks.
Proof.
  destruct (print_dependencies_total dd installed_updates
              (S (unvisited dd visited)) dependencies indent visited)
    as [out Hout]; [lia|].
  pose proof Hout as Hloop. simpl in Hloop.
  apply print_dependencies_loop_blocks in Hloop as (blocks & -> & Hall).
  exists (concat blocks), blocks. split_and!; [|done..].
  intros fuel Hlt. eapply print_dependencies_fuel_mono; [|exact Hout]. lia.
Qed.

Example print_dependencies_cycle :
  print_dependencies 2 ["B"] graph_cycle ["A"] "  " ["A"] =
  Some ["  └── B [MISSING]";
        "      ├── A [INSTALLED] (circular dependency)";
        "      └── C [MISSING]"].
Proof. vm_compute. reflexivity. Qed.

(** ** Fail-fast of the delta engine *)

(** C8: when the archive path does not exist, the target directory does not
    exist, or the archive is not a valid zip container, apply_update_zip and
    analyze_update_zip both return two empty lists and a failed list of
    exactly one entry (path, reason), the path being the archive's or the
    target directory's, and leave the file system as it was. *)
Theorem C8_fail_fast (update_zip_path primary_folder : path) (fs : file_system) :
  path_exists fs update_zip_path = false ∨
  path_exists fs primary_folder = false ∨
  (∀ entries, fs !! update_zip_path ≠ Some (File (Zip entries))) →
  (∃ p reason,
     (p = update_zip_path ∨ p = primary_folder) ∧
     apply_update_zip update_zip_path primary_folder fs =
     (([], [], [(p, reason)]), fs)) ∧
  (∃ p reason,
     (p = update_zip_path ∨ p = primary_folder) ∧
     analyze_update_zip update_zip_path primary_folder fs =
     (([], [], [(p, reason)]), fs)).
Proof.
  intros Hcase. unfold apply_update_zip, analyze_update_zip.
  destruct (path_exists fs update_zip_path) eqn:Hz; simpl;
    [|split; eexists _, _; (split; [by left|done])].
  destruct (path_exists fs primary_folder) eqn:Hp; simpl;
    [|split; eexists _, _; (split; [by right|done])].
  destruct Hcase as [?|[?|Hbad]]; [done..|].
  unfold read_zip, path_exists in *.
  destruct (fs !! update_zip_path) as [[|[bytes|entries|dd]]|] eqn:Hl;
    try done; try (split; eexists _, _; (split; [by left|done])).
  by destruct (Hbad entries).
Qed.

Lemma C8_fail_fast_witness :
  (∃ p reason,
     (p = ["u"; "mod.zip"] ∨ p = ["game"]) ∧
     apply_update_zip ["u"; "mod.zip"] ["game"]
       (<[ ["u"; "mod.zip"] := File (Raw "not a zip") ]>
          (<[ ["game"] := Dir ]> ∅)) =
     (([], [], [(p, reason)]),
      <[ ["u"; "mod.zip"] := File (Raw "not a zip") ]>
        (<[ ["game"] := Dir ]> ∅))) ∧
  (∃ p reason,
     (p = ["u"; "mod.zip"] ∨ p = ["game"]) ∧
     analyze_update_zip ["u"; "mod.zip"] ["game"]
       (<[ ["u"; "mod.zip"] := File (Raw "not a zip") ]>
          (<[ ["game"] := Dir ]> ∅)) =
     (([], [], [(p, reason)]),
      <[ ["u"; "mod.zip"] := File (Raw "not a zip") ]>
        (<[ ["game"] := Dir ]> ∅))).
Proof.
  apply (C8_fail_fast ["u"; "mod.zip"] ["game"]).
  right. right. intros entries. rewrite lookup_insert_eq. discriminate.
Defined.

(** ** Effects of the file-system primitives *)

Section primitives.
Implicit Types (fs : file_system) (p k : path).

Lemma only_adds_dirs_refl p fs : only_adds_dirs p fs fs.
Proof. intros k. by left. Qed.

Lemma only_adds_dirs_trans p fs1 fs2 fs3 :
  only_adds_dirs p fs1 fs2 → only_adds_dirs p fs2 fs3 →
  only_adds_dirs p fs1 fs3.
Proof.
  intros H12 H23 k. destruct (H23 k) as [E23|(N2 & D3 & Hp)].
  - rewrite E23. apply H12.
  - right. destruct (H12 k) as [E12|(N1 & D2 & _)]; [|congruence].
    rewrite <- E12. done.
Qed.

Lemma only_adds_dirs_weaken p q fs fs' :
  p `prefix_of` q → only_adds_dirs p fs fs' → only_adds_dirs q fs fs'.
Proof.
  intros Hpq H k. destruct (H k) as [?|(? & ? & ?)]; [by left|right].
  split_and!; [done..|]. by etrans.
Qed.

Lemma mkdir_effect p fs r fs' :
  mkdir p fs = (r, fs') →
  fs' = fs ∨
  (r = inr tt ∧ fs !! p = None ∧ fs !! dirname p = Some Dir ∧
   fs' = <[p := Dir]> fs).
Proof.
  unfold mkdir. destruct (fs !! p) eqn:Hp; [intros [= <- <-]; by left|].
  destruct (fs !! dirname p) as [[|c]|] eqn:Hd; intros [= <- <-];
    [by right|by left..].
Qed.

Lemma mkdir_adds p fs r fs' :
  mkdir p fs = (r, fs') → only_adds_dirs p fs fs'.
Proof.
  intros [->|(_ & Hn & _ & ->)]%mkdir_effect; [apply only_adds_dirs_refl|].
  intros k. destruct (decide (k = p)) as [->|Hne].
  - right. by rewrite lookup_insert_eq.
  - left. by rewrite lookup_insert_ne.
Qed.

Lemma makedirs_rev_adds exist_ok rname fs r fs' :
  makedirs_rev exist_ok rname fs = (r, fs') →
  only_adds_dirs (rev rname) fs fs'.
Proof.
  revert fs r fs'. induction rname as [|c rhead IH]; intros fs r fs'.
  - simpl. destruct (mkdir [] fs) as [[e|[]] fs2] eqn:Hm.
    + apply mkdir_adds in Hm.
      by destruct (negb exist_ok || negb (isdir fs2 [])); intros [= <- <-].
    + apply mkdir_adds in Hm. by intros [= <- <-].
  - cbn [makedirs_rev].
    assert (∃ r1 fs1,
      (if path_exists fs (rev rhead) then (inr tt, fs)
       else match makedirs_rev exist_ok rhead fs with
            | (inl FileExistsError, fs'0) => (inr tt, fs'0)
            | res => res
            end) = (r1, fs1) ∧ only_adds_dirs (rev (c :: rhead)) fs fs1)
      as (r1 & fs1 & -> & H1).
    { destruct (path_exists fs (rev rhead)).
      - eexists _, _. split; [done|]. apply only_adds_dirs_refl.
      - destruct (makedirs_rev exist_ok rhead fs) as [r0 fs0] eqn:Hrec.
        apply IH in Hrec.
        assert (only_adds_dirs (rev (c :: rhead)) fs fs0) as Hw.
        { eapply only_adds_dirs_weaken; [|done]. simpl. by apply prefix_app_r. }
        destruct r0 as [[]|[]]; eexists _, _; (split; [done|done]). }
    destruct r1 as [e|[]]; [by intros [= <- <-]|].
    destruct (mkdir (rev (c :: rhead)) fs1) as [[e|[]] fs2] eqn:Hm.
    + apply mkdir_adds in Hm.
      destruct (negb exist_ok || negb (isdir fs2 (rev (c :: rhead))));
        intros [= <- <-]; by eapply only_adds_dirs_trans.
    + apply mkdir_adds in Hm. intros [= <- <-].
      by eapply only_adds_dirs_trans.
Qed.

Lemma makedirs_adds exist_ok p fs r fs' :
  makedirs exist_ok p fs = (r, fs') → only_adds_dirs p fs fs'.
Proof.
  unfold makedirs. intros H%makedirs_rev_adds. by rewrite rev_involutive in H.
Qed.

Lemma write_file_effect p c fs r fs' :
  write_file p c fs = (r, fs') →
  (fs' = fs ∧ r ≠ inr tt) ∨
  (r = inr tt ∧ fs !! p ≠ Some Dir ∧ fs !! dirname p = Some Dir ∧
   fs' = <[p := File c]> fs).
Proof.
  unfold write_file. intros H.
  assert (fs !! p ≠ Some Dir →
          match fs !! dirname p with
          | Some Dir => (inr (), <[p:=File c]> fs)
          | Some (File _) => (inl NotADirectoryError, fs)
          | None => (inl FileNotFoundError, fs)
          end = (r, fs') →
          (fs' = fs ∧ r ≠ inr tt) ∨
          (r = inr tt ∧ fs !! p ≠ Some Dir ∧ fs !! dirname p = Some Dir ∧
           fs' = <[p := File c]> fs)) as Haux.
  { intros Hnd. destruct (fs !! dirname p) as [[|c']|] eqn:Hd;
      intros [= <- <-]; [by right|by left..]. }
  destruct (fs !! p) as [[|c0]|] eqn:Hp.
  - injection H as <- <-. by left.
  - by apply Haux.
  - by apply Haux.
Qed.

Lemma copy2_effect src_name c dst fs r fs' :
  copy2 src_name c dst fs = (r, fs') →
  (fs' = fs ∧ r ≠ inr tt) ∨
  ∃ p, r = inr tt ∧ fs !! p ≠ Some Dir ∧ fs !! dirname p = Some Dir ∧
       fs' = <[p := File c]> fs ∧
       p = (if isdir fs dst then dst ++ [src_name] else dst).
Proof.
  unfold copy2. destruct (isdir fs dst);
    intros [[-> ?]|(-> & ? & ? & ->)]%write_file_effect; eauto 10.
Qed.

Lemma remove_effect p fs r fs' :
  remove p fs = (r, fs') →
  fs' = fs ∧ (r ≠ inr tt) ∧ (∀ c, fs !! p ≠ Some (File c)) ∨
  (r = inr tt ∧ (∃ c, fs !! p = Some (File c)) ∧ fs' = delete p fs).
Proof.
  unfold remove. destruct (fs !! p) as [[|c]|] eqn:Hp; intros [= <- <-].
  - left. by split_and!.
  - right. eauto.
  - left. by split_and!.
Qed.

Lemma rmdir_effect p fs r fs' :
  rmdir p fs = (r, fs') →
  fs' = fs ∨ (r = inr tt ∧ fs !! p = Some Dir ∧ fs' = delete p fs).
Proof.
  unfold rmdir. destruct (fs !! p) as [[|c]|] eqn:Hp;
    [|intros [= <- <-]; by left..].
  destruct (children fs p); intros [= <- <-]; [by right|by left].
Qed.

Lemma listdir_state d fs r fs' : listdir d fs = (r, fs') → fs' = fs.
Proof.
  unfold listdir. by destruct (fs !! d) as [[|c]|]; intros [= <- <-].
Qed.

(** Pruning deletes directories only. *)
Lemma prune_empty_dirs_effect primary rdir fs r fs' :
  prune_empty_dirs primary rdir fs = (r, fs') →
  ∀ k, fs' !! k = fs !! k ∨ (fs !! k = Some Dir ∧ fs' !! k = None).
Proof.
  revert fs r fs'. induction rdir as [|c rdir IH]; intros fs r fs'.
  - simpl. destruct (bool_decide ([] ≠ primary) && path_exists fs []);
      [|intros [= <- <-] k; by left].
    destruct (listdir [] fs) as [[e|[|x l]] fs1] eqn:Hl;
      apply listdir_state in Hl as ->; [intros [= <- <-] k; by left| |
                                        intros [= <- <-] k; by left].
    destruct (rmdir [] fs) as [[e|[]] fs2] eqn:Hr;
      apply rmdir_effect in Hr as [->|(_ & Hd & ->)];
      intros [= <- <-] k; try (by left).
    + destruct (decide (k = [])) as [->|Hne];
        [right; by rewrite lookup_delete_eq|left; by rewrite lookup_delete_ne].
    + destruct (decide (k = [])) as [->|Hne];
        [right; by rewrite lookup_delete_eq|left; by rewrite lookup_delete_ne].
  - cbn [prune_empty_dirs].
    destruct (bool_decide (rev (c :: rdir) ≠ primary) &&
              path_exists fs (rev (c :: rdir)));
      [|intros [= <- <-] k; by left].
    destruct (listdir (rev (c :: rdir)) fs) as [[e|[|x l]] fs1] eqn:Hl;
      apply listdir_state in Hl as ->; [intros [= <- <-] k; by left| |
                                        intros [= <- <-] k; by left].
    destruct (rmdir (rev (c :: rdir)) fs) as [[e|[]] fs2] eqn:Hr;
      apply rmdir_effect in Hr as [->|(_ & Hd & ->)].
    + intros [= <- <-] k; by left.
    + intros [= <- <-] k.
      destruct (decide (k = rev (c :: rdir))) as [->|Hne];
        [right; by rewrite lookup_delete_eq|left; by rewrite lookup_delete_ne].
    + intros H k. apply IH with (k := k) in H. done.
    + intros H k. apply IH with (k := k) in H.
      destruct (decide (k = rev (c :: rdir))) as [->|Hne].
      * right. rewrite lookup_delete_eq in H. split; [done|].
        destruct H as [->|[? _]]; done.
      * by rewrite lookup_delete_ne in H.
Qed.
End primitives.

(** ** The reversal only deletes *)

Section reversal.
Implicit Types (fs : file_system) (k : path) (l : list zip_entry).

Lemma only_deletes_refl primary l fs : only_deletes primary l fs fs.
Proof. intros k. by left. Qed.

Lemma only_deletes_trans primary l fs1 fs2 fs3 :
  only_deletes primary l fs1 fs2 → only_deletes primary l fs2 fs3 →
  only_deletes primary l fs1 fs3.
Proof.
  intros H12 H23 k.
  destruct (H23 k) as [E23|[N3 H3]]; [rewrite E23; apply H12|].
  destruct (H12 k) as [E12|[N2 H2]].
  - right. split; [done|]. by rewrite <- E12.
  - right. split; [done|]. destruct H3 as [?|?]; [congruence|done].
Qed.

Lemma only_deletes_cons primary e l fs fs' :
  only_deletes primary l fs fs' → only_deletes primary (e :: l) fs fs'.
Proof.
  intros H k. destruct (H k) as [?|[? [?|(e' & ? & ? & ?)]]]; [by left|..].
  - right. split; [done|]. by left.
  - right. split; [done|]. right. exists e'. split_and!; [by right|done..].
Qed.

Lemma only_deletes_subseteq primary l fs fs' :
  only_deletes primary l fs fs' → fs' ⊆ fs.
Proof.
  intros H. apply map_subseteq_spec. intros k n Hk.
  destruct (H k) as [E|[N _]]; congruence.
Qed.

(** Removing the target of a file member, then pruning above it. *)
Lemma remove_prune_deletes primary e l fs r1 fs1 r2 fs2 :
  ze_is_dir e = false →
  remove (primary ++ ze_name e) fs = (r1, fs1) →
  prune_empty_dirs primary (rev (dirname (primary ++ ze_name e))) fs1
    = (r2, fs2) →
  only_deletes primary (e :: l) fs fs2.
Proof.
  intros Hfile Hrm Hpr k.
  pose proof (prune_empty_dirs_effect _ _ _ _ _ Hpr k) as Hk2.
  apply remove_effect in Hrm as [(-> & _)|(_ & _ & ->)].
  - destruct Hk2 as [?|[? ?]]; [by left|right]. split; [done|by left].
  - destruct (decide (k = primary ++ ze_name e)) as [->|Hne].
    + right. rewrite lookup_delete_eq in Hk2. split.
      * destruct Hk2 as [?|[? ?]]; done.
      * right. exists e. split_and!; [left|done..].
    + rewrite lookup_delete_ne in Hk2 by done.
      destruct Hk2 as [?|[? ?]]; [by left|right]. split; [done|by left].
Qed.

Lemma analyze_entries_deletes primary l removed not_found failed fs res fs' :
  analyze_entries primary l removed not_found failed fs = (res, fs') →
  only_deletes primary l fs fs'.
Proof.
  revert removed not_found failed fs.
  induction l as [|e l IH]; intros removed not_found failed fs; simpl.
  - intros [= <- <-]. apply only_deletes_refl.
  - destruct (ze_is_dir e) eqn:Hdir.
    { intros H%IH. by apply only_deletes_cons. }
    destruct (path_exists fs (primary ++ ze_name e)).
    2:{ intros H%IH. by apply only_deletes_cons. }
    destruct (remove (primary ++ ze_name e) fs) as [[ex|[]] fs1] eqn:Hrm.
    + intros H%IH. apply only_deletes_cons.
      apply remove_effect in Hrm as [(-> & _)|(? & _)]; done.
    + destruct (prune_empty_dirs primary
                  (rev (dirname (primary ++ ze_name e))) fs1)
        as [[ex|[]] fs2] eqn:Hpr; intros H%IH;
        (eapply only_deletes_trans;
         [by eapply remove_prune_deletes|by apply only_deletes_cons]).
Qed.

(** After the loop, the target of every file member is gone unless it was
    a directory. *)
Lemma analyze_entries_removes primary l removed not_found failed fs res fs' e :
  analyze_entries primary l removed not_found failed fs = (res, fs') →
  e ∈ l → ze_is_dir e = false →
  fs !! (primary ++ ze_name e) ≠ Some Dir →
  fs' !! (primary ++ ze_name e) = None.
Proof.
  revert removed not_found failed fs.
  induction l as [|h l IH]; intros removed not_found failed fs Hrun Hin Hfile Hnd.
  { inversion Hin. }
  assert (Hkeep : ∀ fs1 a b c,
    only_deletes primary (h :: l) fs fs1 →
    analyze_entries primary l a b c fs1 = (res, fs') →
    fs1 !! (primary ++ ze_name e) = None ∨ e ∈ l →
    fs' !! (primary ++ ze_name e) = None).
  { intros fs1 a b c Hdel Hrest [Hnone|Hin'].
    - apply analyze_entries_deletes in Hrest.
      destruct (Hrest (primary ++ ze_name e)) as [E|[? _]]; congruence.
    - eapply IH; [done..|].
      destruct (Hdel (primary ++ ze_name e)) as [E|[N _]]; congruence. }
  simpl in Hrun. apply elem_of_cons in Hin as [->|Hin].
  - rewrite Hfile in Hrun. unfold path_exists in Hrun.
    destruct (fs !! (primary ++ ze_name h)) as [[|c]|] eqn:Hl; [done|..].
    + unfold remove in Hrun. rewrite Hl in Hrun.
      destruct (prune_empty_dirs primary
                  (rev (dirname (primary ++ ze_name h)))
                  (delete (primary ++ ze_name h) fs))
        as [[ex|[]] fs2] eqn:Hpr.
      * eapply (Hkeep fs2); [|done|left].
        -- eapply remove_prune_deletes; [done| |done].
           unfold remove. by rewrite Hl.
        -- destruct (prune_empty_dirs_effect _ _ _ _ _ Hpr
                       (primary ++ ze_name h)) as [E|[_ ?]]; [|done].
           by rewrite E, lookup_delete_eq.
      * eapply (Hkeep fs2); [|done|left].
        -- eapply remove_prune_deletes; [done| |done].
           unfold remove. by rewrite Hl.
        -- destruct (prune_empty_dirs_effect _ _ _ _ _ Hpr
                       (primary ++ ze_name h)) as [E|[_ ?]]; [|done].
           by rewrite E, lookup_delete_eq.
    + eapply (Hkeep fs); [apply only_deletes_refl|done|by left].
  - destruct (ze_is_dir h) eqn:Hdir.
    { eapply (Hkeep fs); [apply only_deletes_refl|done|by right]. }
    destruct (path_exists fs (primary ++ ze_name h)).
    2:{ eapply (Hkeep fs); [apply only_deletes_refl|done|by right]. }
    destruct (remove (primary ++ ze_name h) fs) as [[ex|[]] fs1] eqn:Hrm.
    + eapply (Hkeep fs1); [|done|by right].
      apply remove_effect in Hrm as [(-> & _)|(? & _)]; [|done].
      apply only_deletes_refl.
    + destruct (prune_empty_dirs primary
                  (rev (dirname (primary ++ ze_name h))) fs1)
        as [[ex|[]] fs2] eqn:Hpr;
        (eapply (Hkeep fs2); [by eapply remove_prune_deletes|done|by right]).
Qed.

Lemma analyze_update_zip_deletes zip primary fs :
  ∃ l, only_deletes primary l fs (analyze_update_zip zip primary fs).2 ∧
       ∀ entries, fs !! zip = Some (File (Zip entries)) →
                  path_exists fs primary = true → l = entries.
Proof.
  unfold analyze_update_zip.
  destruct (path_exists fs zip) eqn:Hz; simpl.
  2:{ exists []. split; [apply only_deletes_refl|].
      intros entries Hl. unfold path_exists in Hz. by rewrite Hl in Hz. }
  destruct (path_exists fs primary) eqn:Hp; simpl.
  2:{ exists []. split; [apply only_deletes_refl|done]. }
  unfold read_zip.
  destruct (fs !! zip) as [[|[bytes|entries|dd]]|] eqn:Hl;
    try (exists []; split; [apply only_deletes_refl|done]).
  exists entries. split; [|by intros ? [= ->]].
  destruct (analyze_entries primary entries [] [] [] fs) as [res fs'] eqn:Hrun.
  by apply analyze_entries_deletes in Hrun.
Qed.
End reversal.

(** ** Extraction into the temporary directory *)

Section extraction.
Implicit Types (fs tmp : file_system) (k p : path).

Lemma well_formed_prefix fs k k' n :
  well_formed fs → fs !! k = Some n → k' `prefix_of` k → k' ≠ k →
  fs !! k' = Some Dir.
Proof.
  intros Hwf. revert n. induction k as [|x k IH] using rev_ind; intros n Hk Hpre Hne.
  - apply prefix_nil_inv in Hpre. done.
  - pose proof (Hwf _ _ Hk) as Hd. unfold dirname in Hd.
    rewrite removelast_last in Hd.
    destruct Hpre as [s Hs].
    destruct s as [|y s _] using rev_ind.
    { rewrite app_nil_r in Hs. done. }
    rewrite app_assoc in Hs. apply app_inj_tail in Hs as [-> _].
    destruct (decide (k' = k' ++ s)) as [E|Hne']; [by rewrite E|].
    eapply IH; [done|by apply prefix_app_r|done].
Qed.

Lemma well_formed_insert_dir fs p :
  well_formed fs → fs !! dirname p = Some Dir →
  well_formed (<[p := Dir]> fs).
Proof.
  intros Hwf Hd k n Hk.
  destruct (decide (dirname k = p)) as [->|Hne]; [by rewrite lookup_insert_eq|].
  rewrite lookup_insert_ne by done.
  destruct (decide (k = p)) as [->|Hne']; [done|].
  rewrite lookup_insert_ne in Hk by done. by eapply Hwf.
Qed.

Lemma well_formed_insert_file fs p c :
  well_formed fs → fs !! dirname p = Some Dir → fs !! p ≠ Some Dir →
  well_formed (<[p := File c]> fs).
Proof.
  intros Hwf Hd Hnd k n Hk.
  destruct (decide (k = p)) as [->|Hne'].
  - destruct (decide (dirname p = p)) as [E|Hne]; [congruence|].
    by rewrite lookup_insert_ne.
  - rewrite lookup_insert_ne in Hk by done.
    destruct (decide (dirname k = p)) as [E|Hne].
    + apply Hwf in Hk. congruence.
    + rewrite lookup_insert_ne by done. by eapply Hwf.
Qed.

Lemma keeps_kinds_refl fs : keeps_kinds fs fs.
Proof. intros k. split; eauto. Qed.

Lemma keeps_kinds_trans fs1 fs2 fs3 :
  keeps_kinds fs1 fs2 → keeps_kinds fs2 fs3 → keeps_kinds fs1 fs3.
Proof.
  intros H12 H23 k. split.
  - intros H. by apply H23, H12.
  - intros c H. apply H12 in H as [c' H]. by apply H23 in H.
Qed.

Lemma only_adds_dirs_keeps_kinds p fs fs' :
  only_adds_dirs p fs fs' → keeps_kinds fs fs'.
Proof.
  intros H k. destruct (H k) as [E|(N & _)]; rewrite ?E.
  - split; eauto.
  - split; [congruence|]. intros c; congruence.
Qed.

(** Any property that [os.mkdir] preserves is preserved by
    [os.makedirs]. *)
Lemma makedirs_rev_preserves (P : file_system → Prop) exist_ok rname fs r fs' :
  (∀ p fs r fs', mkdir p fs = (r, fs') → P fs → P fs') →
  makedirs_rev exist_ok rname fs = (r, fs') → P fs → P fs'.
Proof.
  intros Hmk. revert fs r fs'.
  induction rname as [|c rhead IH]; intros fs r fs'.
  - simpl. destruct (mkdir [] fs) as [[e|[]] fs2] eqn:Hm.
    + destruct (negb exist_ok || negb (isdir fs2 []));
        intros [= <- <-]; by eapply Hmk.
    + intros [= <- <-]. by eapply Hmk.
  - cbn [makedirs_rev]. intros Hrun HP.
    assert (∃ r1 fs1,
      (if path_exists fs (rev rhead) then (inr tt, fs)
       else match makedirs_rev exist_ok rhead fs with
            | (inl FileExistsError, fs'0) => (inr tt, fs'0)
            | res => res
            end) = (r1, fs1) ∧ P fs1) as (r1 & fs1 & E & H1).
    { destruct (path_exists fs (rev rhead)); [by eauto|].
      destruct (makedirs_rev exist_ok rhead fs) as [r0 fs0] eqn:Hrec.
      apply IH in Hrec; [|done].
      destruct r0 as [[]|[]]; eauto. }
    rewrite E in Hrun. destruct r1 as [e|[]]; [by injection Hrun as <- <-|].
    destruct (mkdir (rev (c :: rhead)) fs1) as [[e|[]] fs2] eqn:Hm.
    + destruct (negb exist_ok || negb (isdir fs2 (rev (c :: rhead))));
        injection Hrun as <- <-; by eapply Hmk.
    + injection Hrun as <- <-. by eapply Hmk.
Qed.

Lemma mkdir_well_formed p fs r fs' :
  mkdir p fs = (r, fs') → well_formed fs → well_formed fs'.
Proof.
  intros [->|(_ & _ & Hd & ->)]%mkdir_effect Hwf; [done|].
  by apply well_formed_insert_dir.
Qed.

Lemma write_file_well_formed p c fs r fs' :
  write_file p c fs = (r, fs') → well_formed fs → well_formed fs'.
Proof.
  intros [[-> _]|(_ & Hnd & Hd & ->)]%write_file_effect Hwf; [done|].
  by apply well_formed_insert_file.
Qed.

Lemma write_file_keeps_kinds p c fs r fs' :
  write_file p c fs = (r, fs') → keeps_kinds fs fs'.
Proof.
  intros [[-> _]|(_ & Hnd & Hd & ->)]%write_file_effect;
    [apply keeps_kinds_refl|].
  intros k. destruct (decide (k = p)) as [->|Hne].
  - rewrite lookup_insert_eq. split; [done|eauto].
  - rewrite lookup_insert_ne by done. split; eauto.
Qed.

(** One member: the tree stays well formed, nodes keep their kind, and a
    file member is a regular file afterwards. *)
Lemma extract_member_spec e tmp r tmp' :
  extract_member e tmp = (r, tmp') →
  (well_formed tmp → well_formed tmp') ∧
  keeps_kinds tmp tmp' ∧
  (r = inr tt → ze_is_dir e = false →
   ∃ c, tmp' !! sanitize (ze_name e) = Some (File c)).
Proof.
  unfold extract_member, mbind, comp_mbind, comp_bind.
  set (targetpath := sanitize (ze_name e)).
  destruct (if path_exists tmp (dirname targetpath) then (inr tt, tmp)
            else makedirs false (dirname targetpath) tmp)
    as [r1 tmp1] eqn:Hup.
  assert ((well_formed tmp → well_formed tmp1) ∧ keeps_kinds tmp tmp1)
    as [Hwf1 Hk1].
  { destruct (path_exists tmp (dirname targetpath)).
    - injection Hup as <- <-. split; [done|apply keeps_kinds_refl].
    - split.
      + eapply (makedirs_rev_preserves well_formed); [|exact Hup].
        apply mkdir_well_formed.
      + eapply only_adds_dirs_keeps_kinds. by eapply makedirs_adds. }
  destruct r1 as [ex|[]].
  { intros [= <- <-]. split_and!; done. }
  destruct (ze_is_dir e) eqn:Hdir.
  - destruct (isdir tmp1 targetpath).
    + intros [= <- <-]. split_and!; done.
    + intros Hm. split_and!; [|
        |done].
      * intros Hwf. eapply mkdir_well_formed; eauto.
      * eapply keeps_kinds_trans; [done|].
        eapply only_adds_dirs_keeps_kinds. by eapply mkdir_adds.
  - intros Hw. split_and!.
    + intros Hwf. eapply write_file_well_formed; eauto.
    + eapply keeps_kinds_trans; [done|]. by eapply write_file_keeps_kinds.
    + intros -> _.
      apply write_file_effect in Hw as [[_ ?]|(_ & _ & _ & ->)]; [done|].
      exists (ze_data e). by rewrite lookup_insert_eq.
Qed.
End extraction.

Section application.
Implicit Types (fs tmp : file_system) (k p : path).

Lemma extract_members_spec entries tmp0 tmp :
  for_each entries extract_member tmp0 = (inr tt, tmp) →
  (well_formed tmp0 → well_formed tmp) ∧
  keeps_kinds tmp0 tmp ∧
  (∀ e, e ∈ entries → ze_is_dir e = false →
        ∃ c, tmp !! sanitize (ze_name e) = Some (File c)).
Proof.
  revert tmp0. induction entries as [|h entries IH]; intros tmp0; simpl.
  - intros [= <-]. split_and!; [done|apply keeps_kinds_refl|].
    intros e He. inversion He.
  - unfold mbind, comp_mbind, comp_bind.
    destruct (extract_member h tmp0) as [[ex|[]] tmp1] eqn:Hh; [done|].
    intros Hrest. apply IH in Hrest as (Hwf & Hkk & Hfiles).
    apply extract_member_spec in Hh as (Hwf1 & Hkk1 & Hfile1).
    split_and!.
    + auto.
    + by eapply keeps_kinds_trans.
    + intros e [->|He]%elem_of_cons Hfile; [|by apply Hfiles].
      destruct (Hfile1 eq_refl Hfile) as [c Hc].
      by apply Hkk in Hc.
Qed.

Lemma extractall_spec entries tmp :
  extractall entries = inr tmp →
  well_formed tmp ∧ tmp !! [] = Some Dir ∧
  (∀ e, e ∈ entries → ze_is_dir e = false →
        ∃ c, tmp !! sanitize (ze_name e) = Some (File c)).
Proof.
  unfold extractall.
  destruct (for_each entries extract_member {[ [] := Dir ]})
    as [[ex|[]] tmp'] eqn:Hrun; [done|].
  intros [= <-]. apply extract_members_spec in Hrun as (Hwf & Hkk & Hfiles).
  split_and!; [|by apply Hkk, lookup_singleton_eq|done].
  apply Hwf. intros k n Hk.
  apply lookup_singleton_Some in Hk as [<- <-]. by rewrite lookup_singleton_eq.
Qed.

Lemma elem_of_walk_files tmp rel c :
  (rel, c) ∈ walk_files tmp ↔ tmp !! rel = Some (File c).
Proof.
  unfold walk_files. rewrite list_elem_of_omap. split.
  - intros ([k n] & Hin & Hsome). apply elem_of_map_to_list in Hin.
    simpl in Hsome. destruct n as [|c']; [done|]. by injection Hsome as -> ->.
  - intros Hl. exists (rel, File c). split; [by apply elem_of_map_to_list|done].
Qed.

(** The application creates directories only above the targets of the
    extracted files. *)
Lemma apply_files_dirs zip primary files copied overwritten failed fs res fs' k :
  apply_files zip primary files copied overwritten failed fs = (res, fs') →
  fs' !! k = Some Dir →
  fs !! k = Some Dir ∨
  ∃ rel c, (rel, c) ∈ files ∧ k `prefix_of` dirname (primary ++ rel).
Proof.
  revert copied overwritten failed fs.
  induction files as [|[rel c] files IH];
    intros copied overwritten failed fs; simpl.
  { intros [= <- <-]. by left. }
  destruct (makedirs true (dirname (primary ++ rel)) fs)
    as [[ex|[]] fs1] eqn:Hmk; apply makedirs_adds in Hmk.
  - intros [= <- <-] Hk. destruct (Hmk k) as [E|(_ & _ & Hpre)].
    + left. congruence.
    + right. exists rel, c. split; [left|done].
  - assert (Hstep : ∀ r fs2 cp ow fl,
      copy2 (basename rel) c (primary ++ rel) fs1 = (r, fs2) →
      apply_files zip primary files cp ow fl fs2 = (res, fs') →
      fs' !! k = Some Dir →
      fs !! k = Some Dir ∨
      ∃ rel0 c0, (rel0, c0) ∈ (rel, c) :: files ∧
                 k `prefix_of` dirname (primary ++ rel0)).
    { intros r fs2 cp ow fl Hcp Hrest Hk.
      destruct (IH _ _ _ _ Hrest Hk) as [Hk2|(rel0 & c0 & Hin & Hpre)].
      2:{ right. exists rel0, c0. split; [by right|done]. }
      assert (fs1 !! k = Some Dir) as Hk1.
      { apply copy2_effect in Hcp as [[-> _]|(q & _ & _ & _ & -> & _)];
          [done|].
        destruct (decide (k = q)) as [->|Hne].
        - by rewrite lookup_insert_eq in Hk2.
        - by rewrite lookup_insert_ne in Hk2. }
      destruct (Hmk k) as [E|(_ & _ & Hpre)].
      - left. congruence.
      - right. exists rel, c. split; [left|done]. }
    destruct (path_exists fs1 (primary ++ rel));
      destruct (copy2 (basename rel) c (primary ++ rel) fs1)
        as [[ex|[]] fs2] eqn:Hcp; eauto.
Qed.

(** The application never deletes. *)
Lemma apply_files_keeps zip primary files copied overwritten failed fs res fs' k :
  apply_files zip primary files copied overwritten failed fs = (res, fs') →
  is_Some (fs !! k) → is_Some (fs' !! k).
Proof.
  revert copied overwritten failed fs.
  induction files as [|[rel c] files IH];
    intros copied overwritten failed fs; simpl.
  { by intros [= <- <-]. }
  destruct (makedirs true (dirname (primary ++ rel)) fs)
    as [[ex|[]] fs1] eqn:Hmk; apply makedirs_adds in Hmk.
  - intros [= <- <-] Hk. destruct (Hmk k) as [E|(N & _)]; [by rewrite E|].
    rewrite N in Hk. by destruct Hk.
  - assert (Hstep : ∀ r fs2 cp ow fl,
      copy2 (basename rel) c (primary ++ rel) fs1 = (r, fs2) →
      apply_files zip primary files cp ow fl fs2 = (res, fs') →
      is_Some (fs !! k) → is_Some (fs' !! k)).
    { intros r fs2 cp ow fl Hcp Hrest Hk. eapply IH; [done|].
      assert (is_Some (fs1 !! k)) as Hk1.
      { destruct (Hmk k) as [E|(N & _)]; [by rewrite E|].
        rewrite N in Hk. by destruct Hk. }
      apply copy2_effect in Hcp as [[-> _]|(q & _ & _ & _ & -> & _)];
        [done|].
      destruct (decide (k = q)) as [->|Hne].
      - by rewrite lookup_insert_eq.
      - by rewrite lookup_insert_ne. }
    destruct (path_exists fs1 (primary ++ rel));
      destruct (copy2 (basename rel) c (primary ++ rel) fs1)
        as [[ex|[]] fs2] eqn:Hcp; eauto.
Qed.

Lemma apply_update_zip_keeps zip primary fs k :
  is_Some (fs !! k) → is_Some ((apply_update_zip zip primary fs).2 !! k).
Proof.
  intros Hk. unfold apply_update_zip.
  destruct (path_exists fs zip); simpl; [|done].
  destruct (path_exists fs primary); simpl; [|done].
  unfold read_zip.
  destruct (fs !! zip) as [[|[bytes|entries|dd]]|]; simpl; try done.
  destruct (extractall entries) as [ex|tmp]; [by destruct ex|].
  destruct (apply_files zip primary (walk_files tmp) [] [] [] fs)
    as [res fs'] eqn:Hrun. simpl. by eapply apply_files_keeps.
Qed.

Lemma apply_update_zip_missing_primary zip primary fs :
  path_exists fs primary = false → (apply_update_zip zip primary fs).2 = fs.
Proof.
  intros Hp. unfold apply_update_zip.
  destruct (path_exists fs zip); simpl; [|done]. by rewrite Hp.
Qed.

Lemma dirname_app primary rel :
  rel ≠ [] → dirname (primary ++ rel) = primary ++ dirname rel.
Proof. intros Hne. unfold dirname. by apply removelast_app. Qed.

Lemma dirname_proper_prefix rel k :
  rel ≠ [] → k `prefix_of` dirname rel → k `prefix_of` rel ∧ k ≠ rel.
Proof.
  intros Hne Hpre. destruct rel as [|x rel _] using rev_ind; [done|].
  unfold dirname in Hpre. rewrite removelast_last in Hpre. split.
  - by apply prefix_app_r.
  - intros ->. destruct Hpre as [s Hs].
    apply (f_equal length) in Hs. rewrite !length_app in Hs. simpl in Hs. lia.
Qed.

(** After the application, the target of a file member that did not exist
    before is not a directory. *)
Lemma apply_update_zip_target_not_dir zip primary fs entries e :
  fs !! zip = Some (File (Zip entries)) →
  e ∈ entries → ze_is_dir e = false →
  fs !! (primary ++ sanitize (ze_name e)) = None →
  (apply_update_zip zip primary fs).2 !! (primary ++ sanitize (ze_name e))
    ≠ Some Dir.
Proof.
  intros Hzip He Hfile Hnone. unfold apply_update_zip.
  destruct (path_exists fs zip); simpl; [|congruence].
  destruct (path_exists fs primary); simpl; [|congruence].
  unfold read_zip. rewrite Hzip.
  destruct (extractall entries) as [ex|tmp] eqn:Hext.
  { destruct ex; simpl; congruence. }
  apply extractall_spec in Hext as (Hwf & Hroot & Hfiles).
  destruct (apply_files zip primary (walk_files tmp) [] [] [] fs)
    as [res fs'] eqn:Hrun. simpl. intros Hdir.
  destruct (apply_files_dirs _ _ _ _ _ _ _ _ _ _ Hrun Hdir)
    as [?|(rel & c & Hin & Hpre)]; [congruence|].
  apply elem_of_walk_files in Hin.
  assert (rel ≠ []) as Hne by (intros ->; congruence).
  rewrite dirname_app in Hpre by done.
  apply prefix_app_inv in Hpre.
  apply dirname_proper_prefix in Hpre as [Hpre Hneq]; [|done].
  pose proof (well_formed_prefix _ _ _ _ Hwf Hin Hpre Hneq) as Hd.
  destruct (Hfiles e He Hfile) as [c' Hc']. congruence.
Qed.
End application.

(** X26: for any archive applied to a target directory and then reversed
    with the same archive, every file member whose name has no empty, [.]
    or [..] component and whose target path did not exist before the
    application is absent after the reversal; and the reversal only
    deletes: whatever the file system holds after it was there, unchanged,
    before it, so the prior content of an overwritten file is never
    restored. *)
Theorem apply_then_reverse_normalised (fs0 : file_system)
    (zip zip' primary : path) (entries : list zip_entry) :
  fs0 !! zip = Some (File (Zip entries)) →
  (apply_update_zip zip primary fs0).2 !! zip' = Some (File (Zip entries)) →
  let fs1 := (apply_update_zip zip primary fs0).2 in
  let fs2 := (analyze_update_zip zip' primary fs1).2 in
  (∀ e, e ∈ entries → ze_is_dir e = false →
        sanitize (ze_name e) = ze_name e →
        fs0 !! (primary ++ ze_name e) = None →
        fs2 !! (primary ++ ze_name e) = None) ∧
  fs2 ⊆ fs1.
Proof.
  intros Hzip Hzip' fs1 fs2.
  destruct (analyze_update_zip_deletes zip' primary fs1) as (l & Hdel & Hl).
  fold fs2 in Hdel. split; [|by eapply only_deletes_subseteq].
  intros e He Hfile Hnorm Hnone.
  pose proof (apply_update_zip_target_not_dir zip primary fs0 entries e
                Hzip He Hfile) as Hnd.
  rewrite Hnorm in Hnd. specialize (Hnd Hnone). fold fs1 in Hnd.
  subst fs2. unfold analyze_update_zip in *.
  destruct (path_exists fs1 zip') eqn:Hz; simpl in *.
  2:{ unfold path_exists in Hz. fold fs1 in Hzip'. by rewrite Hzip' in Hz. }
  destruct (path_exists fs1 primary) eqn:Hp; simpl in *.
  2:{ assert (path_exists fs0 primary = false) as Hp0.
      { unfold path_exists in *.
        destruct (fs0 !! primary) eqn:Hprim0; [|done].
        destruct (apply_update_zip_keeps zip primary fs0 primary) as [n1 Hn];
          [by eexists|].
        fold fs1 in Hn. by rewrite Hn in Hp. }
      unfold fs1. by rewrite apply_update_zip_missing_primary. }
  unfold read_zip in *. fold fs1 in Hzip'. rewrite Hzip' in *.
  destruct (analyze_entries primary entries [] [] [] fs1) as [res fs'] eqn:Hrun.
  simpl. by eapply analyze_entries_removes.
Qed.

Lemma apply_then_reverse_normalised_witness :
  let fs1 := (apply_update_zip ["u"; "mod.zip"] ["game"] example_fs).2 in
  let fs2 := (analyze_update_zip ["u"; "mod.zip"] ["game"] fs1).2 in
  (∀ e, e ∈ example_entries → ze_is_dir e = false →
        sanitize (ze_name e) = ze_name e →
        example_fs !! (["game"] ++ ze_name e) = None →
        fs2 !! (["game"] ++ ze_name e) = None) ∧
  fs2 ⊆ fs1.
Proof.
  apply (apply_then_reverse_normalised example_fs ["u"; "mod.zip"]
           ["u"; "mod.zip"] ["game"] example_entries).
  - vm_compute. reflexivity.
  - vm_compute. reflexivity.
Defined.

(** C3 does not hold of the code for a member name with a [..] component.
    The archive [mod.zip] has the single member [../x.txt]. The application
    extracts it as [x.txt] and copies it to [game/x.txt], which did not
    exist; the reversal joins the member name as it is, looks for
    [game/../x.txt], reports it as not found and leaves [game/x.txt] in
    place. *)
Theorem C3_reversal_misses_sanitised_member :
  let '(r1, fs1) :=
    apply_update_zip ["u"; "mod.zip"] ["game"] example_dotdot_fs in
  let '(r2, fs2) := analyze_update_zip ["u"; "mod.zip"] ["game"] fs1 in
  example_dotdot_fs !! ["game"; "x.txt"] = None ∧
  r1 = ([["game"; "x.txt"]], [], []) ∧
  r2 = ([], [["game"; ".."; "x.txt"]], []) ∧
  fs2 !! ["game"; "x.txt"] = Some (File (Raw "x")).
Proof. vm_compute. done. Qed.

Example apply_then_reverse_example :
  let '(r1, fs1) := apply_update_zip ["u"; "mod.zip"] ["game"] example_fs in
  let '(r2, fs2) := analyze_update_zip ["u"; "mod.zip"] ["game"] fs1 in
  r1 = ([["game"; "textures"; "a.png"]], [["game"; "b.txt"]], []) ∧
  r2 = ([["game"; "textures"; "a.png"]; ["game"; "b.txt"]], [], []) ∧
  fs1 !! ["game"; "b.txt"] = Some (File (Raw "new")) ∧
  fs2 !! ["game"; "b.txt"] = None ∧
  fs2 !! ["game"; "textures"] = None.
Proof. vm_compute. done. Qed.

(** ** Relocation into the installed bucket *)

Section suffix_search.
Implicit Types (fs : file_system) (taken : nat → bool).

Lemma string_length_app (a b : string) :
  String.length (a +:+ b) = (String.length a + String.length b)%nat.
Proof.
  induction a as [|x a IH]; [done|].
  change (S (String.length (a +:+ b)) = S (String.length a + String.length b)).
  by rewrite IH.
Qed.

Lemma string_app_inj_r (a b e : string) : a +:+ e = b +:+ e → a = b.
Proof.
  revert b. induction a as [|x a IH]; intros [|y b] H.
  - done.
  - apply (f_equal String.length) in H.
    change (String.length e = S (String.length (b +:+ e))) in H.
    rewrite string_length_app in H. lia.
  - apply (f_equal String.length) in H.
    change (S (String.length (a +:+ e)) = String.length e) in H.
    rewrite string_length_app in H. lia.
  - change (String x (a +:+ e) = String y (b +:+ e)) in H.
    injection H as -> H. f_equal. by apply IH.
Qed.

Lemma suffixed_name_inj base ext : Inj (=) (=) (suffixed_name base ext).
Proof.
  intros i j H. unfold suffixed_name in H.
  apply (inj (String.app base)) in H.
  apply (inj (String.app "_")) in H.
  apply string_app_inj_r in H. by apply (inj pretty) in H.
Qed.

(** The loop stops at the least index that is not taken, when there is one
    within reach. *)
Lemma first_free_suffix_spec (fuel : nat) taken (i : nat) :
  (∃ j : nat, (i ≤ j ≤ i + fuel)%nat ∧ taken j = false) →
  taken (first_free_suffix fuel taken i) = false ∧
  (i ≤ first_free_suffix fuel taken i)%nat ∧
  (∀ j : nat, (i ≤ j < first_free_suffix fuel taken i)%nat → taken j = true).
Proof.
  revert i. induction fuel as [|fuel IH]; intros i (j & Hj & Hfree); simpl.
  - assert (j = i) as -> by lia. split_and!; [done|lia|]. intros; lia.
  - destruct (taken i) eqn:Hi.
    + destruct (IH (S i)) as (H1 & H2 & H3).
      { exists j. split; [|done].
        destruct (decide (j = i)) as [->|]; [congruence|lia]. }
      split_and!; [done|lia|].
      intros j' Hj'. destruct (decide (j' = i)) as [->|]; [done|].
      apply H3. lia.
    + split_and!; [done|lia|]. intros; lia.
Qed.

(** Among more candidate names than the file system has entries, one is
    free. *)
Lemma some_suffix_free fs (d : path) base ext :
  ∃ j : nat, (1 ≤ j ≤ 1 + size fs)%nat ∧
    path_exists fs (d ++ [suffixed_name base ext j]) = false.
Proof.
  set (cand := λ j : nat, d ++ [suffixed_name base ext j]).
  destruct (decide (Exists (λ j, path_exists fs (cand j) = false)
                           (seq 1 (S (size fs))))) as [Hex|Hall].
  - apply Exists_exists in Hex as (j & Hj & Hfree).
    apply elem_of_seq in Hj. exists j. split; [lia|done].
  - exfalso. apply not_Exists_Forall in Hall; [|intros ?; apply _].
    assert (NoDup (cand <$> seq 1 (S (size fs)))) as Hnd.
    { apply NoDup_fmap_2; [|apply NoDup_seq].
      intros i j H. unfold cand in H. apply app_inv_head in H.
      injection H as H. by apply suffixed_name_inj in H. }
    assert (list_to_set (C := gset path) (cand <$> seq 1 (S (size fs)))
            ⊆ dom fs) as Hsub.
    { intros k Hk. apply elem_of_list_to_set, list_elem_of_fmap in Hk
        as (j & -> & Hj).
      rewrite Forall_forall in Hall. specialize (Hall j Hj). simpl in Hall.
      apply elem_of_dom. unfold path_exists in Hall.
      destruct (fs !! cand j); [by eexists|by destruct Hall]. }
    apply subseteq_size in Hsub.
    rewrite size_list_to_set, length_fmap, length_seq, size_dom in Hsub
      by done.
    lia.
Qed.

(** The target chosen in the installed bucket does not exist yet; on a
    collision it carries the least free suffix. *)
Lemma installed_target_spec (installed_dir : path) zip_name fs :
  fs !! installed_target installed_dir zip_name fs = None ∧
  (path_exists fs (installed_dir ++ [zip_name]) = true →
   ∃ i : nat, (1 ≤ i)%nat ∧
     installed_target installed_dir zip_name fs =
       installed_dir ++ [suffixed_name (splitext zip_name).1
                                       (splitext zip_name).2 i] ∧
     ∀ j : nat, (1 ≤ j < i)%nat →
       path_exists fs (installed_dir ++
         [suffixed_name (splitext zip_name).1 (splitext zip_name).2 j])
       = true).
Proof.
  unfold installed_target.
  destruct (path_exists fs (installed_dir ++ [zip_name])) eqn:Hex.
  - destruct (splitext zip_name) as [base ext] eqn:Hsp. simpl.
    destruct (first_free_suffix_spec (size fs)
                (λ i, path_exists fs (installed_dir ++ [suffixed_name base ext i]))
                1) as (Hfree & Hge & Hleast).
    { apply some_suffix_free. }
    split.
    + unfold path_exists in Hfree.
      by destruct (fs !! (installed_dir ++ [suffixed_name base ext _])).
    + intros _. eexists. split_and!; [exact Hge|done|exact Hleast].
  - split; [|done]. unfold path_exists in Hex.
    by destruct (fs !! (installed_dir ++ [zip_name])).
Qed.
End suffix_search.

(** ** Moving a regular file *)

Section moving.
Implicit Types (fs : file_system) (src dst : path).

Lemma dirname_snoc (d : path) (x : string) : dirname (d ++ [x]) = d.
Proof. unfold dirname. apply removelast_last. Qed.

Lemma basename_snoc (d : path) (x : string) : basename (d ++ [x]) = x.
Proof. unfold basename. apply last_last. Qed.

(** A regular file moved to a path that does not exist, in an existing
    directory. *)
Lemma move_file_fresh src dst fs c :
  fs !! src = Some (File c) → fs !! dst = None →
  fs !! dirname dst = Some Dir →
  move src dst fs = (inr tt, <[dst := File c]> (delete src fs)).
Proof.
  intros Hsrc Hdst Hpar. unfold move, isdir. rewrite Hdst. simpl.
  by rewrite Hsrc, Hdst, Hpar.
Qed.

End moving.



Example installed_target_example :
  installed_target ["u"; "_installed_"] "A.zip" example_collision_fs =
  ["u"; "_installed_"; "A_2.zip"].
Proof. vm_compute. reflexivity. Qed.

(** ** The relocation gates *)

Section gates.
Implicit Types (fs : file_system) (w : world).

Lemma installed_target_dirname (installed_dir : path) zip_name fs :
  dirname (installed_target installed_dir zip_name fs) = installed_dir.
Proof.
  unfold installed_target.
  destruct (path_exists fs (installed_dir ++ [zip_name])).
  - destruct (splitext zip_name). apply dirname_snoc.
  - apply dirname_snoc.
Qed.


Lemma relocate_installed_open (installed_dir source_path : path) zip_name
    copied overwritten fs c :
  fs !! source_path = Some (File c) → fs !! installed_dir = Some Dir →
  (0 < length copied + length overwritten)%nat →
  relocate_installed installed_dir zip_name source_path copied overwritten fs
  = (inr tt, <[installed_target installed_dir zip_name fs := File c]>
               (delete source_path fs)).
Proof.
  intros Hsrc Hdir Hgate. unfold relocate_installed.
  assert ((0 <? length copied)%nat || (0 <? length overwritten)%nat = true)
    as ->.
  { apply orb_true_iff. rewrite !Nat.ltb_lt. lia. }
  unfold try_except, mbind, comp_mbind, comp_bind, get_state.
  rewrite (move_file_fresh _ _ _ c); [done..| |].
  - apply installed_target_spec.
  - by rewrite installed_target_dirname.
Qed.

End gates.

Ltac unfold_comp :=
  unfold mbind, comp_mbind, comp_bind, mret, comp_mret, comp_ret,
         try_except, get_state, raise in *.

Section removal_gate.
Implicit Types (fs : file_system) (w : world) (U P : path).

Lemma load_dependencies_state U fs r fs' :
  load_dependencies U fs = (r, fs') → fs' = fs.
Proof.
  unfold load_dependencies.
  by destruct (fs !! (U ++ [DEPENDENCY_FILE])) as [[|[| |]]|];
    intros [= <- <-].
Qed.

Lemma elem_of_zip_files_in fs (d : path) names n p :
  (n, p) ∈ zip_files_in fs d names →
  p = d ++ [n] ∧ isfile fs p = true ∧ n ∈ names.
Proof.
  unfold zip_files_in. rewrite list_elem_of_omap.
  intros (f & Hf & Hsome).
  destruct (endswith f ".zip" && isfile fs (d ++ [f])) eqn:Hc; [|done].
  injection Hsome as <- <-. apply andb_true_iff in Hc as [_ Hc]. done.
Qed.

Lemma get_installed_updates_effect U fs r fs' :
  get_installed_updates U fs = (r, fs') →
  only_adds_dirs (U ++ [INSTALLED_DIR_NAME]) fs fs' ∧
  ∀ zs, r = inr zs → ∀ n p, (n, p) ∈ zs →
        p = (U ++ [INSTALLED_DIR_NAME]) ++ [n] ∧ isfile fs' p = true.
Proof.
  unfold get_installed_updates. unfold_comp.
  destruct (path_exists fs (U ++ [INSTALLED_DIR_NAME])); simpl.
  - destruct (listdir (U ++ [INSTALLED_DIR_NAME]) fs) as [[e|names] fs1] eqn:Hl;
      apply listdir_state in Hl as ->; intros [= <- <-].
    + split; [apply only_adds_dirs_refl|done].
    + split; [apply only_adds_dirs_refl|].
      intros zs [= <-] n p Hin.
      apply elem_of_zip_files_in in Hin as (? & ? & _). done.
  - destruct (makedirs false (U ++ [INSTALLED_DIR_NAME]) fs)
      as [[e|[]] fs1] eqn:Hmk; apply makedirs_adds in Hmk;
      intros [= <- <-]; (split; [done|]).
    + done.
    + intros zs [= <-] n p Hin. inversion Hin.
Qed.

End removal_gate.

Section removal_gate_invariant.
Implicit Types (fs : file_system) (w : world) (U P : path).



Lemma analyze_update_zip_subseteq zip P fs :
  (analyze_update_zip zip P fs).2 ⊆ fs.
Proof.
  destruct (analyze_update_zip_deletes zip P fs) as (l & Hdel & _).
  by eapply only_deletes_subseteq.
Qed.



Lemma path_length_neq (p q : path) : length p ≠ length q → p ≠ q.
Proof. congruence. Qed.

Lemma installed_neq_uninstalled : INSTALLED_DIR_NAME ≠ UNINSTALLED_DIR_NAME.
Proof. done. Qed.

End removal_gate_invariant.

Section removal_gate_theorem.
Implicit Types (fs : file_system) (w : world) (U P : path).

Lemma path_snoc2 U (a b : string) : (U ++ [a]) ++ [b] = U ++ [a; b].
Proof. by rewrite <- app_assoc. Qed.

Lemma lift_fs_unfold {A} (m : F A) w :
  lift_fs m w = ((m (w_fs w)).1, World (m (w_fs w)).2 (w_stdin w)).
Proof. unfold lift_fs. by destruct (m (w_fs w)). Qed.



End removal_gate_theorem.



(** ** Directory listings *)

Section installed_listing.
Implicit Types (fs : file_system) (d k p U : path) (n : string).

Lemma child_name_spec d k n : child_name d k = Some n ↔ k = d ++ [n].
Proof.
  revert k. induction d as [|x d IH]; intros k; simpl.
  - destruct k as [|y [|z k]]; split; try done; by intros [= ->].
  - destruct k as [|y k]; [split; done|].
    destruct (decide (x = y)) as [->|Hne].
    + rewrite IH. split; [by intros ->|by intros [= ->]].
    + split; [done|]. intros [= ? _]. by subst.
Qed.

Lemma elem_of_children fs d n :
  n ∈ children fs d ↔ is_Some (fs !! (d ++ [n])).
Proof.
  unfold children. rewrite list_elem_of_omap. split.
  - intros ([k v] & Hin & Hk). simpl in Hk.
    apply child_name_spec in Hk as ->.
    apply elem_of_map_to_list in Hin. by eexists.
  - intros [v Hv]. exists (d ++ [n], v). split.
    + by apply elem_of_map_to_list.
    + by apply child_name_spec.
Qed.

Lemma zip_files_in_spec fs d names n p :
  (n, p) ∈ zip_files_in fs d names ↔
  n ∈ names ∧ p = d ++ [n] ∧ endswith n ".zip" = true ∧ isfile fs p = true.
Proof.
  unfold zip_files_in. rewrite list_elem_of_omap. split.
  - intros (f & Hf & Hsome).
    destruct (endswith f ".zip" && isfile fs (d ++ [f])) eqn:Hc; [|done].
    injection Hsome as <- <-. by apply andb_true_iff in Hc as [? ?].
  - intros (Hn & -> & He & Hf). exists n. split; [done|].
    by rewrite He, Hf.
Qed.

Lemma isfile_spec fs p : isfile fs p = true ↔ ∃ c, fs !! p = Some (File c).
Proof.
  unfold isfile. destruct (fs !! p) as [[|c]|]; split; try done.
  - by intros [? ?].
  - by eexists.
  - by intros [? ?].
Qed.

Lemma get_installed_updates_listing U fs :
  fs !! (U ++ [INSTALLED_DIR_NAME]) = Some Dir →
  get_installed_updates U fs =
  (inr (zip_files_in fs (U ++ [INSTALLED_DIR_NAME])
          (children fs (U ++ [INSTALLED_DIR_NAME]))), fs).
Proof.
  intros Hinst. unfold get_installed_updates, listdir, path_exists.
  unfold_comp. rewrite Hinst. simpl. by rewrite Hinst.
Qed.

Lemma installed_names_listing U fs :
  fs !! (U ++ [INSTALLED_DIR_NAME]) = Some Dir →
  installed_names U fs =
  (inr (zip_files_in fs (U ++ [INSTALLED_DIR_NAME])
          (children fs (U ++ [INSTALLED_DIR_NAME]))).*1, fs).
Proof.
  intros Hinst. unfold installed_names. unfold_comp.
  by rewrite get_installed_updates_listing.
Qed.

Lemma elem_of_installed_listing U fs (f : string) :
  f ∈ (zip_files_in fs (U ++ [INSTALLED_DIR_NAME])
         (children fs (U ++ [INSTALLED_DIR_NAME]))).*1 ↔
  endswith f ".zip" = true ∧
  ∃ c, fs !! (U ++ [INSTALLED_DIR_NAME; f]) = Some (File c).
Proof.
  rewrite list_elem_of_fmap. split.
  - intros ([f' p] & -> & Hin). simpl.
    apply zip_files_in_spec in Hin as (_ & -> & ? & ?%isfile_spec).
    by rewrite <- path_snoc2.
  - intros [Hzip [c Hc]]. exists (f, (U ++ [INSTALLED_DIR_NAME]) ++ [f]).
    split; [done|]. apply zip_files_in_spec.
    rewrite elem_of_children, isfile_spec, path_snoc2.
    split_and!; [by eexists|done..|by eexists].
Qed.

End installed_listing.

Section deletes_below.
Implicit Types (fs : file_system) (P k : path).




Lemma prefix_snoc_inv (p l : path) (c : string) :
  p `prefix_of` l ++ [c] → p ≠ l ++ [c] → p `prefix_of` l.
Proof.
  intros [s Hs] Hne. destruct s as [|y s _] using rev_ind.
  - rewrite app_nil_r in Hs. done.
  - rewrite app_assoc in Hs. apply app_inj_tail in Hs as [-> _].
    by apply prefix_app_r.
Qed.



End deletes_below.

(** ** Bulk removal *)

Section per_item_parts.
Implicit Types (fs : file_system) (w : world) (U P : path).






End per_item_parts.


Example remove_all_ignores_store :
  let '(r, w') := remove_all_updates ["game"] ["u"]
                    (World example_unreadable_store_fs ["y"]) in
  r = inr tt ∧
  w_fs w' !! ["game"; "a.txt"] = None ∧
  w_fs w' !! ["u"; "_installed_"; "A.zip"] = None ∧
  is_Some (w_fs w' !! ["u"; "_uninstalled_"; "A.zip"]).
Proof. vm_compute. split_and!; [done..|by eexists]. Qed.

Example remove_per_item_reads_store :
  remove_all_per_item ["game"] ["u"]
    (World example_unreadable_store_fs ["y"])
  = (inl IsADirectoryError, World example_unreadable_store_fs []) ∧
  remove_selected_updates ["game"] ["u"] [1%Z]
    [("A.zip", ["u"; "_installed_"; "A.zip"])]
    (World example_unreadable_store_fs [])
  = (inl IsADirectoryError, World example_unreadable_store_fs []).
Proof. vm_compute. done. Qed.

(** Also with a dependency file that can be read the two may differ.
    C.zip was recorded with the dependency A.zip, A.zip and B.zip both hold
    g.txt only, and the bucket lists C.zip, B.zip, A.zip in this order. The
    per-item logic removes A.zip as an unused dependency right after C.zip,
    so that B.zip finds nothing to remove and stays installed;
    remove_all_updates reverses B.zip before A.zip, and it is A.zip that
    stays installed. *)
Example remove_all_skips_cascade :
  let w := World example_cascade_fs ["y"] in
  let w1 := (remove_all_updates ["game"] ["u"] w).2 in
  let w2 := (remove_all_per_item ["game"] ["u"] w).2 in
  (get_installed_updates ["u"] example_cascade_fs).1
  = inr [("C.zip", ["u"; "_installed_"; "C.zip"]);
         ("B.zip", ["u"; "_installed_"; "B.zip"]);
         ("A.zip", ["u"; "_installed_"; "A.zip"])] ∧
  is_Some (w_fs w1 !! ["u"; "_installed_"; "A.zip"]) ∧
  w_fs w1 !! ["u"; "_installed_"; "B.zip"] = None ∧
  w_fs w2 !! ["u"; "_installed_"; "A.zip"] = None ∧
  is_Some (w_fs w2 !! ["u"; "_installed_"; "B.zip"]).
Proof. vm_compute. split_and!; try done; by eexists. Qed.

(** ** Bulk removal without installed dependencies *)

Section no_gates.
Implicit Types (fs : file_system) (w : world) (U P : path).











End no_gates.



Example remove_all_recorded :
  let w' := (remove_all_updates ["game"] ["u"]
               (World example_recorded_fs ["y"])).2 in
  w_fs w' !! ["game"; "a.txt"] = None ∧
  w_fs w' !! ["game"; "b.txt"] = None ∧
  is_Some (w_fs w' !! ["u"; "_uninstalled_"; "A.zip"]) ∧
  is_Some (w_fs w' !! ["u"; "_uninstalled_"; "B.zip"]) ∧
  w_stdin w' = [].
Proof. vm_compute. split_and!; try done; by eexists. Qed.

(** ** The store on disk *)

(** A successful [update_dependencies] leaves on disk the object obtained
    from the loaded one by the in-memory update. *)
Lemma update_dependencies_load (U : path) (name : string) (deps : list string)
    (fs : file_system) (dd : dependency_data) :
  load_dependencies U fs = (inr dd, fs) →
  fs !! U = Some Dir →
  ∃ fs', update_dependencies U name deps fs = (inr tt, fs') ∧
         load_dependencies U fs' =
           (inr (update_dependency_data name deps dd), fs').
Proof.
  intros Hload Hdir. unfold update_dependencies. unfold_comp. rewrite Hload.
  unfold save_dependencies, write_file. rewrite dirname_snoc, Hdir.
  assert (fs !! (U ++ [DEPENDENCY_FILE]) ≠ Some Dir) as Hnd.
  { intros E. unfold load_dependencies in Hload. by rewrite E in Hload. }
  exists (<[U ++ [DEPENDENCY_FILE] :=
             File (Json (update_dependency_data name deps dd))]> fs).
  split.
  - by destruct (fs !! (U ++ [DEPENDENCY_FILE])) as [[|c]|].
  - unfold load_dependencies. by rewrite lookup_insert_eq.
Qed.

(** What [check_unused_dependencies] returns is the in-memory result on the
    loaded object and the names of the installed listing. *)
Lemma check_unused_dependencies_result (U : path) (name : string)
    (fs fs' : file_system) (l : list string) :
  check_unused_dependencies U name fs = (inr l, fs') →
  ∃ dd installed,
    load_dependencies U fs = (inr dd, fs) ∧
    installed_names U fs = (inr installed, fs') ∧
    l = unused_dependencies dd installed name.
Proof.
  unfold check_unused_dependencies. unfold_comp.
  destruct (load_dependencies U fs) as [[e|dd] fs0] eqn:Hload; [done|].
  pose proof (load_dependencies_state _ _ _ _ Hload) as ->.
  destruct (installed_names U fs) as [[e|installed] fs1] eqn:Hn; [done|].
  intros [= <- <-]. by exists dd, installed.
Qed.

(** ** The orchestration on the example worlds *)

Example install_moves_archive :
  let '(r, w') := install_selected_updates ["game"] ["u"] [1%Z]
                    [("mod.zip", ["u"; "mod.zip"])]
                    (World example_fs ["n"]) in
  r = inr tt ∧
  w_fs w' !! ["u"; "mod.zip"] = None ∧
  w_fs w' !! ["u"; "_installed_"; "mod.zip"] = Some (File (Zip example_entries)) ∧
  w_fs w' !! ["game"; "textures"; "a.png"] = Some (File (Raw "png")) ∧
  w_fs w' !! ["game"; "b.txt"] = Some (File (Raw "new")) ∧
  w_stdin w' = [].
Proof. vm_compute. done. Qed.

Example install_keeps_empty_archive :
  let '(r, w') := install_selected_updates ["game"] ["u"] [1%Z]
                    [("empty.zip", ["u"; "empty.zip"])]
                    (World example_empty_archive_fs []) in
  r = inr tt ∧
  w_fs w' !! ["u"; "empty.zip"] = Some (File (Zip [])) ∧
  w_fs w' !! ["u"; "_installed_"; "empty.zip"] = None.
Proof. vm_compute. done. Qed.

Example install_on_collision :
  let '(r, w') := install_selected_updates ["game"] ["u"] [1%Z]
                    [("A.zip", ["u"; "A.zip"])]
                    (World example_collision_fs [EmptyString; "n"]) in
  r = inr tt ∧
  w_fs w' !! ["u"; "_installed_"; "A.zip"] = Some (File (Zip [])) ∧
  w_fs w' !! ["u"; "_installed_"; "A_1.zip"] = Some (File (Zip [])) ∧
  w_fs w' !! ["u"; "_installed_"; "A_2.zip"] = Some (File (Zip example_entries)) ∧
  w_fs w' !! ["u"; "A.zip"] = None.
Proof. vm_compute. done. Qed.

Example remove_reports_unused_dependency :
  check_unused_dependencies ["u"] "A.zip"
    (delete ["u"; "_installed_"; "A.zip"] example_dependent_fs) =
  (inr ["B.zip"], delete ["u"; "_installed_"; "A.zip"] example_dependent_fs).
Proof. vm_compute. reflexivity. Qed.

(** * Further properties of the program *)

(** ** Selection strings *)

Section selections.
Implicit Types (selected l : list Z) (part s : string) (i : Z).

Lemma elem_of_py_range_incl (a b i : Z) :
  i ∈ py_range_incl a b ↔ (a ≤ i ∧ i ≤ b)%Z.
Proof.
  unfold py_range_incl. rewrite list_elem_of_fmap. split.
  - intros (k & -> & Hk%elem_of_seq). lia.
  - intros [Ha Hb]. exists (Z.to_nat (i - a)). split; [lia|].
    apply elem_of_seq. lia.
Qed.

Lemma py_range_incl_NoDup (a b : Z) : NoDup (py_range_incl a b).
Proof.
  unfold py_range_incl. apply NoDup_fmap_2; [|apply NoDup_seq].
  intros x y ?. lia.
Qed.

Lemma py_range_incl_Sorted (a b : Z) : Sorted Z.le (py_range_incl a b).
Proof.
  unfold py_range_incl. generalize (Z.to_nat (b + 1 - a)) as n.
  generalize 0%nat as k. intros k n. revert k.
  induction n as [|n IH]; intros k; simpl; [constructor|].
  constructor; [apply IH|].
  destruct n; simpl; constructor. lia.
Qed.

Lemma elem_of_set_update selected l i :
  i ∈ set_update selected l ↔ i ∈ selected ∨ i ∈ l.
Proof.
  unfold set_update. revert selected.
  induction l as [|x l IH]; intros selected; simpl.
  - split; [by left|]. intros [?|H]; [done|inversion H].
  - rewrite IH. destruct (decide (x ∈ selected)).
    + rewrite elem_of_cons. split; [intros [?|?]; auto|].
      intros [?|[-> | ?]]; auto.
    + rewrite elem_of_app, list_elem_of_singleton, elem_of_cons.
      split; [intros [[?|?]|?]; auto|]. intros [?|[?|?]]; auto.
Qed.

Lemma set_update_NoDup selected l :
  NoDup selected → NoDup (set_update selected l).
Proof.
  unfold set_update. revert selected.
  induction l as [|x l IH]; intros selected Hnd; simpl; [done|].
  apply IH. destruct (decide (x ∈ selected)); [done|].
  apply NoDup_app. split_and!; [done| |apply NoDup_singleton].
  intros y Hy ->%list_elem_of_singleton. done.
Qed.

Lemma parse_part_NoDup max_num selected part :
  NoDup selected → NoDup (parse_part max_num selected part).
Proof.
  intros Hnd. unfold parse_part.
  destruct (contains_char "-" part).
  - destruct (py_int <$> split_on "-" part) as [|[a|] [|[b|] [|? ?]]];
      try done.
    destruct (_ && _ && _)%Z; [by apply set_update_NoDup|done].
  - destruct (py_int part); [|done].
    destruct (_ && _)%Z; [by apply set_update_NoDup|done].
Qed.

Lemma elem_of_parse_part max_num selected part i :
  i ∈ parse_part max_num selected part ↔
  i ∈ selected ∨ part_selects max_num part i.
Proof.
  unfold parse_part, part_selects.
  destruct (contains_char "-" part).
  - destruct (py_int <$> split_on "-" part) as [|[a|] [|[b|] [|? ?]]] eqn:E;
      try (split; [by left|intros [?|(? & ? & [=] & _)]; done]).
    destruct ((1 <=? a) && (a <=? b) && (b <=? Z.of_nat max_num))%Z eqn:Hc.
    + apply andb_true_iff in Hc as [[H1 H2]%andb_true_iff H3].
      apply Z.leb_le in H1, H2, H3.
      rewrite elem_of_set_update, elem_of_py_range_incl. split.
      * intros [?|[? ?]]; [by left|right]. exists a, b. split; [done|lia].
      * intros [?|(a' & b' & [= <- <-] & ?)]; [by left|right]. lia.
    + split; [by left|]. intros [?|(a' & b' & [= <- <-] & ?)]; [done|].
      exfalso. apply not_true_iff_false in Hc. apply Hc.
      rewrite !andb_true_iff, !Z.leb_le. lia.
  - destruct (py_int part) as [num|] eqn:E.
    + destruct ((1 <=? num) && (num <=? Z.of_nat max_num))%Z eqn:Hc.
      * apply andb_true_iff in Hc as [H1 H2]. apply Z.leb_le in H1, H2.
        rewrite elem_of_set_update, list_elem_of_singleton. split.
        -- intros [? | ->]; [by left|right]. split; [done|lia].
        -- intros [?|[[= ->] ?]]; [by left|by right].
      * split; [by left|]. intros [?|[[= <-] ?]]; [done|].
        exfalso. apply not_true_iff_false in Hc. apply Hc.
        rewrite andb_true_iff, !Z.leb_le. lia.
    + split; [by left|]. intros [?|[[=] _]]; done.
Qed.

Lemma parse_parts_NoDup max_num selected parts :
  NoDup selected → NoDup (foldl (parse_part max_num) selected parts).
Proof.
  revert selected. induction parts as [|p parts IH]; intros selected Hnd;
    simpl; [done|].
  by apply IH, parse_part_NoDup.
Qed.

Lemma elem_of_parse_parts max_num selected parts i :
  i ∈ foldl (parse_part max_num) selected parts ↔
  i ∈ selected ∨ ∃ part, part ∈ parts ∧ part_selects max_num part i.
Proof.
  revert selected. induction parts as [|p parts IH]; intros selected; simpl.
  - split; [by left|]. intros [?|(? & H & _)]; [done|inversion H].
  - rewrite IH, elem_of_parse_part. split.
    + intros [[?|?]|(q & ? & ?)]; [by left|right..].
      * exists p. split; [left|done].
      * exists q. split; [by right|done].
    + intros [?|(q & [-> | ?]%elem_of_cons & ?)].
      * by left; left.
      * by left; right.
      * right. by exists q.
Qed.

Lemma part_selects_in_range max_num part i :
  part_selects max_num part i → (1 ≤ i ∧ i ≤ Z.of_nat max_num)%Z.
Proof.
  unfold part_selects. destruct (contains_char "-" part).
  - intros (a & b & _ & ?). lia.
  - intros [_ ?]. lia.
Qed.
End selections.

Lemma parse_selection_range (selection_str : string)
    (max_num : nat) :
  Forall (λ i, (1 ≤ i ∧ i ≤ Z.of_nat max_num)%Z)
         (parse_selection selection_str max_num) ∧
  NoDup (parse_selection selection_str max_num) ∧
  Sorted Z.le (parse_selection selection_str max_num).
Proof.
  unfold parse_selection. destruct (decide (lower selection_str = "all")).
  - split_and!.
    + apply Forall_forall. intros i Hi%elem_of_py_range_incl. lia.
    + apply py_range_incl_NoDup.
    + apply py_range_incl_Sorted.
  - split_and!.
    + apply Forall_forall. intros i Hi.
      rewrite merge_sort_Permutation in Hi.
      apply elem_of_parse_parts in Hi as [Hi|(part & _ & Hsel)];
        [inversion Hi|].
      by eapply part_selects_in_range.
    + rewrite merge_sort_Permutation.
      apply parse_parts_NoDup, NoDup_nil_2.
    + apply (Sorted_merge_sort Z.le).
Qed.

(** X1: Whatever the user types, parse_selection returns indices between 1 and
    max_num only, in increasing order and without repetition. *)
Theorem parse_selection_in_range_sorted (selection_str : string) (max_num : nat) :
  Forall (λ i, (1 ≤ i ∧ i ≤ Z.of_nat max_num)%Z)
         (parse_selection selection_str max_num) ∧
  NoDup (parse_selection selection_str max_num) ∧
  Sorted Z.le (parse_selection selection_str max_num).
Proof. apply parse_selection_range. Qed.

(** X2: The word "all", in any letter case, selects every index from 1 to
    max_num. *)
Theorem parse_selection_all (selection_str : string) (max_num : nat) (i : Z) :
  lower selection_str = "all" →
  i ∈ parse_selection selection_str max_num ↔ (1 ≤ i ∧ i ≤ Z.of_nat max_num)%Z.
Proof.
  intros Hall. unfold parse_selection. rewrite decide_True by done.
  apply elem_of_py_range_incl.
Qed.

Lemma parse_selection_all_witness :
  3%Z ∈ parse_selection "All" 5 ↔ (1 ≤ 3 ∧ 3 ≤ Z.of_nat 5)%Z.
Proof. apply (parse_selection_all "All" 5 3). vm_compute. reflexivity. Defined.

(** X3: A selection string other than "all" that consists of ASCII
    characters, at most 640 of them, selects exactly the indices selected by
    one of its comma-separated pieces; a piece that is neither a number in
    range nor a well-formed range within 1..max_num selects nothing. *)
Theorem parse_selection_parts (selection_str : string) (max_num : nat) (i : Z) :
  is_ascii selection_str = true →
  (String.length selection_str ≤ 640)%nat →
  lower selection_str ≠ "all" →
  i ∈ parse_selection selection_str max_num ↔
  ∃ part, part ∈ split_on "," selection_str ∧ part_selects max_num part i.
Proof.
  intros _ _ Hall. unfold parse_selection. rewrite decide_False by done.
  rewrite merge_sort_Permutation, elem_of_parse_parts. split.
  - intros [Hi|?]; [inversion Hi|done].
  - by right.
Qed.

Lemma parse_selection_parts_witness :
  4%Z ∈ parse_selection "1, 3-5,x,9" 6 ↔
  ∃ part, part ∈ split_on "," "1, 3-5,x,9" ∧ part_selects 6 part 4.
Proof.
  apply (parse_selection_parts "1, 3-5,x,9" 6 4).
  - vm_compute. reflexivity.
  - vm_compute. lia.
  - vm_compute. discriminate.
Defined.

Example parse_selection_example :
  parse_selection "3,1-2,x,7-6,-3,2, 5 ,9" 6 = [1; 2; 3; 5]%Z.
Proof. vm_compute. reflexivity. Qed.

(** The blanks of [int] are not those of [str.strip]: a piece that starts
    with the separator U+001C is no number. *)
Example parse_selection_separator_example :
  py_int (String "028" "3") = None ∧
  parse_selection (String "028" "3") 6 = [] ∧
  strip (String "028" "3") = "3".
Proof. vm_compute. done. Qed.

(** ** Directory listings *)

Section listings.
Implicit Types (fs : file_system) (d k p U : path) (n : string).

Lemma NoDup_omap_inj {A B} (f : A → option B) (l : list A) :
  (∀ x y z, x ∈ l → y ∈ l → f x = Some z → f y = Some z → x = y) →
  NoDup l → NoDup (omap f l).
Proof.
  intros Hinj Hnd. induction Hnd as [|x l Hx Hnd IH]; [constructor|].
  cbn [omap list_omap]. fold (omap f l).
  assert (Hl : NoDup (omap f l)).
  { apply IH. intros a b z Ha Hb. apply Hinj; by right. }
  destruct (f x) as [z|] eqn:Hfx; [|done].
  constructor; [|done].
  rewrite list_elem_of_omap. intros (y & Hy & Hfy).
  assert (x = y) as ->; [|done].
  apply (Hinj x y z); [left|by right|done..].
Qed.

Lemma children_NoDup fs d : NoDup (children fs d).
Proof.
  unfold children. apply NoDup_omap_inj.
  - intros [k1 v1] [k2 v2] n H1 H2 Hk1 Hk2. simpl in *.
    apply child_name_spec in Hk1 as ->. apply child_name_spec in Hk2 as ->.
    apply elem_of_map_to_list in H1, H2. simpl in *. congruence.
  - apply NoDup_map_to_list.
Qed.

Lemma zip_files_in_NoDup fs d names :
  NoDup names → NoDup (zip_files_in fs d names).
Proof.
  intros Hnd. unfold zip_files_in. apply NoDup_omap_inj; [|done].
  intros x y z _ _ Hx Hy.
  destruct (_ && _); [|done]. destruct (_ && _); [|done]. congruence.
Qed.

Lemma makedirs_fresh_child U (n : string) fs :
  fs !! U = Some Dir → fs !! (U ++ [n]) = None →
  makedirs false (U ++ [n]) fs = (inr tt, <[U ++ [n] := Dir]> fs).
Proof.
  intros HU Hn. unfold makedirs. rewrite rev_unit. simpl.
  rewrite rev_involutive. unfold path_exists. rewrite HU.
  unfold mkdir. rewrite Hn, dirname_snoc, HU. done.
Qed.
End listings.

(** X4: get_installed_updates, when the installed bucket is a directory, changes
    nothing and lists, once each, exactly the regular files directly in the
    bucket whose name ends with ".zip", each with its path in the bucket. *)
Theorem get_installed_updates_lists_archives (updates_dir : path)
    (fs : file_system) :
  fs !! (updates_dir ++ [INSTALLED_DIR_NAME]) = Some Dir →
  ∃ zip_files,
    get_installed_updates updates_dir fs = (inr zip_files, fs) ∧
    NoDup zip_files ∧
    ∀ f p, (f, p) ∈ zip_files ↔
           p = updates_dir ++ [INSTALLED_DIR_NAME; f] ∧
           endswith f ".zip" = true ∧
           ∃ c, fs !! p = Some (File c).
Proof.
  intros Hinst. eexists. split; [by apply get_installed_updates_listing|].
  split; [apply zip_files_in_NoDup, children_NoDup|].
  intros f p. rewrite zip_files_in_spec, elem_of_children, isfile_spec.
  rewrite path_snoc2. split.
  - intros (_ & -> & ? & ?). done.
  - intros (-> & ? & [c Hc]). split_and!; [by eexists|done..| by eexists].
Qed.

Lemma get_installed_updates_lists_archives_witness :
  ∃ zip_files,
    get_installed_updates ["u"] example_collision_fs
    = (inr zip_files, example_collision_fs) ∧
    NoDup zip_files ∧
    ∀ f p, (f, p) ∈ zip_files ↔
           p = ["u"] ++ [INSTALLED_DIR_NAME; f] ∧
           endswith f ".zip" = true ∧
           ∃ c, example_collision_fs !! p = Some (File c).
Proof.
  apply (get_installed_updates_lists_archives ["u"] example_collision_fs).
  vm_compute. reflexivity.
Defined.

(** X5: get_installed_updates, when the installed bucket does not exist yet in an
    existing updates directory, creates the bucket, changes nothing else and
    reports no installed archive. *)
Theorem get_installed_updates_creates_bucket (updates_dir : path)
    (fs : file_system) :
  fs !! updates_dir = Some Dir →
  fs !! (updates_dir ++ [INSTALLED_DIR_NAME]) = None →
  get_installed_updates updates_dir fs =
  (inr [], <[updates_dir ++ [INSTALLED_DIR_NAME] := Dir]> fs).
Proof.
  intros HU Hinst. unfold get_installed_updates, path_exists. unfold_comp.
  rewrite Hinst. simpl. by rewrite makedirs_fresh_child.
Qed.

Lemma get_installed_updates_creates_bucket_witness :
  get_installed_updates ["u"] (<[ ["u"] := Dir ]> ∅) =
  (inr [], <[ ["u"] ++ [INSTALLED_DIR_NAME] := Dir]> (<[ ["u"] := Dir ]> ∅)).
Proof.
  apply (get_installed_updates_creates_bucket ["u"] (<[ ["u"] := Dir ]> ∅)).
  - vm_compute. reflexivity.
  - vm_compute. reflexivity.
Defined.

Section available.
Implicit Types (fs : file_system) (U : path).

Lemma get_available_updates_effect U fs r fs' :
  get_available_updates U fs = (r, fs') →
  only_adds_dirs (U ++ [UNINSTALLED_DIR_NAME]) fs fs'.
Proof.
  unfold get_available_updates. unfold_comp.
  destruct (path_exists fs U); simpl;
    [|intros [= <- <-]; apply only_adds_dirs_refl].
  destruct (listdir U fs) as [[e|names] fs0] eqn:Hl;
    apply listdir_state in Hl as ->;
    [intros [= <- <-]; apply only_adds_dirs_refl|].
  destruct (path_exists fs (U ++ [UNINSTALLED_DIR_NAME])); simpl.
  - destruct (listdir _ fs) as [[e|names'] fs0] eqn:Hl;
      apply listdir_state in Hl as ->;
      intros [= <- <-]; apply only_adds_dirs_refl.
  - destruct (makedirs false _ fs) as [[e|[]] fs1] eqn:Hmk;
      apply makedirs_adds in Hmk; [by intros [= <- <-]|].
    destruct (listdir _ fs1) as [[e|names'] fs0] eqn:Hl;
      apply listdir_state in Hl as ->; by intros [= <- <-].
Qed.

Lemma get_available_updates_listing U fs :
  fs !! U = Some Dir →
  (∀ c, fs !! (U ++ [UNINSTALLED_DIR_NAME]) ≠ Some (File c)) →
  let fs' := <[U ++ [UNINSTALLED_DIR_NAME] := Dir]> fs in
  get_available_updates U fs =
  (inr (Return (zip_files_in fs U (children fs U) ++
                zip_files_in fs' (U ++ [UNINSTALLED_DIR_NAME])
                  (children fs' (U ++ [UNINSTALLED_DIR_NAME])))), fs').
Proof.
  intros HU Hun fs'. unfold get_available_updates, listdir, path_exists.
  unfold_comp. rewrite HU. simpl. rewrite HU.
  destruct (fs !! (U ++ [UNINSTALLED_DIR_NAME])) as [[|c]|] eqn:Hu; simpl.
  - rewrite Hu. subst fs'. by rewrite insert_id.
  - by destruct (Hun c).
  - rewrite makedirs_fresh_child by done. fold fs'.
    subst fs'. by rewrite lookup_insert_eq.
Qed.
End available.

(** X6: get_available_updates, when the updates directory is a directory and the
    uninstalled bucket is not a regular file, creates the bucket if it is
    missing, changes nothing else, and lists exactly the regular files whose
    name ends with ".zip" directly in the updates directory or in the
    uninstalled bucket; nothing it lists is in the installed bucket. *)
Theorem get_available_updates_lists_archives (updates_dir : path)
    (fs : file_system) :
  fs !! updates_dir = Some Dir →
  (∀ c, fs !! (updates_dir ++ [UNINSTALLED_DIR_NAME]) ≠ Some (File c)) →
  ∃ zip_files,
    get_available_updates updates_dir fs =
    (inr (Return zip_files),
     <[updates_dir ++ [UNINSTALLED_DIR_NAME] := Dir]> fs) ∧
    (∀ f p, (f, p) ∈ zip_files ↔
            (p = updates_dir ++ [f] ∨
             p = updates_dir ++ [UNINSTALLED_DIR_NAME; f]) ∧
            endswith f ".zip" = true ∧
            ∃ c, fs !! p = Some (File c)) ∧
    (∀ f p, (f, p) ∈ zip_files →
            ¬ (updates_dir ++ [INSTALLED_DIR_NAME]) `prefix_of` p).
Proof.
  intros HU Hun. eexists. split; [by apply get_available_updates_listing|].
  assert (Hmem : ∀ f p,
    (f, p) ∈ zip_files_in fs updates_dir (children fs updates_dir) ++
             zip_files_in (<[updates_dir ++ [UNINSTALLED_DIR_NAME] := Dir]> fs)
               (updates_dir ++ [UNINSTALLED_DIR_NAME])
               (children (<[updates_dir ++ [UNINSTALLED_DIR_NAME] := Dir]> fs)
                         (updates_dir ++ [UNINSTALLED_DIR_NAME])) ↔
    (p = updates_dir ++ [f] ∨
     p = updates_dir ++ [UNINSTALLED_DIR_NAME; f]) ∧
    endswith f ".zip" = true ∧ ∃ c, fs !! p = Some (File c)).
  { intros f p.
    assert (Hne : updates_dir ++ [UNINSTALLED_DIR_NAME] ≠
                  (updates_dir ++ [UNINSTALLED_DIR_NAME]) ++ [f]).
    { apply path_length_neq. rewrite !length_app. simpl. lia. }
    rewrite elem_of_app, !zip_files_in_spec, !elem_of_children, !isfile_spec.
    rewrite (lookup_insert_ne _ _ _ _ Hne). rewrite path_snoc2.
    split.
    - intros [(_ & -> & ? & ?)|(_ & -> & ? & Hc)].
      + split; [by left|done].
      + split; [by right|]. split; [done|].
        destruct Hc as [c Hc]. exists c.
        rewrite lookup_insert_ne in Hc; [done|].
        rewrite <- path_snoc2. done.
    - intros ([-> | ->] & ? & [c Hc]).
      + left. split_and!; [by eexists|done..|by eexists].
      + right. split_and!; [by eexists|done..|].
        exists c. rewrite lookup_insert_ne; [done|].
        rewrite <- path_snoc2. done. }
  split; [exact Hmem|].
  intros f p [[-> | ->] [Hzip _]]%Hmem [k Hk].
  - rewrite <- app_assoc in Hk. apply app_inv_head in Hk.
    simpl in Hk. injection Hk as -> _. vm_compute in Hzip. done.
  - rewrite <- app_assoc in Hk. apply app_inv_head in Hk.
    simpl in Hk. injection Hk as Hk _.
    by apply installed_neq_uninstalled.
Qed.

Lemma get_available_updates_lists_archives_witness :
  ∃ zip_files,
    get_available_updates ["u"] example_collision_fs =
    (inr (Return zip_files),
     <[ ["u"] ++ [UNINSTALLED_DIR_NAME] := Dir]> example_collision_fs) ∧
    (∀ f p, (f, p) ∈ zip_files ↔
            (p = ["u"] ++ [f] ∨ p = ["u"] ++ [UNINSTALLED_DIR_NAME; f]) ∧
            endswith f ".zip" = true ∧
            ∃ c, example_collision_fs !! p = Some (File c)) ∧
    (∀ f p, (f, p) ∈ zip_files →
            ¬ (["u"] ++ [INSTALLED_DIR_NAME]) `prefix_of` p).
Proof.
  apply (get_available_updates_lists_archives ["u"] example_collision_fs).
  - vm_compute. reflexivity.
  - intros c. vm_compute. discriminate.
Defined.

(** X7: get_available_updates ends the program, with status 1, exactly when the
    updates directory does not exist, and then it has changed nothing. *)
Theorem get_available_updates_exit (updates_dir : path) (fs : file_system)
    (code : Z) :
  (get_available_updates updates_dir fs).1 = inr (Exit code) ↔
  fs !! updates_dir = None ∧ code = 1%Z ∧
  (get_available_updates updates_dir fs).2 = fs.
Proof.
  unfold get_available_updates, path_exists. unfold_comp.
  destruct (fs !! updates_dir) as [n|] eqn:HU; simpl.
  - split; [|by intros [? _]].
    destruct (listdir updates_dir fs) as [[e|names] fs0] eqn:Hl;
      apply listdir_state in Hl as ->; [done|].
    destruct (fs !! (updates_dir ++ [UNINSTALLED_DIR_NAME])); simpl.
    + by destruct (listdir _ fs) as [[e|names'] fs1].
    + destruct (makedirs false _ fs) as [[e|[]] fs1]; [done|].
      by destruct (listdir _ fs1) as [[e|names'] fs2].
  - split; [by intros [= <-]|by intros (_ & -> & _)].
Qed.

(** ** The dependency file *)

Section dependency_file.
Implicit Types (fs : file_system) (U : path) (dd : dependency_data).

Lemma save_dependencies_effect U dd fs r fs' :
  save_dependencies U dd fs = (r, fs') →
  (fs' = fs ∧ r ≠ inr tt) ∨
  (r = inr tt ∧ fs' = <[U ++ [DEPENDENCY_FILE] := File (Json dd)]> fs).
Proof.
  unfold save_dependencies. intros H.
  apply write_file_effect in H as [?|(? & _ & _ & ?)]; [by left|by right].
Qed.

Lemma load_dependencies_total U fs :
  fs !! (U ++ [DEPENDENCY_FILE]) ≠ Some Dir →
  ∃ dd, load_dependencies U fs = (inr dd, fs).
Proof.
  intros Hnd. unfold load_dependencies.
  destruct (fs !! (U ++ [DEPENDENCY_FILE])) as [[|[]]|];
    [by destruct Hnd|by eexists..].
Qed.
End dependency_file.

(** X9: update_dependencies, in an existing updates directory whose dependency
    file is absent or holds a dependency object, succeeds; after it,
    get_dependencies returns the recorded list for the update, every
    recorded dependency has the update among its dependents, the lists
    recorded for other updates are unchanged, and no other path than the
    dependency file is touched. *)
Theorem update_dependencies_recorded (updates_dir : path)
    (update_name : string) (dependencies : list string) (fs : file_system) :
  fs !! updates_dir = Some Dir →
  (fs !! (updates_dir ++ [DEPENDENCY_FILE]) = None ∨
   ∃ dd, fs !! (updates_dir ++ [DEPENDENCY_FILE]) = Some (File (Json dd))) →
  ∃ fs',
    update_dependencies updates_dir update_name dependencies fs
    = (inr tt, fs') ∧
    get_dependencies updates_dir update_name fs' = (inr dependencies, fs') ∧
    (∀ dep, dep ∈ dependencies →
       ∃ l, get_dependents updates_dir dep fs' = (inr l, fs') ∧
            update_name ∈ l) ∧
    (∀ other, other ≠ update_name →
       (get_dependencies updates_dir other fs').1 =
       (get_dependencies updates_dir other fs).1) ∧
    (∀ k, k ≠ updates_dir ++ [DEPENDENCY_FILE] → fs' !! k = fs !! k).
Proof.
  intros HU Hfile.
  assert (fs !! (updates_dir ++ [DEPENDENCY_FILE]) ≠ Some Dir) as Hnd.
  { destruct Hfile as [->|[dd0 ->]]; done. }
  destruct (load_dependencies_total updates_dir fs Hnd) as [dd Hload].
  destruct (update_dependencies_load updates_dir update_name dependencies
              fs dd Hload HU) as (fs' & Hupd & Hload').
  exists fs'. split; [done|].
  unfold get_dependencies, get_dependents. unfold_comp.
  rewrite Hload', Hload. simpl. split_and!.
  - rewrite dependencies_of_update. by rewrite decide_True.
  - intros dep Hdep. eexists. split; [done|].
    apply elem_of_dependents_of_update. by right.
  - intros other Hne. rewrite dependencies_of_update.
    by rewrite decide_False.
  - unfold update_dependencies in Hupd. unfold_comp. rewrite Hload in Hupd.
    apply save_dependencies_effect in Hupd as [[_ ?]|[_ ->]]; [done|].
    intros k Hk. by rewrite lookup_insert_ne.
Qed.

Lemma update_dependencies_recorded_witness :
  ∃ fs',
    update_dependencies ["u"] "A.zip" ["B.zip"; "C.zip"] example_fs
    = (inr tt, fs') ∧
    get_dependencies ["u"] "A.zip" fs' = (inr ["B.zip"; "C.zip"], fs') ∧
    (∀ dep, dep ∈ ["B.zip"; "C.zip"] →
       ∃ l, get_dependents ["u"] dep fs' = (inr l, fs') ∧ "A.zip" ∈ l) ∧
    (∀ other, other ≠ "A.zip" →
       (get_dependencies ["u"] other fs').1 =
       (get_dependencies ["u"] other example_fs).1) ∧
    (∀ k, k ≠ ["u"] ++ [DEPENDENCY_FILE] → fs' !! k = example_fs !! k).
Proof.
  apply (update_dependencies_recorded ["u"] "A.zip" ["B.zip"; "C.zip"]
           example_fs).
  - vm_compute. reflexivity.
  - left. vm_compute. reflexivity.
Defined.

(** ** What an application changes *)

Section apply_frame.
Implicit Types (fs tmp : file_system) (k p P rel : path).

Lemma dirname_prefix p : dirname p `prefix_of` p.
Proof.
  unfold dirname. destruct (decide (p = [])) as [->|Hne]; [done|].
  exists [List.last p EmptyString]. by apply app_removelast_last.
Qed.

Lemma dirname_length p : p ≠ [] → S (length (dirname p)) = length p.
Proof.
  intros Hne. unfold dirname.
  rewrite (app_removelast_last EmptyString Hne) at 2.
  rewrite length_app. simpl. lia.
Qed.

Lemma copy2_frame (n : string) c dst fs r fs' k :
  copy2 n c dst fs = (r, fs') → ¬ dst `prefix_of` k → fs' !! k = fs !! k.
Proof.
  intros Hcp Hk.
  apply copy2_effect in Hcp as [[-> _]|(q & _ & _ & _ & -> & ->)]; [done|].
  apply lookup_insert_ne. intros <-. apply Hk.
  destruct (isdir fs dst); [by apply prefix_app_r|done].
Qed.

(** A relation on file systems that every directory creation and every copy
    of the loop respects is respected by the loop. *)
Lemma apply_files_rel (R : relation file_system) zip P files cp ow fl fs res fs' :
  Reflexive R → Transitive R →
  (∀ rel fs0 r fs1,
     makedirs true (dirname (P ++ rel)) fs0 = (r, fs1) → R fs0 fs1) →
  (∀ rel c fs0 r fs1,
     copy2 (basename rel) c (P ++ rel) fs0 = (r, fs1) → R fs0 fs1) →
  apply_files zip P files cp ow fl fs = (res, fs') → R fs fs'.
Proof.
  intros Hrefl Htrans Hmk Hcp. revert cp ow fl fs.
  induction files as [|[rel c] files IH]; intros cp ow fl fs; simpl.
  { by intros [= <- <-]. }
  destruct (makedirs true (dirname (P ++ rel)) fs) as [[ex|[]] fs1] eqn:E1;
    apply Hmk in E1.
  { by intros [= <- <-]. }
  destruct (path_exists fs1 (P ++ rel));
    destruct (copy2 (basename rel) c (P ++ rel) fs1) as [[ex|[]] fs2] eqn:E2;
    apply Hcp in E2; intros Hrest%IH; etrans; eauto.
Qed.

Lemma apply_update_zip_rel (R : relation file_system) zip P fs :
  Reflexive R → Transitive R →
  (∀ rel fs0 r fs1,
     makedirs true (dirname (P ++ rel)) fs0 = (r, fs1) → R fs0 fs1) →
  (∀ rel c fs0 r fs1,
     copy2 (basename rel) c (P ++ rel) fs0 = (r, fs1) → R fs0 fs1) →
  R fs (apply_update_zip zip P fs).2.
Proof.
  intros Hrefl Htrans Hmk Hcp. unfold apply_update_zip.
  destruct (path_exists fs zip); simpl; [|done].
  destruct (path_exists fs P); simpl; [|done].
  unfold read_zip.
  destruct (fs !! zip) as [[|[bytes|entries|dd]]|]; simpl; try done.
  destruct (extractall entries) as [ex|tmp]; [by destruct ex|].
  destruct (apply_files zip P (walk_files tmp) [] [] [] fs)
    as [res fs'] eqn:Hrun. simpl. by eapply apply_files_rel.
Qed.

(** [inside P fs fs']: with [P] present in a well-formed [fs], [fs'] is
    well formed too, still has [P], and agrees with [fs] outside [P]. *)
Lemma inside_makedirs P rel fs r fs1 :
  makedirs true (dirname (P ++ rel)) fs = (r, fs1) →
  is_Some (fs !! P) → well_formed fs →
  is_Some (fs1 !! P) ∧ well_formed fs1 ∧
  ∀ k, ¬ P `prefix_of` k → fs1 !! k = fs !! k.
Proof.
  intros Hmk HP Hwf. split_and!.
  - apply makedirs_adds in Hmk. destruct (Hmk P) as [->|(_ & -> & _)]; done.
  - revert Hwf. eapply (makedirs_rev_preserves well_formed); [|exact Hmk].
    apply mkdir_well_formed.
  - intros k Hk. apply makedirs_adds in Hmk.
    destruct (Hmk k) as [E|(Hnone & _ & Hpre)]; [done|]. exfalso.
    assert (k `prefix_of` P ++ rel) as Hpre'.
    { etrans; [exact Hpre|apply dirname_prefix]. }
    destruct (prefix_weak_total k P (P ++ rel) Hpre') as [HkP|HPk];
      [by apply prefix_app_r| |done].
    destruct HP as [n HP].
    destruct (decide (k = P)) as [->|Hne]; [by apply Hk|].
    rewrite (well_formed_prefix fs P k n Hwf HP HkP Hne) in Hnone. done.
Qed.

Lemma inside_copy2 P rel c fs r fs1 :
  copy2 (basename rel) c (P ++ rel) fs = (r, fs1) →
  is_Some (fs !! P) → well_formed fs →
  is_Some (fs1 !! P) ∧ well_formed fs1 ∧
  ∀ k, ¬ P `prefix_of` k → fs1 !! k = fs !! k.
Proof.
  intros Hcp HP Hwf. split_and!.
  - pose proof Hcp as Hcp'.
    apply copy2_effect in Hcp' as [[-> _]|(q & _ & _ & _ & -> & _)]; [done|].
    destruct (decide (P = q)) as [<-|Hne];
      [by rewrite lookup_insert_eq|by rewrite lookup_insert_ne].
  - unfold copy2 in Hcp.
    destruct (isdir fs (P ++ rel)); eapply write_file_well_formed; eauto.
  - intros k Hk. eapply copy2_frame; [exact Hcp|].
    intros Hpre. apply Hk. etrans; [|exact Hpre]. by apply prefix_app_r.
Qed.

(** Well-formedness of a concrete file system is checked entry by entry. *)
Lemma well_formed_by_listing fs :
  forallb (λ kv, isdir fs (dirname kv.1)) (map_to_list fs) = true →
  well_formed fs.
Proof.
  intros H k n Hk. rewrite forallb_forall in H.
  specialize (H (k, n)). simpl in H. unfold isdir in H.
  destruct (fs !! dirname k) as [[|c]|]; [done|..];
    (discriminate H; apply list_elem_of_In; by apply elem_of_map_to_list).
Qed.
End apply_frame.

(** X10: apply_update_zip, run on a file system in which everything above an
    entry is a directory, never deletes and never turns a directory into a
    file or a file into a directory, leaves such a file system behind, and
    changes nothing outside the primary folder. *)
Theorem apply_update_zip_stays_in_primary_folder
    (update_zip_path primary_folder : path) (fs : file_system) :
  well_formed fs →
  well_formed (apply_update_zip update_zip_path primary_folder fs).2 ∧
  keeps_kinds fs (apply_update_zip update_zip_path primary_folder fs).2 ∧
  ∀ k, ¬ primary_folder `prefix_of` k →
       (apply_update_zip update_zip_path primary_folder fs).2 !! k = fs !! k.
Proof.
  intros Hwf.
  assert (Hkinds :
    keeps_kinds fs (apply_update_zip update_zip_path primary_folder fs).2).
  { apply (apply_update_zip_rel keeps_kinds).
    - intros x. apply keeps_kinds_refl.
    - intros x y z. apply keeps_kinds_trans.
    - intros rel fs0 r fs1 Hmk.
      eapply only_adds_dirs_keeps_kinds. by eapply makedirs_adds.
    - intros rel c fs0 r fs1 Hcp. unfold copy2 in Hcp.
      destruct (isdir fs0 (primary_folder ++ rel));
        by eapply write_file_keeps_kinds. }
  destruct (fs !! primary_folder) as [n|] eqn:HP.
  2:{ rewrite apply_update_zip_missing_primary;
        [|by unfold path_exists; rewrite HP].
      split_and!; [done|apply keeps_kinds_refl|done]. }
  pose (R := λ fs0 fs1 : file_system,
    is_Some (fs0 !! primary_folder) → well_formed fs0 →
    is_Some (fs1 !! primary_folder) ∧ well_formed fs1 ∧
    ∀ k, ¬ primary_folder `prefix_of` k → fs1 !! k = fs0 !! k).
  assert (HR : R fs (apply_update_zip update_zip_path primary_folder fs).2).
  { apply (apply_update_zip_rel R).
    - intros x ? ?. done.
    - intros x y z Hxy Hyz Hx Hwx.
      destruct (Hxy Hx Hwx) as (Hy & Hwy & Exy).
      destruct (Hyz Hy Hwy) as (Hz & Hwz & Eyz).
      split_and!; [done..|]. intros k Hk. by rewrite Eyz, Exy.
    - intros rel fs0 r fs1 Hmk ? ?. by eapply inside_makedirs.
    - intros rel c fs0 r fs1 Hcp ? ?. by eapply inside_copy2. }
  destruct HR as (_ & Hwf' & Hframe); [by eexists|done|]. done.
Qed.

Lemma apply_update_zip_stays_in_primary_folder_witness :
  well_formed (apply_update_zip ["u"; "mod.zip"] ["game"] example_fs).2 ∧
  keeps_kinds example_fs
    (apply_update_zip ["u"; "mod.zip"] ["game"] example_fs).2 ∧
  ∀ k, ¬ ["game"] `prefix_of` k →
       (apply_update_zip ["u"; "mod.zip"] ["game"] example_fs).2 !! k
       = example_fs !! k.
Proof.
  apply (apply_update_zip_stays_in_primary_folder
           ["u"; "mod.zip"] ["game"] example_fs).
  apply well_formed_by_listing. vm_compute. reflexivity.
Defined.

(** ** The result lists of an application *)

Section apply_lists.
Implicit Types (fs tmp : file_system) (k p P rel : path).

Lemma makedirs_target_untouched P rel rel0 fs r fs1 :
  ¬ rel0 `prefix_of` rel →
  makedirs true (dirname (P ++ rel)) fs = (r, fs1) →
  fs1 !! (P ++ rel0) = fs !! (P ++ rel0).
Proof.
  intros Hpre Hmk. apply makedirs_adds in Hmk.
  destruct (Hmk (P ++ rel0)) as [E|(_ & _ & Hp)]; [done|]. exfalso.
  apply Hpre. apply (prefix_app_inv P).
  etrans; [exact Hp|apply dirname_prefix].
Qed.

Lemma makedirs_self_untouched p fs r fs1 :
  p ≠ [] → makedirs true (dirname p) fs = (r, fs1) → fs1 !! p = fs !! p.
Proof.
  intros Hne Hmk. apply makedirs_adds in Hmk.
  destruct (Hmk p) as [E|(_ & _ & Hp)]; [done|]. exfalso.
  apply prefix_length in Hp. apply dirname_length in Hne. lia.
Qed.

Lemma copy2_target_untouched P rel rel0 c fs r fs1 :
  ¬ rel `prefix_of` rel0 →
  copy2 (basename rel) c (P ++ rel) fs = (r, fs1) →
  fs1 !! (P ++ rel0) = fs !! (P ++ rel0).
Proof.
  intros Hpre Hcp. eapply copy2_frame; [exact Hcp|].
  intros H. by apply Hpre, (prefix_app_inv P).
Qed.

(** The loop leaves alone the target of a file that is unrelated to every
    file it processes. *)
Lemma apply_files_untouched zip P files cp ow fl fs res fs' rel0 :
  (∀ rel c, (rel, c) ∈ files →
            ¬ rel `prefix_of` rel0 ∧ ¬ rel0 `prefix_of` rel) →
  apply_files zip P files cp ow fl fs = (res, fs') →
  fs' !! (P ++ rel0) = fs !! (P ++ rel0).
Proof.
  revert cp ow fl fs.
  induction files as [|[rel c] files IH]; intros cp ow fl fs Hun; simpl.
  { by intros [= <- <-]. }
  destruct (Hun rel c) as [Hun1 Hun2]; [left|].
  assert (Hun' : ∀ rel' c', (rel', c') ∈ files →
            ¬ rel' `prefix_of` rel0 ∧ ¬ rel0 `prefix_of` rel').
  { intros rel' c' Hin. apply (Hun rel' c'). by right. }
  destruct (makedirs true (dirname (P ++ rel)) fs) as [[ex|[]] fs1] eqn:E1;
    (apply (makedirs_target_untouched P rel rel0) in E1; [|done]).
  { by intros [= <- <-]. }
  destruct (path_exists fs1 (P ++ rel));
    destruct (copy2 (basename rel) c (P ++ rel) fs1) as [[ex|[]] fs2] eqn:E2;
    (apply (copy2_target_untouched P rel rel0) in E2; [|done]);
    intros Hrest; (apply IH in Hrest; [|done]); congruence.
Qed.

Lemma apply_files_lists zip P files cp ow fl fs cp' ow' fl' fs' :
  NoDup files.*1 →
  (∀ x, x ∈ files.*1 → x ≠ []) →
  (∀ x y, x ∈ files.*1 → y ∈ files.*1 → x `prefix_of` y → x = y) →
  apply_files zip P files cp ow fl fs = ((cp', ow', fl'), fs') →
  (∀ p, p ∈ cp' →
     p ∈ cp ∨ ∃ rel c, (rel, c) ∈ files ∧ p = P ++ rel ∧
                       fs !! p = None ∧ fs' !! p = Some (File c)) ∧
  (∀ p, p ∈ ow' →
     p ∈ ow ∨ ∃ rel c, (rel, c) ∈ files ∧ p = P ++ rel ∧
                       is_Some (fs !! p) ∧
                       (fs !! p ≠ Some Dir → fs' !! p = Some (File c))).
Proof.
  revert cp ow fl fs.
  induction files as [|[rel c] files IH]; intros cp ow fl fs Hnd Hne Hpf; simpl.
  { intros [= <- <- <- <-]. split; intros p Hp; by left. }
  csimpl in Hnd; csimpl in Hne; csimpl in Hpf.
  apply NoDup_cons in Hnd as [Hrel Hnd].
  assert (Hne' : ∀ x, x ∈ files.*1 → x ≠ []).
  { intros x Hx. apply Hne. by right. }
  assert (Hpf' : ∀ x y, x ∈ files.*1 → y ∈ files.*1 → x `prefix_of` y → x = y).
  { intros x y Hx Hy. apply Hpf; by right. }
  assert (Hun : ∀ rel' c', (rel', c') ∈ files →
            ¬ rel' `prefix_of` rel ∧ ¬ rel `prefix_of` rel').
  { intros rel' c' Hin.
    assert (rel' ∈ files.*1) as Hin'.
    { apply list_elem_of_fmap. by exists (rel', c'). }
    split; intros Hp.
    - apply Hpf in Hp; [|by right|left]. by subst.
    - apply Hpf in Hp; [|left|by right]. by subst. }
  assert (Ht : P ++ rel ≠ []).
  { intros [_ ?]%app_eq_nil. by apply (Hne rel); [left|]. }
  destruct (makedirs true (dirname (P ++ rel)) fs) as [[ex|[]] fs1] eqn:E1.
  { intros [= <- <- <- <-]. split; intros p Hp; by left. }
  pose proof (makedirs_self_untouched _ _ _ _ Ht E1) as Hself.
  (* what one iteration followed by the rest of the loop gives *)
  assert (Htail : ∀ r fs2 cp0 ow0 fl0,
    copy2 (basename rel) c (P ++ rel) fs1 = (r, fs2) →
    apply_files zip P files cp0 ow0 fl0 fs2 = ((cp', ow', fl'), fs') →
    fs' !! (P ++ rel) = fs2 !! (P ++ rel) ∧
    (∀ p, p ∈ cp' →
       p ∈ cp0 ∨ ∃ rel' c', (rel', c') ∈ (rel, c) :: files ∧ p = P ++ rel' ∧
                            fs !! p = None ∧ fs' !! p = Some (File c')) ∧
    (∀ p, p ∈ ow' →
       p ∈ ow0 ∨ ∃ rel' c', (rel', c') ∈ (rel, c) :: files ∧ p = P ++ rel' ∧
                            is_Some (fs !! p) ∧
                            (fs !! p ≠ Some Dir → fs' !! p = Some (File c')))).
  { intros r fs2 cp0 ow0 fl0 Hcp Hrest.
    split; [by eapply apply_files_untouched|].
    destruct (IH _ _ _ _ Hnd Hne' Hpf' Hrest) as [Hc Ho].
    assert (Hsame : ∀ rel' c', (rel', c') ∈ files →
              fs2 !! (P ++ rel') = fs !! (P ++ rel')).
    { intros rel' c' Hin. destruct (Hun rel' c' Hin) as [H1 H2].
      rewrite (copy2_target_untouched P rel rel' c fs1 r fs2) by done.
      by rewrite (makedirs_target_untouched P rel rel' fs (inr tt) fs1). }
    split; intros p Hp.
    - destruct (Hc p Hp) as [?|(rel' & c' & Hin & -> & Hn & Hf)]; [by left|].
      right. exists rel', c'. split_and!; [by right|done| |done].
      by rewrite <- (Hsame rel' c').
    - destruct (Ho p Hp) as [?|(rel' & c' & Hin & -> & Hs & Hf)]; [by left|].
      right. exists rel', c'. rewrite <- (Hsame rel' c') by done.
      split_and!; [by right|done..]. }
  unfold path_exists.
  destruct (fs1 !! (P ++ rel)) as [n|] eqn:Hex.
  - destruct (copy2 (basename rel) c (P ++ rel) fs1) as [[ex|[]] fs2] eqn:E2;
      intros Hrest; destruct (Htail _ _ _ _ _ eq_refl Hrest) as (Hkeep & Hc & Ho).
    + split; [exact Hc|exact Ho].
    + split; [exact Hc|]. intros p Hp.
      destruct (Ho p Hp) as [[?| ->%list_elem_of_singleton]%elem_of_app|?];
        [by left| |by right].
      right. exists rel, c. rewrite <- Hself.
      split_and!; [left|done|by eexists|].
      intros Hnd'. rewrite Hkeep.
      apply copy2_effect in E2 as [[_ ?]|(q & _ & _ & _ & -> & ->)]; [done|].
      unfold isdir. rewrite Hex. destruct n as [|c0]; [done|].
      by rewrite lookup_insert_eq.
  - destruct (copy2 (basename rel) c (P ++ rel) fs1) as [[ex|[]] fs2] eqn:E2;
      intros Hrest; destruct (Htail _ _ _ _ _ eq_refl Hrest) as (Hkeep & Hc & Ho).
    + split; [exact Hc|exact Ho].
    + split; [|exact Ho]. intros p Hp.
      destruct (Hc p Hp) as [[?| ->%list_elem_of_singleton]%elem_of_app|?];
        [by left| |by right].
      right. exists rel, c. rewrite <- Hself.
      split_and!; [left|done..|].
      rewrite Hkeep.
      apply copy2_effect in E2 as [[_ ?]|(q & _ & _ & _ & -> & ->)]; [done|].
      unfold isdir. rewrite Hex. by rewrite lookup_insert_eq.
Qed.

(** Every regular file of the extracted tree is a file member of the
    archive. *)
Lemma extract_member_files e tmp r tmp' rel c :
  extract_member e tmp = (r, tmp') →
  tmp' !! rel = Some (File c) →
  tmp !! rel = Some (File c) ∨
  (ze_is_dir e = false ∧ sanitize (ze_name e) = rel ∧ ze_data e = c).
Proof.
  unfold extract_member, mbind, comp_mbind, comp_bind.
  set (targetpath := sanitize (ze_name e)).
  destruct (if path_exists tmp (dirname targetpath) then (inr tt, tmp)
            else makedirs false (dirname targetpath) tmp)
    as [r1 tmp1] eqn:Hup.
  assert (only_adds_dirs (dirname targetpath) tmp tmp1) as Hadd.
  { destruct (path_exists tmp (dirname targetpath)).
    - injection Hup as <- <-. apply only_adds_dirs_refl.
    - by eapply makedirs_adds. }
  assert (Hback : tmp1 !! rel = Some (File c) → tmp !! rel = Some (File c)).
  { intros H1. destruct (Hadd rel) as [E|(_ & E & _)]; congruence. }
  destruct r1 as [ex|[]].
  { intros [= <- <-] Hf. left. by apply Hback. }
  destruct (ze_is_dir e) eqn:Hdir.
  - destruct (isdir tmp1 targetpath).
    + intros [= <- <-] Hf. left. by apply Hback.
    + intros Hm%mkdir_adds Hf. left. apply Hback.
      destruct (Hm rel) as [E|(_ & E & _)]; congruence.
  - intros Hw Hf.
    apply write_file_effect in Hw as [[-> _]|(_ & _ & _ & ->)];
      [left; by apply Hback|].
    destruct (decide (rel = targetpath)) as [->|Hne].
    + rewrite lookup_insert_eq in Hf. injection Hf as <-. by right.
    + rewrite lookup_insert_ne in Hf by done. left. by apply Hback.
Qed.

Lemma extract_members_files entries tmp0 r tmp rel c :
  for_each entries extract_member tmp0 = (r, tmp) →
  tmp !! rel = Some (File c) →
  tmp0 !! rel = Some (File c) ∨
  ∃ e, e ∈ entries ∧ ze_is_dir e = false ∧ sanitize (ze_name e) = rel ∧
       ze_data e = c.
Proof.
  revert tmp0. induction entries as [|e entries IH]; intros tmp0; simpl.
  { intros [= <- <-]. by left. }
  unfold mbind, comp_mbind, comp_bind.
  destruct (extract_member e tmp0) as [[ex|[]] tmp1] eqn:E1.
  - intros [= <- <-] Hf.
    destruct (extract_member_files _ _ _ _ _ _ E1 Hf) as [?|(? & ? & ?)];
      [by left|right]. exists e. split; [left|done].
  - intros Hrest Hf.
    destruct (IH _ Hrest Hf) as [H1|(e' & Hin & ?)].
    + destruct (extract_member_files _ _ _ _ _ _ E1 H1) as [?|(? & ? & ?)];
        [by left|right]. exists e. split; [left|done].
    + right. exists e'. split; [by right|done].
Qed.

Lemma walk_files_NoDup tmp : NoDup (walk_files tmp).*1.
Proof.
  apply NoDup_fmap_fst.
  - intros rel c1 c2 H1%elem_of_walk_files H2%elem_of_walk_files. congruence.
  - unfold walk_files. apply NoDup_omap_inj; [|apply NoDup_map_to_list].
    intros [k1 n1] [k2 n2] [rel c] _ _. simpl.
    destruct n1, n2; try done. congruence.
Qed.
End apply_lists.

(** X11: apply_update_zip reports faithfully: every path it returns as copied is
    the target of a file member of the archive (the primary folder followed
    by the member's name as the extraction sanitises it), did not exist
    before and holds that member's content afterwards; every path it returns
    as overwritten is the target of a file member, existed before and,
    unless it was a directory, holds that member's content afterwards. *)
Theorem apply_update_zip_result_lists
    (update_zip_path primary_folder : path) (fs fs' : file_system)
    (entries : list zip_entry) (copied_files overwritten_files : list path)
    (failed_files : list (path * string)) :
  fs !! update_zip_path = Some (File (Zip entries)) →
  apply_update_zip update_zip_path primary_folder fs =
    ((copied_files, overwritten_files, failed_files), fs') →
  (∀ p, p ∈ copied_files →
     ∃ e, e ∈ entries ∧ ze_is_dir e = false ∧
          p = primary_folder ++ sanitize (ze_name e) ∧
          fs !! p = None ∧ fs' !! p = Some (File (ze_data e))) ∧
  (∀ p, p ∈ overwritten_files →
     ∃ e, e ∈ entries ∧ ze_is_dir e = false ∧
          p = primary_folder ++ sanitize (ze_name e) ∧
          is_Some (fs !! p) ∧
          (fs !! p ≠ Some Dir → fs' !! p = Some (File (ze_data e)))).
Proof.
  intros Hzip. unfold apply_update_zip, path_exists, read_zip. rewrite Hzip.
  simpl. destruct (fs !! primary_folder) as [n|]; simpl.
  2:{ intros [= <- <- <- <-]. split; intros p Hp; inversion Hp. }
  destruct (extractall entries) as [ex|tmp] eqn:Hex.
  { destruct ex; intros [= <- <- <- <-]; split; intros p Hp; inversion Hp. }
  intros Hrun.
  destruct (extractall_spec _ _ Hex) as (Hwf & Hroot & _).
  assert (Hsrc : ∀ rel c, (rel, c) ∈ walk_files tmp →
    ∃ e, e ∈ entries ∧ ze_is_dir e = false ∧ sanitize (ze_name e) = rel ∧
         ze_data e = c).
  { intros rel c Hin%elem_of_walk_files. unfold extractall in Hex.
    destruct (for_each entries extract_member {[ [] := Dir ]})
      as [[ex|[]] tmp'] eqn:Hfe; [done|]. injection Hex as ->.
    destruct (extract_members_files _ _ _ _ _ _ Hfe Hin) as [H0|?]; [|done].
    apply lookup_singleton_Some in H0 as [_ ?]. done. }
  apply apply_files_lists in Hrun as [Hc Ho].
  - split; intros p Hp.
    + destruct (Hc p Hp) as [H0|(rel & c & Hin & -> & ? & ?)]; [inversion H0|].
      destruct (Hsrc rel c Hin) as (e & ? & ? & <- & <-). by exists e.
    + destruct (Ho p Hp) as [H0|(rel & c & Hin & -> & ? & ?)]; [inversion H0|].
      destruct (Hsrc rel c Hin) as (e & ? & ? & <- & <-). by exists e.
  - apply walk_files_NoDup.
  - intros x [[rel c] [E Hin%elem_of_walk_files]]%list_elem_of_fmap ->.
    simpl in E. subst rel. congruence.
  - intros x y [[rx cx] [Ex Hx%elem_of_walk_files]]%list_elem_of_fmap
                [[ry cy] [Ey Hy%elem_of_walk_files]]%list_elem_of_fmap Hpre.
    simpl in Ex, Ey. subst x y. destruct (decide (rx = ry)) as [|Hne]; [done|].
    rewrite (well_formed_prefix tmp ry rx _ Hwf Hy Hpre Hne) in Hx. done.
Qed.

Lemma apply_update_zip_result_lists_witness :
  (∀ p, p ∈ [["game"; "textures"; "a.png"]] →
     ∃ e, e ∈ example_entries ∧ ze_is_dir e = false ∧
          p = ["game"] ++ sanitize (ze_name e) ∧
          example_fs !! p = None ∧
          (apply_update_zip ["u"; "mod.zip"] ["game"] example_fs).2 !! p
          = Some (File (ze_data e))) ∧
  (∀ p, p ∈ [["game"; "b.txt"]] →
     ∃ e, e ∈ example_entries ∧ ze_is_dir e = false ∧
          p = ["game"] ++ sanitize (ze_name e) ∧
          is_Some (example_fs !! p) ∧
          (example_fs !! p ≠ Some Dir →
           (apply_update_zip ["u"; "mod.zip"] ["game"] example_fs).2 !! p
           = Some (File (ze_data e)))).
Proof.
  apply (apply_update_zip_result_lists ["u"; "mod.zip"] ["game"] example_fs
           (apply_update_zip ["u"; "mod.zip"] ["game"] example_fs).2
           example_entries _ _ []).
  - vm_compute. reflexivity.
  - vm_compute. reflexivity.
Defined.

(** ** What a removal changes *)

Section analyze_lists.
Implicit Types (fs : file_system) (k p P : path).

Lemma analyze_entries_subseteq P l rm nf fl fs res fs' :
  analyze_entries P l rm nf fl fs = (res, fs') → fs' ⊆ fs.
Proof. intros H. eapply only_deletes_subseteq, analyze_entries_deletes, H. Qed.

Lemma analyze_entries_lists P l rm nf fl fs rm' nf' fl' fs' :
  analyze_entries P l rm nf fl fs = ((rm', nf', fl'), fs') →
  (∀ p, p ∈ rm' →
     p ∈ rm ∨ ∃ e, e ∈ l ∧ ze_is_dir e = false ∧ p = P ++ ze_name e ∧
                   (∃ c, fs !! p = Some (File c)) ∧ fs' !! p = None) ∧
  (∀ p, p ∈ nf' →
     p ∈ nf ∨ ∃ e, e ∈ l ∧ ze_is_dir e = false ∧ p = P ++ ze_name e ∧
                   fs' !! p = None).
Proof.
  revert rm nf fl fs.
  induction l as [|e l IH]; intros rm nf fl fs; simpl.
  { intros [= <- <- <- <-]. split; intros p Hp; by left. }
  (* the rest of the loop, run from a state with fewer entries *)
  assert (Htail : ∀ rm0 nf0 fl0 fs1,
    fs1 ⊆ fs →
    analyze_entries P l rm0 nf0 fl0 fs1 = ((rm', nf', fl'), fs') →
    fs' ⊆ fs1 ∧
    (∀ p, p ∈ rm' →
       p ∈ rm0 ∨ ∃ e', e' ∈ e :: l ∧ ze_is_dir e' = false ∧
                       p = P ++ ze_name e' ∧
                       (∃ c, fs !! p = Some (File c)) ∧ fs' !! p = None) ∧
    (∀ p, p ∈ nf' →
       p ∈ nf0 ∨ ∃ e', e' ∈ e :: l ∧ ze_is_dir e' = false ∧
                       p = P ++ ze_name e' ∧ fs' !! p = None)).
  { intros rm0 nf0 fl0 fs1 Hsub Hrest.
    split; [by eapply analyze_entries_subseteq|].
    destruct (IH _ _ _ _ Hrest) as [Hr Hn]. split; intros p Hp.
    - destruct (Hr p Hp) as [?|(e' & ? & ? & ? & [c Hc] & ?)]; [by left|].
      right. exists e'. split_and!; [by right|done..| |done].
      exists c. by eapply lookup_weaken.
    - destruct (Hn p Hp) as [?|(e' & ? & ? & ? & ?)]; [by left|].
      right. exists e'. split_and!; [by right|done..]. }
  destruct (ze_is_dir e) eqn:Hdir.
  { intros Hrest. by destruct (Htail _ _ _ _ (reflexivity fs) Hrest) as [_ ?]. }
  unfold path_exists.
  destruct (fs !! (P ++ ze_name e)) as [n|] eqn:Hl.
  - destruct (remove (P ++ ze_name e) fs) as [[ex|[]] fs1] eqn:Hrm.
    + apply remove_effect in Hrm as [(-> & _)|(? & _)]; [|done].
      intros Hrest.
      by destruct (Htail _ _ _ _ (reflexivity fs) Hrest) as [_ ?].
    + pose proof Hrm as Hrm'.
      apply remove_effect in Hrm' as [(_ & ? & _)|(_ & [c Hc] & ->)]; [done|].
      assert (Hstep : ∀ r2 fs2 fl0,
        prune_empty_dirs P (rev (dirname (P ++ ze_name e)))
                         (delete (P ++ ze_name e) fs) = (r2, fs2) →
        analyze_entries P l (rm ++ [P ++ ze_name e]) nf fl0 fs2
          = ((rm', nf', fl'), fs') →
        (∀ p, p ∈ rm' →
           p ∈ rm ∨ ∃ e', e' ∈ e :: l ∧ ze_is_dir e' = false ∧
                          p = P ++ ze_name e' ∧
                          (∃ c, fs !! p = Some (File c)) ∧ fs' !! p = None) ∧
        (∀ p, p ∈ nf' →
           p ∈ nf ∨ ∃ e', e' ∈ e :: l ∧ ze_is_dir e' = false ∧
                          p = P ++ ze_name e' ∧ fs' !! p = None)).
      { intros r2 fs2 fl0 Hpr Hrest.
        assert (fs2 ⊆ delete (P ++ ze_name e) fs) as Hsub2.
        { apply map_subseteq_spec. intros k v Hk.
          destruct (prune_empty_dirs_effect _ _ _ _ _ Hpr k) as [E|[_ E]];
            congruence. }
        assert (fs2 ⊆ fs) as Hsub.
        { etrans; [exact Hsub2|apply delete_subseteq]. }
        destruct (Htail _ _ _ _ Hsub Hrest) as (Hsub' & Hr & Hn).
        split; [|done]. intros p Hp.
        destruct (Hr p Hp) as [[?| ->%list_elem_of_singleton]%elem_of_app|?];
          [by left| |by right].
        right. exists e. split_and!; [left|done..|by exists c|].
        eapply lookup_weaken_None; [|exact Hsub'].
        eapply lookup_weaken_None; [|exact Hsub2].
        apply lookup_delete_eq. }
      destruct (prune_empty_dirs P (rev (dirname (P ++ ze_name e)))
                                 (delete (P ++ ze_name e) fs))
        as [[ex|[]] fs2] eqn:Hpr; intros Hrest; by eapply Hstep.
  - intros Hrest.
    destruct (Htail _ _ _ _ (reflexivity fs) Hrest) as (Hsub' & Hr & Hn).
    split; [done|]. intros p Hp.
    destruct (Hn p Hp) as [[?| ->%list_elem_of_singleton]%elem_of_app|?];
      [by left| |by right].
    right. exists e. split_and!; [left|done..|].
    by eapply lookup_weaken_None.
Qed.

(** After the loop no target of a file member is a regular file. *)
Lemma analyze_entries_no_file_left P l rm nf fl fs res fs' e c :
  analyze_entries P l rm nf fl fs = (res, fs') →
  e ∈ l → ze_is_dir e = false →
  fs' !! (P ++ ze_name e) ≠ Some (File c).
Proof.
  intros Hrun Hin Hfile Hc.
  destruct (fs !! (P ++ ze_name e)) as [[|c0]|] eqn:Hd.
  - apply analyze_entries_subseteq in Hrun.
    pose proof (lookup_weaken _ _ _ _ Hc Hrun). congruence.
  - rewrite (analyze_entries_removes _ _ _ _ _ _ _ _ _ Hrun Hin Hfile) in Hc;
      [done|by rewrite Hd].
  - rewrite (analyze_entries_removes _ _ _ _ _ _ _ _ _ Hrun Hin Hfile) in Hc;
      [done|by rewrite Hd].
Qed.

(** Where no target of a file member is a regular file, the loop removes
    nothing and changes nothing. *)
Lemma analyze_entries_nothing_left P l rm nf fl fs :
  (∀ e c, e ∈ l → ze_is_dir e = false →
          fs !! (P ++ ze_name e) ≠ Some (File c)) →
  ∃ nf' fl', analyze_entries P l rm nf fl fs = ((rm, nf', fl'), fs).
Proof.
  revert nf fl. induction l as [|e l IH]; intros nf fl Hno; simpl.
  { by eexists _, _. }
  assert (Hno' : ∀ e' c, e' ∈ l → ze_is_dir e' = false →
                         fs !! (P ++ ze_name e') ≠ Some (File c)).
  { intros e' c Hin. apply Hno. by right. }
  destruct (ze_is_dir e) eqn:Hdir; [by apply IH|].
  unfold path_exists, remove.
  destruct (fs !! (P ++ ze_name e)) as [[|c]|] eqn:Hl.
  - by apply IH.
  - destruct (Hno e c); [left|done..].
  - by apply IH.
Qed.
End analyze_lists.

(** X13: analyze_update_zip reports faithfully: every path it returns as removed
    is the target of a file member of the archive, was a regular file before
    and is gone afterwards; every path it returns as not found is the target
    of a file member and does not exist afterwards. *)
Theorem analyze_update_zip_result_lists
    (update_zip_path primary_folder : path) (fs fs' : file_system)
    (entries : list zip_entry) (removed_files not_found_files : list path)
    (failed_to_remove : list (path * string)) :
  fs !! update_zip_path = Some (File (Zip entries)) →
  analyze_update_zip update_zip_path primary_folder fs =
    ((removed_files, not_found_files, failed_to_remove), fs') →
  (∀ p, p ∈ removed_files →
     ∃ e, e ∈ entries ∧ ze_is_dir e = false ∧
          p = primary_folder ++ ze_name e ∧
          (∃ c, fs !! p = Some (File c)) ∧ fs' !! p = None) ∧
  (∀ p, p ∈ not_found_files →
     ∃ e, e ∈ entries ∧ ze_is_dir e = false ∧
          p = primary_folder ++ ze_name e ∧ fs' !! p = None).
Proof.
  intros Hzip. unfold analyze_update_zip, path_exists, read_zip. rewrite Hzip.
  simpl. destruct (fs !! primary_folder) as [n|]; simpl.
  2:{ intros [= <- <- <- <-]. split; intros p Hp; inversion Hp. }
  intros [Hr Hn]%analyze_entries_lists. split; intros p Hp.
  - destruct (Hr p Hp) as [H0|?]; [inversion H0|done].
  - destruct (Hn p Hp) as [H0|?]; [inversion H0|done].
Qed.

Lemma analyze_update_zip_result_lists_witness :
  (∀ p, p ∈ [["game"; "a.txt"]] →
     ∃ e, e ∈ [ZipEntry ["a.txt"] false (Raw "a")] ∧ ze_is_dir e = false ∧
          p = ["game"] ++ ze_name e ∧
          (∃ c, example_dependent_fs !! p = Some (File c)) ∧
          (analyze_update_zip ["u"; "_installed_"; "A.zip"] ["game"]
             example_dependent_fs).2 !! p = None) ∧
  (∀ p, p ∈ @nil path →
     ∃ e, e ∈ [ZipEntry ["a.txt"] false (Raw "a")] ∧ ze_is_dir e = false ∧
          p = ["game"] ++ ze_name e ∧
          (analyze_update_zip ["u"; "_installed_"; "A.zip"] ["game"]
             example_dependent_fs).2 !! p = None).
Proof.
  apply (analyze_update_zip_result_lists
           ["u"; "_installed_"; "A.zip"] ["game"] example_dependent_fs
           (analyze_update_zip ["u"; "_installed_"; "A.zip"] ["game"]
              example_dependent_fs).2
           [ZipEntry ["a.txt"] false (Raw "a")] _ _ []).
  - vm_compute. reflexivity.
  - vm_compute. reflexivity.
Defined.

(** X14: Running analyze_update_zip a second time on the same archive removes
    nothing and changes nothing, whatever the first run did. *)
Theorem analyze_update_zip_twice
    (update_zip_path primary_folder : path) (fs : file_system) :
  let fs1 := (analyze_update_zip update_zip_path primary_folder fs).2 in
  (analyze_update_zip update_zip_path primary_folder fs1).1.1.1 = [] ∧
  (analyze_update_zip update_zip_path primary_folder fs1).2 = fs1.
Proof.
  intros fs1.
  assert (Hfast : ∀ fs0,
    (∀ entries, fs0 !! update_zip_path = Some (File (Zip entries)) →
                is_Some (fs0 !! primary_folder) →
                ∀ e c, e ∈ entries → ze_is_dir e = false →
                  fs0 !! (primary_folder ++ ze_name e) ≠ Some (File c)) →
    (analyze_update_zip update_zip_path primary_folder fs0).1.1.1 = [] ∧
    (analyze_update_zip update_zip_path primary_folder fs0).2 = fs0).
  { intros fs0 Hno. unfold analyze_update_zip, path_exists, read_zip.
    destruct (fs0 !! update_zip_path) as [[|[bytes|entries|dd]]|] eqn:Hz;
      simpl; try done;
      destruct (fs0 !! primary_folder) as [n|] eqn:HP; simpl; try done.
    destruct (analyze_entries_nothing_left primary_folder entries [] [] [] fs0)
      as (nf' & fl' & ->); [|done].
    apply Hno; [done|by eexists]. }
  apply Hfast. intros entries Hz1 HP1 e c Hin Hfile.
  assert (Hsub : fs1 ⊆ fs) by apply analyze_update_zip_subseteq.
  pose proof (lookup_weaken _ _ _ _ Hz1 Hsub) as Hz.
  destruct HP1 as [n HP1]. pose proof (lookup_weaken _ _ _ _ HP1 Hsub) as HP.
  subst fs1. revert Hz1 HP1 Hsub.
  unfold analyze_update_zip, path_exists, read_zip. rewrite Hz, HP. simpl.
  destruct (analyze_entries primary_folder entries [] [] [] fs)
    as [res fs'] eqn:Hrun. simpl. intros _ _ _.
  by eapply analyze_entries_no_file_left.
Qed.

(** ** Archive names after a relocation *)

Section archive_names.
Implicit Types (a b s base ext : string).

Lemma rev_app_append a b acc :
  String.rev_app (a +:+ b) acc = String.rev_app b (String.rev_app a acc).
Proof.
  revert acc. induction a as [|x a IH]; intros acc; [done|].
  change (String.rev_app (a +:+ b) (String x acc) =
          String.rev_app b (String.rev_app a (String x acc))).
  apply IH.
Qed.

Lemma rev_app_acc s acc : String.rev_app s acc = String.rev s +:+ acc.
Proof.
  unfold String.rev. revert acc.
  induction s as [|x s IH]; intros acc; [done|]. simpl.
  rewrite (IH (String x acc)), (IH (String x EmptyString)).
  by rewrite string_app_assoc.
Qed.

Lemma string_prefix_app a b : String.prefix a (a +:+ b) = true.
Proof.
  induction a as [|x a IH]; [by destruct b|].
  change (String.prefix (String x a) (String x (a +:+ b)) = true).
  simpl. by destruct (ascii_dec x x).
Qed.

Lemma endswith_app a suffix : endswith (a +:+ suffix) suffix = true.
Proof.
  unfold endswith. unfold String.rev at 2.
  rewrite rev_app_append, rev_app_acc. apply string_prefix_app.
Qed.

Lemma split_last_dot_zip base :
  split_last_dot (base +:+ ".zip") = Some (base, ".zip").
Proof.
  induction base as [|x base IH]; [done|].
  change (split_last_dot (String x (base +:+ ".zip")) =
          Some (String x base, ".zip")).
  simpl. by rewrite IH.
Qed.

Lemma splitext_zip base :
  all_dots base = false → splitext (base +:+ ".zip") = (base, ".zip").
Proof. intros Hd. unfold splitext. by rewrite split_last_dot_zip, Hd. Qed.

Lemma suffixed_name_zip base (i : nat) :
  endswith (suffixed_name base ".zip" i) ".zip" = true.
Proof.
  unfold suffixed_name.
  rewrite <- (string_app_assoc "_" (pretty i) ".zip").
  rewrite <- (string_app_assoc base ("_" +:+ pretty i) ".zip").
  apply endswith_app.
Qed.

Lemma installed_target_zip (installed_dir : path) base (fs : file_system) :
  all_dots base = false →
  ∃ n, installed_target installed_dir (base +:+ ".zip") fs
       = installed_dir ++ [n] ∧
       endswith n ".zip" = true ∧
       (fs !! (installed_dir ++ [base +:+ ".zip"]) = None →
        n = base +:+ ".zip").
Proof.
  intros Hd. unfold installed_target, path_exists.
  destruct (fs !! (installed_dir ++ [base +:+ ".zip"])) as [n0|] eqn:Hl.
  - rewrite (splitext_zip base Hd). eexists. split; [done|].
    split; [apply suffixed_name_zip|done].
  - eexists. split; [done|]. split; [apply endswith_app|done].
Qed.
End archive_names.

(** X15: An archive whose name ends with ".zip" after a stem that is not made of
    dots only is, once install has relocated it, listed by
    get_installed_updates, also when a collision gave it a new name; without
    a collision it keeps its name. *)
Theorem relocated_archive_is_listed (fs : file_system)
    (updates_dir source_path : path) (base : string) (c : content)
    (copied overwritten : list path) :
  all_dots base = false →
  fs !! source_path = Some (File c) →
  fs !! (updates_dir ++ [INSTALLED_DIR_NAME]) = Some Dir →
  (0 < length copied + length overwritten)%nat →
  let fs' := (relocate_installed (updates_dir ++ [INSTALLED_DIR_NAME])
                (base +:+ ".zip") source_path copied overwritten fs).2 in
  ∃ f zip_files,
    get_installed_updates updates_dir fs' = (inr zip_files, fs') ∧
    (f, updates_dir ++ [INSTALLED_DIR_NAME; f]) ∈ zip_files ∧
    fs' !! (updates_dir ++ [INSTALLED_DIR_NAME; f]) = Some (File c) ∧
    (fs !! (updates_dir ++ [INSTALLED_DIR_NAME; base +:+ ".zip"]) = None →
     f = base +:+ ".zip").
Proof.
  intros Hd Hsrc Hinst Hpos fs'. subst fs'.
  rewrite (relocate_installed_open _ _ _ _ _ _ c Hsrc Hinst Hpos). simpl.
  destruct (installed_target_zip (updates_dir ++ [INSTALLED_DIR_NAME]) base
              fs Hd) as (f & -> & Hzip & Hsame).
  rewrite path_snoc2 in *.
  set (fs' := <[updates_dir ++ [INSTALLED_DIR_NAME; f] := File c]>
                (delete source_path fs)).
  assert (Hinst' : fs' !! (updates_dir ++ [INSTALLED_DIR_NAME]) = Some Dir).
  { subst fs'. rewrite lookup_insert_ne.
    - rewrite lookup_delete_ne; [done|]. intros ->. congruence.
    - apply path_length_neq. rewrite !length_app. simpl. lia. }
  assert (Hf : fs' !! (updates_dir ++ [INSTALLED_DIR_NAME; f]) = Some (File c)).
  { subst fs'. by rewrite lookup_insert_eq. }
  exists f. eexists. split; [by apply get_installed_updates_listing|].
  split_and!; [|done|done].
  apply zip_files_in_spec. rewrite elem_of_children, isfile_spec, path_snoc2.
  split_and!; [by eexists|done..|by eexists].
Qed.

Lemma relocated_archive_is_listed_witness :
  let fs' := (relocate_installed (["u"] ++ [INSTALLED_DIR_NAME])
                ("A" +:+ ".zip") ["u"; "A.zip"] [["game"; "b.txt"]] []
                example_collision_fs).2 in
  ∃ f zip_files,
    get_installed_updates ["u"] fs' = (inr zip_files, fs') ∧
    (f, ["u"] ++ [INSTALLED_DIR_NAME; f]) ∈ zip_files ∧
    fs' !! (["u"] ++ [INSTALLED_DIR_NAME; f])
    = Some (File (Zip example_entries)) ∧
    (example_collision_fs !! (["u"] ++ [INSTALLED_DIR_NAME; "A" +:+ ".zip"])
     = None → f = "A" +:+ ".zip").
Proof.
  apply (relocated_archive_is_listed example_collision_fs ["u"] ["u"; "A.zip"]
           "A" (Zip example_entries) [["game"; "b.txt"]] []).
  - vm_compute. reflexivity.
  - vm_compute. reflexivity.
  - vm_compute. reflexivity.
  - simpl. lia.
Defined.

(** An archive named ".zip" that collides in the installed bucket is renamed
    ".zip_1" and then no longer listed as installed. *)
Example dotfile_archive_drops_out :
  let fs := <[ ["u"; "_installed_"; ".zip"] := File (Zip []) ]>
              (<[ ["u"; ".zip"] := File (Zip example_entries) ]> example_fs) in
  let fs' := (relocate_installed ["u"; "_installed_"] ".zip" ["u"; ".zip"]
                [["game"; "b.txt"]] [] fs).2 in
  fs' !! ["u"; "_installed_"; ".zip_1"] = Some (File (Zip example_entries)) ∧
  (get_installed_updates ["u"] fs').1
  = inr [(".zip", ["u"; "_installed_"; ".zip"])].
Proof. vm_compute. split; reflexivity. Qed.

(** ** Declined confirmations *)

Section declined.
Implicit Types (fs : file_system) (w : world) (P U : path).

Lemma input_answer_declined w r w' :
  (∀ line, head (w_stdin w) = Some line → lower (strip line) ≠ "y") →
  input_answer w = (r, w') →
  w_fs w' = w_fs w ∧ r ≠ inr "y".
Proof.
  intros Hno. unfold input_answer, input. unfold_comp.
  destruct (w_stdin w) as [|line rest] eqn:Hin.
  - by intros [= <- <-].
  - intros [= <- <-]. split; [done|]. intros [= E]. by apply (Hno line).
Qed.

End declined.

(** An answer typed with a no-break space (U+00A0, the bytes 194 and 160)
    around the letter is the answer "y": [str.strip] removes it. *)
Example answer_with_no_break_space :
  let nbsp := String "194" (String "160" EmptyString) in
  input_answer (World ∅ [nbsp +:+ "Y" +:+ nbsp +:+ " "])
  = (inr "y", World ∅ []).
Proof. vm_compute. reflexivity. Qed.

(** X16: remove_all_updates removes nothing unless the answer to its confirmation
    is "y": with any other next input line, or none, the only change it can
    make is the creation of the installed bucket. *)
Theorem remove_all_updates_declined (primary_folder updates_dir : path)
    (w : world) :
  (∀ line, head (w_stdin w) = Some line → lower (strip line) ≠ "y") →
  only_adds_dirs (updates_dir ++ [INSTALLED_DIR_NAME]) (w_fs w)
    (w_fs (remove_all_updates primary_folder updates_dir w).2).
Proof.
  intros Hno. unfold remove_all_updates. unfold_comp.
  rewrite lift_fs_unfold.
  destruct (get_installed_updates updates_dir (w_fs w)) as [r fs1] eqn:Hget.
  apply get_installed_updates_effect in Hget as [Hadd _]. simpl.
  destruct r as [e|[|z zs]]; simpl; [done..|].
  destruct (input_answer (World fs1 (w_stdin w))) as [ra w1] eqn:Hans.
  apply input_answer_declined in Hans as [Hfs Hr]; [|done].
  simpl in Hfs. destruct ra as [e|a]; simpl; [by rewrite Hfs|].
  destruct (decide (a ≠ "y")) as [|Hy]; simpl; [by rewrite Hfs|].
  destruct Hr. f_equal. by destruct (decide (a = "y")).
Qed.

Lemma remove_all_updates_declined_witness :
  only_adds_dirs (["u"] ++ [INSTALLED_DIR_NAME])
    (w_fs (World example_dependent_fs ["n"]))
    (w_fs (remove_all_updates ["game"] ["u"]
             (World example_dependent_fs ["n"])).2).
Proof.
  apply (remove_all_updates_declined ["game"] ["u"]
           (World example_dependent_fs ["n"])).
  intros line [= <-]. vm_compute. discriminate.
Defined.

(** X17: install_all_updates installs nothing unless the answer to its
    confirmation is "y": with any other next input line, or none, the only
    change it can make is the creation of the uninstalled bucket. *)
Theorem install_all_updates_declined (primary_folder updates_dir : path)
    (w : world) :
  (∀ line, head (w_stdin w) = Some line → lower (strip line) ≠ "y") →
  only_adds_dirs (updates_dir ++ [UNINSTALLED_DIR_NAME]) (w_fs w)
    (w_fs (install_all_updates primary_folder updates_dir w).2).
Proof.
  intros Hno. unfold install_all_updates. unfold_comp.
  rewrite lift_fs_unfold.
  destruct (get_available_updates updates_dir (w_fs w)) as [r fs1] eqn:Hget.
  apply get_available_updates_effect in Hget as Hadd. simpl.
  destruct r as [e|[code|[|z zs]]]; simpl; [done..|].
  destruct (input_answer (World fs1 (w_stdin w))) as [ra w1] eqn:Hans.
  apply input_answer_declined in Hans as [Hfs Hr]; [|done].
  simpl in Hfs. destruct ra as [e|a]; simpl; [by rewrite Hfs|].
  destruct (decide (a ≠ "y")) as [|Hy]; simpl; [by rewrite Hfs|].
  destruct Hr. f_equal. by destruct (decide (a = "y")).
Qed.

Lemma install_all_updates_declined_witness :
  only_adds_dirs (["u"] ++ [UNINSTALLED_DIR_NAME])
    (w_fs (World example_fs ["no"]))
    (w_fs (install_all_updates ["game"] ["u"] (World example_fs ["no"])).2).
Proof.
  apply (install_all_updates_declined ["game"] ["u"]
           (World example_fs ["no"])).
  intros line [= <-]. vm_compute. discriminate.
Defined.

(** X18: remove_selected_updates protects dependents: when an installed archive
    is recorded as depending on the one to remove, the removal goes ahead
    only on the answer "y"; with any other next input line, or none, the
    file system is left exactly as it was. *)
Theorem remove_item_declined (primary_folder updates_dir : path)
    (zip_name : string) (zip_path : path) (w : world)
    (dd : dependency_data) (dependent : string) (c : content) :
  w_fs w !! (updates_dir ++ [DEPENDENCY_FILE]) = Some (File (Json dd)) →
  w_fs w !! (updates_dir ++ [INSTALLED_DIR_NAME]) = Some Dir →
  dependent ∈ dependents_of dd zip_name →
  endswith dependent ".zip" = true →
  w_fs w !! (updates_dir ++ [INSTALLED_DIR_NAME; dependent]) = Some (File c) →
  (∀ line, head (w_stdin w) = Some line → lower (strip line) ≠ "y") →
  w_fs (remove_item primary_folder updates_dir zip_name zip_path w).2 = w_fs w.
Proof.
  intros Hdep Hinst Hin Hzip Hfile Hno.
  assert (Hload : load_dependencies updates_dir (w_fs w) = (inr dd, w_fs w)).
  { unfold load_dependencies. by rewrite Hdep. }
  unfold remove_item, get_dependents. unfold_comp.
  rewrite !lift_fs_unfold, !Hload. simpl.
  rewrite !installed_names_listing by done. simpl.
  set (installed := (zip_files_in _ _ _).*1).
  destruct (filter (λ dep, dep ∈ installed) (dependents_of dd zip_name))
    as [|d ds] eqn:Hfilter.
  { assert (dependent ∈ filter (λ dep, dep ∈ installed)
                                (dependents_of dd zip_name)) as Hd.
    { apply list_elem_of_filter. split; [|done].
      apply elem_of_installed_listing. split; [done|by eexists]. }
    rewrite Hfilter in Hd. inversion Hd. }
  destruct (input_answer (World (w_fs w) (w_stdin w))) as [ra w1] eqn:Hans.
  apply input_answer_declined in Hans as [Hfs Hr]; [|done].
  simpl in Hfs. destruct ra as [e|a]; simpl; [done|].
  case_bool_decide as Hy; simpl; [by subst|done].
Qed.

Lemma remove_item_declined_witness :
  w_fs (remove_item ["game"] ["u"] "B.zip" ["u"; "_installed_"; "B.zip"]
          (World example_dependent_fs ["n"])).2
  = w_fs (World example_dependent_fs ["n"]).
Proof.
  apply (remove_item_declined ["game"] ["u"] "B.zip"
           ["u"; "_installed_"; "B.zip"] (World example_dependent_fs ["n"])
           (record_all [("B.zip", []); ("A.zip", ["B.zip"])]
                       empty_dependency_data)
           "A.zip" (Zip [ZipEntry ["a.txt"] false (Raw "a")])).
  - vm_compute. reflexivity.
  - vm_compute. reflexivity.
  - vm_compute. repeat constructor.
  - vm_compute. reflexivity.
  - vm_compute. reflexivity.
  - intros line [= <-]. vm_compute. discriminate.
Defined.

(** X19: install_selected_updates lets the user abort one archive: when some
    archive is installed and the answer to the dependency prompt is
    "cancel", in any letter case and with blanks around it, nothing is
    recorded, nothing is copied, the archive stays where it is, and only
    that one input line is consumed. *)
Theorem install_item_cancelled (primary_folder updates_dir : path)
    (zip_name : string) (source_path : path) (w : world)
    (installed : string) (c : content) (line : string) (rest : list string) :
  w_fs w !! (updates_dir ++ [INSTALLED_DIR_NAME]) = Some Dir →
  endswith installed ".zip" = true →
  w_fs w !! (updates_dir ++ [INSTALLED_DIR_NAME; installed]) = Some (File c) →
  w_stdin w = line :: rest →
  lower (strip line) = "cancel" →
  install_item primary_folder updates_dir zip_name source_path w =
  (inr tt, World (w_fs w) rest).
Proof.
  intros Hinst Hzip Hfile Hin Hcancel.
  unfold install_item, select_dependencies. unfold_comp.
  rewrite lift_fs_unfold, installed_names_listing by done. simpl.
  set (names := (zip_files_in _ _ _).*1).
  destruct names as [|n ns] eqn:Hnames.
  { assert (installed ∈ names) as Hd.
    { apply elem_of_installed_listing. split; [done|by eexists]. }
    rewrite Hnames in Hd. inversion Hd. }
  unfold input. simpl. rewrite Hin. simpl.
  by rewrite decide_True.
Qed.

Lemma install_item_cancelled_witness :
  install_item ["game"] ["u"] "A.zip" ["u"; "A.zip"]
    (World example_collision_fs [" Cancel "; "y"]) =
  (inr tt, World (w_fs (World example_collision_fs [" Cancel "; "y"])) ["y"]).
Proof.
  apply (install_item_cancelled ["game"] ["u"] "A.zip" ["u"; "A.zip"]
           (World example_collision_fs [" Cancel "; "y"])
           "A_1.zip" (Zip []) " Cancel " ["y"]).
  - vm_compute. reflexivity.
  - vm_compute. reflexivity.
  - vm_compute. reflexivity.
  - reflexivity.
  - vm_compute. reflexivity.
Defined.

(** ** Indices into the listings *)

Section indices.
Context {A : Type}.
Implicit Types (l : list A) (i : Z).

Lemma py_index_in_range l i :
  (1 ≤ i ∧ i ≤ Z.of_nat (length l))%Z →
  py_index l (i - 1) = l !! Z.to_nat (i - 1) ∧
  is_Some (l !! Z.to_nat (i - 1)).
Proof.
  intros Hi. unfold py_index.
  destruct (0 <=? i - 1)%Z eqn:E; [|apply Z.leb_gt in E; lia].
  split; [done|]. apply lookup_lt_is_Some. lia.
Qed.

Lemma mapM_py_index l (indices : list Z) :
  Forall (λ i, (1 ≤ i ∧ i ≤ Z.of_nat (length l))%Z) indices →
  ∃ items, mapM (λ i, py_index l (i - 1)%Z) indices = Some items ∧
           Forall2 (λ i x, l !! Z.to_nat (i - 1) = Some x) indices items.
Proof.
  intros Hall.
  assert (is_Some (mapM (λ i, py_index l (i - 1)%Z) indices)) as [items Hm].
  { apply mapM_is_Some. eapply Forall_impl; [exact Hall|].
    intros i Hi. simpl. destruct (py_index_in_range l i Hi) as [-> ?]. done. }
  exists items. split; [done|].
  apply mapM_Some in Hm. revert Hall.
  induction Hm as [|i x indices items Hix _ IH]; intros Hall; [constructor|].
  apply Forall_cons in Hall as [Hi Hall]. constructor; [|by apply IH].
  destruct (py_index_in_range l i Hi) as [E _]. by rewrite <- E.
Qed.

Lemma picked_NoDup l (indices : list Z) items :
  NoDup l → NoDup indices →
  Forall (λ i, (1 ≤ i)%Z) indices →
  Forall2 (λ i x, l !! Z.to_nat (i - 1) = Some x) indices items →
  NoDup items.
Proof.
  intros Hl Hind Hpos HF.
  apply NoDup_alt. intros a b x Ha Hb.
  destruct (Forall2_lookup_r _ _ _ _ _ HF Ha) as (ia & Hia & Hxa).
  destruct (Forall2_lookup_r _ _ _ _ _ HF Hb) as (ib & Hib & Hxb).
  assert (Z.to_nat (ia - 1) = Z.to_nat (ib - 1)) as E.
  { exact (NoDup_lookup l _ _ x Hl Hxa Hxb). }
  assert (ia = ib) as ->.
  { rewrite Forall_forall in Hpos.
    pose proof (Hpos ia (list_elem_of_lookup_2 _ _ _ Hia)).
    pose proof (Hpos ib (list_elem_of_lookup_2 _ _ _ Hib)). lia. }
  exact (NoDup_lookup indices _ _ ib Hind Hia Hib).
Qed.
End indices.

Section listing_names.
Implicit Types (fs : file_system) (d : path).

Lemma zip_files_in_fst fs d names :
  (zip_files_in fs d names).*1 =
  filter (λ f, endswith f ".zip" && isfile fs (d ++ [f]) = true) names.
Proof.
  unfold zip_files_in. induction names as [|f names IH]; [done|].
  cbn [omap list_omap]. fold (omap (λ f, if endswith f ".zip" &&
    isfile fs (d ++ [f]) then Some (f, d ++ [f]) else None) names).
  rewrite filter_cons.
  destruct (endswith f ".zip" && isfile fs (d ++ [f])) eqn:E.
  - rewrite decide_True by done. csimpl. by rewrite IH.
  - rewrite decide_False by done. done.
Qed.

Lemma installed_listing_NoDup U fs :
  NoDup (zip_files_in fs (U ++ [INSTALLED_DIR_NAME])
           (children fs (U ++ [INSTALLED_DIR_NAME]))).*1.
Proof. rewrite zip_files_in_fst. apply NoDup_filter, children_NoDup. Qed.
End listing_names.

(** X20: select_dependencies, with the installed bucket in place, changes no
    file, never fails on an index whatever the user types, and returns only
    names of installed archives, each at most once. *)
Theorem select_dependencies_installed_only (updates_dir : path)
    (update_name : string) (w w' : world)
    (r : exn + option (list string)) :
  w_fs w !! (updates_dir ++ [INSTALLED_DIR_NAME]) = Some Dir →
  select_dependencies updates_dir update_name w = (r, w') →
  w_fs w' = w_fs w ∧
  r ≠ inl IndexError ∧
  ∀ names, r = inr (Some names) →
    NoDup names ∧
    ∀ f, f ∈ names →
      endswith f ".zip" = true ∧
      ∃ c, w_fs w !! (updates_dir ++ [INSTALLED_DIR_NAME; f]) = Some (File c).
Proof.
  intros Hinst. unfold select_dependencies. unfold_comp.
  rewrite lift_fs_unfold, installed_names_listing by done. simpl.
  pose proof (installed_listing_NoDup updates_dir (w_fs w)) as Hnd.
  pose proof (elem_of_installed_listing updates_dir (w_fs w)) as Hmem.
  set (installed := (zip_files_in _ _ _).*1) in *. clearbody installed.
  destruct installed as [|n ns].
  { intros [= <- <-]. split_and!; [done..|].
    intros names [= <-]. split; [constructor|]. intros f Hf. inversion Hf. }
  remember (n :: ns) as installed eqn:Hi.
  unfold input. cbn [w_stdin w_fs].
  destruct (w_stdin w) as [|line rest].
  { intros [= <- <-]. by split_and!. }
  cbn [w_stdin w_fs].
  destruct (decide (lower (strip line) = "cancel")).
  { intros [= <- <-]. by split_and!. }
  destruct (decide (strip line = EmptyString)).
  { intros [= <- <-]. split_and!; [done..|].
    intros names [= <-]. split; [constructor|]. intros f Hf. inversion Hf. }
  destruct (parse_selection_range (strip line) (length installed))
    as (Hrange & Hnodup & _).
  destruct (mapM_py_index installed _ Hrange) as (items & Hm & HF).
  rewrite Hm. intros [= <- <-]. split_and!; [done..|].
  intros names [= <-]. split.
  - eapply (picked_NoDup installed); [done..| |done].
    eapply Forall_impl; [exact Hrange|]. simpl. lia.
  - intros f [i Hf]%list_elem_of_lookup.
    destruct (Forall2_lookup_r _ _ _ _ _ HF Hf) as (idx & _ & Hx).
    apply list_elem_of_lookup_2 in Hx. by apply Hmem.
Qed.

Lemma select_dependencies_installed_only_witness :
  w_fs (select_dependencies ["u"] "A.zip"
          (World example_collision_fs ["2,1,7"])).2
  = w_fs (World example_collision_fs ["2,1,7"]) ∧
  (select_dependencies ["u"] "A.zip"
     (World example_collision_fs ["2,1,7"])).1 ≠ inl IndexError ∧
  ∀ names,
    (select_dependencies ["u"] "A.zip"
       (World example_collision_fs ["2,1,7"])).1 = inr (Some names) →
    NoDup names ∧
    ∀ f, f ∈ names →
      endswith f ".zip" = true ∧
      ∃ c, w_fs (World example_collision_fs ["2,1,7"])
             !! (["u"] ++ [INSTALLED_DIR_NAME; f]) = Some (File c).
Proof.
  apply (select_dependencies_installed_only ["u"] "A.zip"
           (World example_collision_fs ["2,1,7"])).
  - vm_compute. reflexivity.
  - vm_compute. reflexivity.
Defined.

(** ** Exceptions that can leave the program *)

Section exceptions.
Context {S : Type}.
Implicit Types (E : exn → Prop).

Lemma raises_only_ret {A} E (a : A) : raises_only (S := S) E (mret a).
Proof. intros s e. unfold_comp. done. Qed.

Lemma raises_only_raise {A} E (x : exn) :
  E x → raises_only (S := S) (A := A) E (raise x).
Proof. intros Hx s e. unfold raise. simpl. by intros [= <-]. Qed.

Lemma raises_only_bind {A B} E (m : comp S A) (k : A → comp S B) :
  raises_only E m → (∀ a, raises_only E (k a)) → raises_only E (m ≫= k).
Proof.
  intros Hm Hk s e. unfold_comp.
  destruct (m s) as [[x|a] s1] eqn:Hms; simpl.
  - intros [= <-]. apply (Hm s). by rewrite Hms.
  - apply Hk.
Qed.

Lemma raises_only_try_except {A} E (m : comp S A) (h : exn → comp S A) :
  (∀ x, raises_only E (h x)) → raises_only E (try_except m h).
Proof.
  intros Hh s e. unfold try_except.
  destruct (m s) as [[x|a] s1]; simpl; [apply Hh|done].
Qed.

Lemma raises_only_for_each {A} E (l : list A) (body : A → comp S unit) :
  (∀ x, x ∈ l → raises_only E (body x)) → raises_only E (for_each l body).
Proof.
  induction l as [|x l IH]; intros Hbody; simpl.
  - apply raises_only_ret.
  - apply raises_only_bind; [apply Hbody; left|].
    intros _. apply IH. intros y Hy. apply Hbody. by right.
Qed.

Lemma raises_only_get_state E : raises_only (S := S) E get_state.
Proof. intros s e. unfold get_state. done. Qed.

Lemma raises_only_total {A} E (f : S → A * S) :
  raises_only E (λ s, let '(r, s') := f s in (inr r, s')).
Proof. intros s e. by destruct (f s). Qed.
End exceptions.

Section os_exceptions.
Implicit Types (fs : file_system) (p d U P : path).

Local Abbreviation ok := (raises_only not_index_error).

Lemma raises_only_lift_fs {A} (E : exn → Prop) (m : F A) :
  raises_only E m → raises_only E (lift_fs m).
Proof.
  intros Hm w e. rewrite lift_fs_unfold. simpl. apply Hm.
Qed.

Lemma listdir_ok d : ok (listdir d).
Proof.
  intros fs e. unfold listdir.
  destruct (fs !! d) as [[|c]|]; simpl; by intros [= <-].
Qed.

Lemma mkdir_ok p : ok (mkdir p).
Proof.
  intros fs e. unfold mkdir.
  destruct (fs !! p); simpl; [by intros [= <-]|].
  destruct (fs !! dirname p) as [[|c]|]; simpl; by intros [= <-].
Qed.

Lemma makedirs_rev_ok exist_ok rname : ok (makedirs_rev exist_ok rname).
Proof.
  induction rname as [|x rname IH]; intros fs e; simpl.
  - destruct (mkdir [] fs) as [[ex|[]] fs2] eqn:Hmk; [|done].
    pose proof (mkdir_ok [] fs ex) as Hex. rewrite Hmk in Hex.
    destruct (negb exist_ok || negb (isdir fs2 [])); simpl; [|done].
    intros [= <-]. by apply Hex.
  - destruct (path_exists fs (rev rname)).
    + destruct (mkdir (rev rname ++ [x]) fs) as [[ex|[]] fs2] eqn:Hmk; [|done].
      pose proof (mkdir_ok (rev rname ++ [x]) fs ex) as Hex.
      rewrite Hmk in Hex.
      destruct (negb exist_ok || negb (isdir fs2 (rev rname ++ [x])));
        simpl; [|done].
      intros [= <-]. by apply Hex.
    + destruct (makedirs_rev exist_ok rname fs) as [[ex0|[]] fs1] eqn:Hrec.
      * pose proof (IH fs ex0) as Hex0. rewrite Hrec in Hex0.
        destruct ex0; simpl; try (intros [= <-]; by apply Hex0).
        destruct (mkdir (rev rname ++ [x]) fs1) as [[ex|[]] fs2] eqn:Hmk;
          [|done].
        pose proof (mkdir_ok (rev rname ++ [x]) fs1 ex) as Hex.
        rewrite Hmk in Hex.
        destruct (negb exist_ok || negb (isdir fs2 (rev rname ++ [x])));
          simpl; [|done].
        intros [= <-]. by apply Hex.
      * destruct (mkdir (rev rname ++ [x]) fs1) as [[ex|[]] fs2] eqn:Hmk;
          [|done].
        pose proof (mkdir_ok (rev rname ++ [x]) fs1 ex) as Hex.
        rewrite Hmk in Hex.
        destruct (negb exist_ok || negb (isdir fs2 (rev rname ++ [x])));
          simpl; [|done].
        intros [= <-]. by apply Hex.
Qed.

Lemma makedirs_ok exist_ok p : ok (makedirs exist_ok p).
Proof. apply makedirs_rev_ok. Qed.

Lemma write_file_ok p c : ok (write_file p c).
Proof.
  intros fs e. unfold write_file.
  destruct (fs !! p) as [[|c0]|]; simpl; try (by intros [= <-]);
    destruct (fs !! dirname p) as [[|c1]|]; simpl; by intros [= <-].
Qed.

Lemma move_ok src dst : ok (move src dst).
Proof.
  intros fs e. unfold move.
  destruct (isdir fs dst && bool_decide (src = dst)); [done|].
  destruct (isdir fs dst && path_exists fs _); [by intros [= <-]|].
  destruct (fs !! src) as [[|c]|]; [| |by intros [= <-]].
  - case_bool_decide; [by intros [= <-]|].
    set (real_dst := if isdir fs dst then dst ++ [basename src] else dst) in *.
    destruct (makedirs false real_dst fs) as [[ex|[]] fs1] eqn:Hmk; [|done].
    pose proof (makedirs_ok false real_dst fs ex) as Hex. rewrite Hmk in Hex.
    intros [= <-]. by apply Hex.
  - destruct (fs !! _) as [[|c0]|]; try (by intros [= <-]);
      destruct (fs !! dirname _) as [[|c1]|]; by intros [= <-].
Qed.

Lemma load_dependencies_ok U : ok (load_dependencies U).
Proof.
  intros fs e. unfold load_dependencies.
  destruct (fs !! _) as [[|[]]|]; simpl; by intros [= <-].
Qed.

Lemma save_dependencies_ok U dd : ok (save_dependencies U dd).
Proof. apply write_file_ok. Qed.

Lemma update_dependencies_ok U name deps : ok (update_dependencies U name deps).
Proof.
  apply raises_only_bind; [apply load_dependencies_ok|].
  intros dd. apply save_dependencies_ok.
Qed.

Lemma get_installed_updates_ok U : ok (get_installed_updates U).
Proof.
  unfold get_installed_updates.
  apply raises_only_bind; [apply raises_only_get_state|]. intros fs.
  destruct (negb (path_exists fs _)).
  - apply raises_only_bind; [apply makedirs_ok|].
    intros _. apply raises_only_ret.
  - apply raises_only_bind; [apply listdir_ok|].
    intros names. apply raises_only_ret.
Qed.

Lemma installed_names_ok U : ok (installed_names U).
Proof.
  apply raises_only_bind; [apply get_installed_updates_ok|].
  intros zs. apply raises_only_ret.
Qed.

Lemma get_available_updates_ok U : ok (get_available_updates U).
Proof.
  unfold get_available_updates.
  apply raises_only_bind; [apply raises_only_get_state|]. intros fs.
  destruct (negb (path_exists fs U)); [apply raises_only_ret|].
  apply raises_only_bind; [apply listdir_ok|]. intros names.
  apply raises_only_bind.
  { destruct (negb (path_exists fs _));
      [apply makedirs_ok|apply raises_only_ret]. }
  intros _. apply raises_only_bind; [apply raises_only_get_state|].
  intros fs1. apply raises_only_bind; [apply listdir_ok|].
  intros names'. apply raises_only_ret.
Qed.

Lemma input_ok : ok input.
Proof.
  intros w e. unfold input. destruct (w_stdin w); simpl; by intros [= <-].
Qed.

Lemma input_answer_ok : ok input_answer.
Proof.
  apply raises_only_bind; [apply input_ok|]. intros line.
  apply raises_only_ret.
Qed.

Lemma select_dependencies_ok U name : ok (select_dependencies U name).
Proof.
  unfold select_dependencies.
  apply raises_only_bind; [apply raises_only_lift_fs, installed_names_ok|].
  intros [|n ns]; [apply raises_only_ret|].
  apply raises_only_bind; [apply input_ok|]. intros line.
  destruct (decide _); [apply raises_only_ret|].
  destruct (decide _); [apply raises_only_ret|].
  destruct (parse_selection_range (strip line) (length (n :: ns)))
    as (Hrange & _ & _).
  destruct (mapM_py_index (n :: ns) _ Hrange) as (items & Hm & _).
  rewrite Hm. apply raises_only_ret.
Qed.

Lemma relocate_installed_ok d name src copied overwritten :
  ok (relocate_installed d name src copied overwritten).
Proof.
  unfold relocate_installed. destruct (_ || _); [|apply raises_only_ret].
  apply raises_only_try_except. intros x. apply raises_only_ret.
Qed.

Lemma install_item_ok P U name src : ok (install_item P U name src).
Proof.
  unfold install_item.
  apply raises_only_bind; [apply select_dependencies_ok|].
  intros [deps|]; [|apply raises_only_ret].
  apply raises_only_bind; [apply raises_only_lift_fs, update_dependencies_ok|].
  intros _. apply raises_only_bind.
  { apply raises_only_lift_fs.
    apply (raises_only_total _ (apply_update_zip src P)). }
  intros [[copied overwritten] failed].
  apply raises_only_bind; [apply raises_only_lift_fs, relocate_installed_ok|].
  intros _.
  destruct copied, overwritten, failed; try apply raises_only_ret;
    (apply raises_only_bind; [apply input_answer_ok|];
     intros _; apply raises_only_ret).
Qed.

Lemma install_all_item_ok P U name src : ok (install_all_item P U name src).
Proof.
  unfold install_all_item.
  apply raises_only_bind; [apply select_dependencies_ok|].
  intros [deps|]; [|apply raises_only_ret].
  apply raises_only_bind; [apply raises_only_lift_fs, update_dependencies_ok|].
  intros _. apply raises_only_bind.
  { apply raises_only_lift_fs.
    apply (raises_only_total _ (apply_update_zip src P)). }
  intros [[copied overwritten] failed].
  apply raises_only_lift_fs, relocate_installed_ok.
Qed.

Lemma install_all_updates_ok P U : ok (install_all_updates P U).
Proof.
  unfold install_all_updates.
  apply raises_only_bind;
    [apply raises_only_lift_fs, get_available_updates_ok|].
  intros [code|[|z zs]]; [apply raises_only_ret..|].
  apply raises_only_bind; [apply input_answer_ok|]. intros a.
  destruct (decide _); [apply raises_only_ret|].
  apply raises_only_bind; [|intros _; apply raises_only_ret].
  apply raises_only_for_each. intros [zn zp] _. apply install_all_item_ok.
Qed.

Lemma relocate_uninstalled_ok P U name zip_path removed :
  ok (relocate_uninstalled P U name zip_path removed).
Proof.
  unfold relocate_uninstalled. destruct (_ <? _)%nat; [|apply raises_only_ret].
  apply raises_only_try_except. intros x. apply raises_only_ret.
Qed.

Lemma remove_item_ok P U name zip_path : ok (remove_item P U name zip_path).
Proof.
  unfold remove_item, get_dependents.
  apply raises_only_bind.
  { apply raises_only_lift_fs, raises_only_bind; [apply load_dependencies_ok|].
    intros dd. apply raises_only_ret. }
  intros dependents.
  apply raises_only_bind; [apply raises_only_lift_fs, installed_names_ok|].
  intros installed. apply raises_only_bind.
  { destruct (filter _ _); [apply raises_only_ret|].
    apply raises_only_bind; [apply input_answer_ok|].
    intros a. apply raises_only_ret. }
  intros [|]; [|apply raises_only_ret].
  apply raises_only_bind.
  { apply raises_only_lift_fs.
    apply (raises_only_total _ (analyze_update_zip zip_path P)). }
  intros [[removed not_found] failed].
  apply raises_only_bind; [apply relocate_uninstalled_ok|]. intros _.
  destruct removed, not_found, failed; try apply raises_only_ret;
    (apply raises_only_bind; [apply input_answer_ok|];
     intros _; apply raises_only_ret).
Qed.

Lemma remove_all_updates_ok P U : ok (remove_all_updates P U).
Proof.
  unfold remove_all_updates.
  apply raises_only_bind;
    [apply raises_only_lift_fs, get_installed_updates_ok|].
  intros [|z zs]; [apply raises_only_ret|].
  apply raises_only_bind; [apply input_answer_ok|]. intros a.
  destruct (decide _); [apply raises_only_ret|].
  apply raises_only_lift_fs, raises_only_for_each. intros [zn zp] _.
  unfold remove_all_item. apply raises_only_bind.
  { apply (raises_only_total _ (analyze_update_zip zp P)). }
  intros [[removed not_found] failed].
  destruct (_ <? _)%nat; [|apply raises_only_ret].
  apply raises_only_try_except. intros x. apply raises_only_ret.
Qed.

Lemma display_dependency_graph_ok U : ok (display_dependency_graph U).
Proof.
  unfold display_dependency_graph.
  apply raises_only_bind; [apply raises_only_lift_fs, load_dependencies_ok|].
  intros dd.
  apply raises_only_bind; [apply raises_only_lift_fs, installed_names_ok|].
  intros installed. destruct (decide _); [apply raises_only_ret|].
  apply raises_only_bind; [apply input_ok|]. intros _. apply raises_only_ret.
Qed.

(** The loops over the selected indices raise no [IndexError] when every
    index is within the listing. *)
Lemma selected_loop_ok (zip_files : list (string * path))
    (indices : list Z) (body : string → path → M unit) :
  Forall (λ i, (1 ≤ i ∧ i ≤ Z.of_nat (length zip_files))%Z) indices →
  (∀ n p, ok (body n p)) →
  ok (for_each indices (λ idx,
        match py_index zip_files (idx - 1)%Z with
        | None => raise IndexError
        | Some (zip_name, zip_path) => body zip_name zip_path
        end)).
Proof.
  intros Hrange Hbody. apply raises_only_for_each. intros idx Hidx.
  rewrite Forall_forall in Hrange.
  destruct (py_index_in_range zip_files idx (Hrange idx Hidx)) as [-> [[n p] ->]].
  apply Hbody.
Qed.
End os_exceptions.

Section main_exceptions.
Local Abbreviation ok := (raises_only not_index_error).

Lemma ensure_dir_ok d : ok (ensure_dir d).
Proof.
  unfold ensure_dir.
  apply raises_only_bind; [apply raises_only_get_state|]. intros fs.
  destruct (negb _); [apply makedirs_ok|apply raises_only_ret].
Qed.

Lemma listed_updates_ok m U : ok (listed_updates m U).
Proof.
  destruct m; simpl; try apply get_available_updates_ok;
    (apply raises_only_bind; [apply get_installed_updates_ok|];
     intros zs; apply raises_only_ret).
Qed.

Lemma selection_ok U (line : string) :
  ok (if decide (lower (strip line) = "graph")
      then display_dependency_graph U ≫= λ _,
           input ≫= λ line', mret (strip line')
      else mret (strip line)).
Proof.
  destruct (decide _); [|apply raises_only_ret].
  apply raises_only_bind; [apply display_dependency_graph_ok|]. intros _.
  apply raises_only_bind; [apply input_ok|]. intros line'.
  apply raises_only_ret.
Qed.

Lemma main_ok a : ok (main a).
Proof.
  unfold main.
  assert (Hrun : ∀ m P U, m ≠ Graph → ok (
    lift_fs get_state ≫= λ fs,
    if negb (path_exists fs P) then mret (Exit 1)
    else
      lift_fs (ensure_dir (U ++ [INSTALLED_DIR_NAME])) ≫= λ _,
      lift_fs (ensure_dir (U ++ [UNINSTALLED_DIR_NAME])) ≫= λ _,
      lift_fs (listed_updates m U) ≫= λ listed,
      match listed with
      | Exit code => mret (Exit code)
      | Return [] => mret (Exit 0)
      | Return ((_ :: _) as zip_files) =>
          input ≫= λ line,
          (if decide (lower (strip line) = "graph") then
             display_dependency_graph U ≫= λ _,
             input ≫= λ line', mret (strip line')
           else mret (strip line)) ≫= λ selection,
          match m with
          | Install =>
              if decide (lower selection = "install-all") then
                install_all_updates P U ≫= λ r,
                match r with
                | Exit code => mret (Exit code)
                | Return _ => mret (Exit 0)
                end
              else
                match parse_selection selection (length zip_files) with
                | [] => mret (Exit 0)
                | (_ :: _) as selected_indices =>
                    install_selected_updates P U selected_indices zip_files
                    ≫= λ _, mret (Return tt)
                end
          | _ =>
              if decide (lower selection = "remove-all") then
                remove_all_updates P U ≫= λ _, mret (Exit 0)
              else
                match parse_selection selection (length zip_files) with
                | [] => mret (Exit 0)
                | (_ :: _) as selected_indices =>
                    remove_selected_updates P U selected_indices zip_files
                    ≫= λ _, mret (Return tt)
                end
          end
      end)).
  { intros m P U Hm.
    apply raises_only_bind;
      [apply raises_only_lift_fs, raises_only_get_state|]. intros fs.
    destruct (negb _); [apply raises_only_ret|].
    apply raises_only_bind; [apply raises_only_lift_fs, ensure_dir_ok|].
    intros _.
    apply raises_only_bind; [apply raises_only_lift_fs, ensure_dir_ok|].
    intros _.
    apply raises_only_bind; [apply raises_only_lift_fs, listed_updates_ok|].
    intros [code|[|z zs]]; [apply raises_only_ret..|].
    apply raises_only_bind; [apply input_ok|]. intros line.
    apply raises_only_bind; [apply selection_ok|]. intros selection.
    pose proof (parse_selection_range selection (length (z :: zs)))
      as (Hrange & _ & _).
    destruct m; [| |done].
    - destruct (decide _).
      + apply raises_only_bind; [apply install_all_updates_ok|].
        intros [code|[]]; apply raises_only_ret.
      + destruct (parse_selection selection (length (z :: zs)))
          as [|i is_] eqn:Hsel; [apply raises_only_ret|].
        apply raises_only_bind; [|intros _; apply raises_only_ret].
        apply selected_loop_ok; [done|]. intros zn zp. apply install_item_ok.
    - destruct (decide _).
      + apply raises_only_bind; [apply remove_all_updates_ok|].
        intros _. apply raises_only_ret.
      + destruct (parse_selection selection (length (z :: zs)))
          as [|i is_] eqn:Hsel; [apply raises_only_ret|].
        apply raises_only_bind; [|intros _; apply raises_only_ret].
        apply selected_loop_ok; [done|]. intros zn zp. apply remove_item_ok. }
  destruct (args_mode a) eqn:Hmode.
  - destruct (args_primary_folder a) as [P|]; [|apply raises_only_ret].
    destruct (args_updates_dir a) as [U|]; [|apply raises_only_ret].
    by apply Hrun.
  - destruct (args_primary_folder a) as [P|]; [|apply raises_only_ret].
    destruct (args_updates_dir a) as [U|]; [|apply raises_only_ret].
    by apply Hrun.
  - destruct (args_updates_dir a) as [U|]; [|apply raises_only_ret].
    apply raises_only_bind; [apply display_dependency_graph_ok|].
    intros _. apply raises_only_ret.
Qed.

Lemma display_dependency_graph_effect U w :
  only_adds_dirs (U ++ [INSTALLED_DIR_NAME]) (w_fs w)
    (w_fs (display_dependency_graph U w).2) ∧
  (w_stdin (display_dependency_graph U w).2 = w_stdin w ∨
   w_stdin (display_dependency_graph U w).2 = drop 1 (w_stdin w)).
Proof.
  unfold display_dependency_graph, installed_names. unfold_comp.
  rewrite !lift_fs_unfold.
  destruct (load_dependencies U (w_fs w)) as [r0 fs0] eqn:Hload.
  apply load_dependencies_state in Hload as ->. simpl.
  destruct r0 as [e|dd]; simpl.
  { split; [apply only_adds_dirs_refl|by left]. }
  destruct (get_installed_updates U (w_fs w)) as [r1 fs1] eqn:Hget.
  apply get_installed_updates_effect in Hget as [Hadd _]. simpl.
  destruct r1 as [e|zs]; simpl; [split; [done|by left]|].
  destruct (decide _); simpl; [split; [done|by left]|].
  unfold input. simpl. destruct (w_stdin w); simpl; split; auto.
Qed.
End main_exceptions.

(** X21: Nothing the user types at a prompt makes the program fail on a list
    index: whatever the arguments, the files and the input, main never ends
    with an IndexError, because the indices parse_selection returns are all
    within the listing they are used on. *)
Theorem main_no_index_error (a : args) (w : world) :
  (main a w).1 ≠ inl IndexError.
Proof.
  intros H. by apply (main_ok a w IndexError H).
Qed.

(** X22: In graph mode main only displays: it changes no file, except that it
    creates the installed bucket when it is missing, reads at most one line
    of input, and ends the program with status 0 unless an exception
    escapes. *)
Theorem main_graph_mode (a : args) (updates_dir : path) (w : world) :
  args_mode a = Graph →
  args_updates_dir a = Some updates_dir →
  only_adds_dirs (updates_dir ++ [INSTALLED_DIR_NAME]) (w_fs w)
    (w_fs (main a w).2) ∧
  (w_stdin (main a w).2 = w_stdin w ∨
   w_stdin (main a w).2 = drop 1 (w_stdin w)) ∧
  ∀ r, (main a w).1 = inr r → r = Exit 0.
Proof.
  intros Hmode HU. unfold main. rewrite Hmode, HU.
  pose proof (display_dependency_graph_effect updates_dir w) as [Hfs Hin].
  unfold_comp.
  destruct (display_dependency_graph updates_dir w) as [[e|[]] w1]; simpl in *.
  - by split_and!.
  - split_and!; [done..|]. by intros r [= <-].
Qed.

Lemma main_graph_mode_witness :
  only_adds_dirs (["u"] ++ [INSTALLED_DIR_NAME])
    (w_fs (World example_dependent_fs ["go on"; "x"]))
    (w_fs (main (Args Graph None (Some ["u"]))
             (World example_dependent_fs ["go on"; "x"])).2) ∧
  (w_stdin (main (Args Graph None (Some ["u"]))
              (World example_dependent_fs ["go on"; "x"])).2
   = w_stdin (World example_dependent_fs ["go on"; "x"]) ∨
   w_stdin (main (Args Graph None (Some ["u"]))
              (World example_dependent_fs ["go on"; "x"])).2
   = drop 1 (w_stdin (World example_dependent_fs ["go on"; "x"]))) ∧
  ∀ r, (main (Args Graph None (Some ["u"]))
          (World example_dependent_fs ["go on"; "x"])).1 = inr r → r = Exit 0.
Proof.
  apply (main_graph_mode (Args Graph None (Some ["u"])) ["u"]
           (World example_dependent_fs ["go on"; "x"])).
  - reflexivity.
  - reflexivity.
Defined.

Example main_install_session :
  let '(r, w') := main (Args Install (Some ["game"]) (Some ["u"]))
                    (World example_fs ["1, 5"; "n"]) in
  r = inr (Return tt) ∧
  w_fs w' !! ["u"; "_installed_"; "mod.zip"] = Some (File (Zip example_entries)) ∧
  w_fs w' !! ["game"; "textures"; "a.png"] = Some (File (Raw "png")) ∧
  w_stdin w' = [].
Proof. vm_compute. split_and!; reflexivity. Qed.

Example main_remove_all_session :
  let '(r, w') := main (Args Remove (Some ["game"]) (Some ["u"]))
                    (World example_dependent_fs ["Remove-All"; "y"]) in
  r = inr (Exit 0) ∧
  w_fs w' !! ["game"; "a.txt"] = None ∧
  w_fs w' !! ["game"; "b.txt"] = None ∧
  w_fs w' !! ["u"; "_uninstalled_"; "A.zip"]
  = Some (File (Zip [ZipEntry ["a.txt"] false (Raw "a")])) ∧
  w_stdin w' = [].
Proof. vm_compute. split_and!; reflexivity. Qed.

Example main_install_all_session :
  let '(r, w') := main (Args Install (Some ["game"]) (Some ["u"]))
                    (World example_collision_fs ["INSTALL-ALL"; " y "; "1"]) in
  r = inr (Exit 0) ∧
  w_fs w' !! ["u"; "A.zip"] = None ∧
  w_fs w' !! ["u"; "_installed_"; "A_2.zip"] = Some (File (Zip example_entries)) ∧
  (get_dependencies ["u"] "A.zip" (w_fs w')).1 =
    inr [(children example_collision_fs ["u"; "_installed_"]) !!! 0%nat] ∧
  w_stdin w' = [].
Proof. vm_compute. split_and!; reflexivity. Qed.

(** ** Unused dependencies on disk *)

(** X23: check_unused_dependencies, with the dependency file and the installed
    bucket in place, changes nothing and reports exactly the recorded
    dependencies of the removed update that are installed and have no
    installed dependent other than the removed update. *)
Theorem check_unused_dependencies_on_disk (updates_dir : path)
    (removed_update : string) (fs : file_system) (dd : dependency_data) :
  fs !! (updates_dir ++ [DEPENDENCY_FILE]) = Some (File (Json dd)) →
  fs !! (updates_dir ++ [INSTALLED_DIR_NAME]) = Some Dir →
  let is_installed := λ f,
    endswith f ".zip" = true ∧
    ∃ c, fs !! (updates_dir ++ [INSTALLED_DIR_NAME; f]) = Some (File c) in
  ∃ unused_deps,
    check_unused_dependencies updates_dir removed_update fs
    = (inr unused_deps, fs) ∧
    ∀ dep, dep ∈ unused_deps ↔
      dep ∈ dependencies_of dd removed_update ∧ is_installed dep ∧
      ∀ dependent, dependent ∈ dependents_of dd dep →
                   is_installed dependent → dependent = removed_update.
Proof.
  intros Hdep Hinst is_installed.
  unfold check_unused_dependencies. unfold_comp.
  unfold load_dependencies. rewrite Hdep.
  rewrite installed_names_listing by done. simpl.
  eexists. split; [done|]. intros dep.
  pose proof (elem_of_installed_listing updates_dir fs) as Hmem.
  set (installed := (zip_files_in _ _ _).*1) in *.
  unfold unused_dependencies. rewrite unused_loop_spec.
  fold (dependencies_of dd removed_update). split.
  - intros [Hin|(Hd & Hi & Hs)]; [inversion Hin|].
    split_and!; [done|by apply Hmem|].
    intros p Hp Hpi.
    destruct (decide (p = removed_update)) as [|Hne]; [done|].
    assert (still_needed dd installed removed_update dep = true) as Ht;
      [|congruence].
    apply still_needed_spec. exists p. split_and!; [done..|by apply Hmem].
  - intros (Hd & Hi & Hall). right. split_and!; [done|by apply Hmem|].
    apply not_true_is_false. intros Ht.
    apply still_needed_spec in Ht as (p & Hp & Hne & Hpi).
    apply Hne, Hall; [done|by apply Hmem].
Qed.

Lemma check_unused_dependencies_on_disk_witness :
  let fs := delete ["u"; "_installed_"; "A.zip"] example_dependent_fs in
  let dd := record_all [("B.zip", []); ("A.zip", ["B.zip"])]
                       empty_dependency_data in
  let is_installed := λ f,
    endswith f ".zip" = true ∧
    ∃ c, fs !! (["u"] ++ [INSTALLED_DIR_NAME; f]) = Some (File c) in
  ∃ unused_deps,
    check_unused_dependencies ["u"] "A.zip" fs = (inr unused_deps, fs) ∧
    ∀ dep, dep ∈ unused_deps ↔
      dep ∈ dependencies_of dd "A.zip" ∧ is_installed dep ∧
      ∀ dependent, dependent ∈ dependents_of dd dep →
                   is_installed dependent → dependent = "A.zip".
Proof.
  apply (check_unused_dependencies_on_disk ["u"] "A.zip"
           (delete ["u"; "_installed_"; "A.zip"] example_dependent_fs)
           (record_all [("B.zip", []); ("A.zip", ["B.zip"])]
                       empty_dependency_data)).
  - vm_compute. reflexivity.
  - vm_compute. reflexivity.
Defined.

(** ** Applying an archive twice *)

Section makedirs_again.
Implicit Types (fs : file_system) (rname : list string).

Lemma mkdir_fail_state p fs e fs' : mkdir p fs = (inl e, fs') → fs' = fs.
Proof. intros [?|(? & _)]%mkdir_effect; done. Qed.

Lemma mkdir_success p fs fs' :
  mkdir p fs = (inr tt, fs') →
  fs !! p = None ∧ fs !! dirname p = Some Dir ∧ fs' = <[p := Dir]> fs.
Proof.
  unfold mkdir. destruct (fs !! p); [done|].
  destruct (fs !! dirname p) as [[|c]|]; [|done..]. by intros [= <-].
Qed.

(** One level of [makedirs_rev]: the step that makes sure the parent
    exists, and the creation of the directory itself. *)
Lemma makedirs_rev_unfold exist_ok rname fs :
  makedirs_rev exist_ok rname fs =
  let '(r, fs1) :=
    match rname with
    | [] => (inr tt, fs)
    | _ :: rhead =>
        if path_exists fs (rev rhead) then (inr tt, fs)
        else match makedirs_rev exist_ok rhead fs with
             | (inl FileExistsError, fs') => (inr tt, fs')
             | res => res
             end
    end in
  match r with
  | inl e => (inl e, fs1)
  | inr _ =>
      match mkdir (rev rname) fs1 with
      | (inl e, fs2) =>
          if negb exist_ok || negb (isdir fs2 (rev rname)) then (inl e, fs2)
          else (inr tt, fs2)
      | res => res
      end
  end.
Proof. by destruct rname. Qed.

(** When [makedirs] returns or stops on an existing name, the name exists. *)
Lemma makedirs_rev_exists_after exist_ok rname fs r fs' :
  makedirs_rev exist_ok rname fs = (r, fs') →
  r = inr tt ∨ r = inl FileExistsError →
  is_Some (fs' !! rev rname).
Proof.
  rewrite makedirs_rev_unfold.
  set (parent_step := match rname with [] => _ | _ :: _ => _ end).
  assert (Hpar : ∀ e fs1, parent_step = (inl e, fs1) → e ≠ FileExistsError).
  { subst parent_step. intros e fs1. destruct rname as [|x rhead]; [done|].
    destruct (path_exists fs (rev rhead)); [done|].
    destruct (makedirs_rev exist_ok rhead fs) as [[[]|[]] fs0]; simpl;
      by intros [= <- <-]. }
  destruct parent_step as [[e|[]] fs1].
  { intros [= <- <-] [?|[= ->]]; [done|]. by destruct (Hpar _ _ eq_refl). }
  destruct (mkdir (rev rname) fs1) as [[e|[]] fs2] eqn:Hmk.
  - pose proof (mkdir_fail_state _ _ _ _ Hmk) as ->.
    destruct (negb exist_ok || negb (isdir fs1 (rev rname))) eqn:Hc.
    + intros [= <- <-] [?|[= ->]]; [done|].
      unfold mkdir in Hmk. destruct (fs1 !! rev rname); [by eexists|].
      by destruct (fs1 !! dirname (rev rname)) as [[|c]|].
    + intros [= <- <-] _. apply orb_false_iff in Hc as [_ Hc].
      apply negb_false_iff in Hc. unfold isdir in Hc.
      destruct (fs1 !! rev rname); [by eexists|done].
  - intros [= <- <-] _. apply mkdir_success in Hmk as (_ & _ & ->).
    by rewrite lookup_insert_eq.
Qed.
End makedirs_again.

Section makedirs_settled.
Implicit Types (fs : file_system) (rname : list string).

(** A failing [makedirs] leaves the name itself as it was. *)
Lemma makedirs_rev_fail_name exist_ok rname fs e fs' :
  makedirs_rev exist_ok rname fs = (inl e, fs') →
  fs' !! rev rname = fs !! rev rname.
Proof.
  rewrite makedirs_rev_unfold.
  set (parent_step := match rname with [] => _ | _ :: _ => _ end).
  assert (Hpar : ∀ r fs1, parent_step = (r, fs1) →
                          fs1 !! rev rname = fs !! rev rname).
  { subst parent_step. intros r fs1. destruct rname as [|x rhead].
    { by intros [= _ <-]. }
    destruct (path_exists fs (rev rhead)); [by intros [= _ <-]|].
    destruct (makedirs_rev exist_ok rhead fs) as [r0 fs0] eqn:Hrec.
    assert (fs0 !! rev (x :: rhead) = fs !! rev (x :: rhead)) as Hsame.
    { apply makedirs_rev_adds in Hrec.
      destruct (Hrec (rev (x :: rhead))) as [?|(_ & _ & Hp)]; [done|].
      apply prefix_length in Hp. simpl in Hp.
      rewrite length_app in Hp. simpl in Hp. lia. }
    destruct r0 as [[]|[]]; by intros [= _ <-]. }
  destruct parent_step as [[e0|[]] fs1] eqn:Hps.
  { intros [= _ <-]. by eapply Hpar. }
  destruct (mkdir (rev rname) fs1) as [[e1|[]] fs2] eqn:Hmk; [|done].
  apply mkdir_fail_state in Hmk as ->.
  destruct (negb exist_ok || negb (isdir fs1 (rev rname))); [|done].
  intros [= _ <-]. by eapply Hpar.
Qed.

(** A [makedirs] that has failed fails again, in the same way and without
    any change, on the file system it has left. *)
Lemma makedirs_rev_fail_again exist_ok rname fs e fs' :
  makedirs_rev exist_ok rname fs = (inl e, fs') →
  makedirs_rev exist_ok rname fs' = (inl e, fs').
Proof.
  revert fs e fs'. induction rname as [|x rhead IH]; intros fs e fs'.
  - rewrite !makedirs_rev_unfold.
    destruct (mkdir (rev []) fs) as [[e1|[]] fs2] eqn:Hmk; [|done].
    pose proof (mkdir_fail_state _ _ _ _ Hmk) as ->.
    destruct (negb exist_ok || negb (isdir fs (rev []))) eqn:Hc; [|done].
    intros [= <- <-]. by rewrite Hmk, Hc.
  - rewrite (makedirs_rev_unfold exist_ok (x :: rhead) fs),
            (makedirs_rev_unfold exist_ok (x :: rhead) fs').
    destruct (path_exists fs (rev rhead)) eqn:Hex.
    { destruct (mkdir (rev (x :: rhead)) fs) as [[e1|[]] fs2] eqn:Hmk; [|done].
      pose proof (mkdir_fail_state _ _ _ _ Hmk) as ->.
      destruct (negb exist_ok || negb (isdir fs (rev (x :: rhead)))) eqn:Hc;
        [|done].
      intros [= <- <-]. by rewrite Hex, Hmk, Hc. }
    destruct (makedirs_rev exist_ok rhead fs) as [r0 fs0] eqn:Hrec.
    assert (Hstay : ∀ e0, r0 = inl e0 → e0 ≠ FileExistsError →
              path_exists fs0 (rev rhead) = false ∧
              makedirs_rev exist_ok rhead fs0 = (inl e0, fs0)).
    { intros e0 -> _. split; [|by apply (IH fs)].
      unfold path_exists in *.
      by rewrite (makedirs_rev_fail_name _ _ _ _ _ Hrec). }
    assert (Hthere : r0 = inr tt ∨ r0 = inl FileExistsError →
              path_exists fs0 (rev rhead) = true).
    { intros Hr0.
      destruct (makedirs_rev_exists_after _ _ _ _ _ Hrec Hr0) as [n Hn].
      unfold path_exists. by rewrite Hn. }
    assert (Hlast : ∀ e1 fs2,
      match mkdir (rev (x :: rhead)) fs0 with
      | (inl e, fs2) =>
          if negb exist_ok || negb (isdir fs2 (rev (x :: rhead)))
          then (inl e, fs2) else (inr tt, fs2)
      | res => res
      end = (inl e1, fs2) →
      fs2 = fs0).
    { intros e1 fs2.
      destruct (mkdir (rev (x :: rhead)) fs0) as [[e2|[]] fs3] eqn:Hmk; [|done].
      apply mkdir_fail_state in Hmk as ->.
      destruct (negb exist_ok || negb (isdir fs0 (rev (x :: rhead))));
        [|done]. by intros [= _ <-]. }
    destruct r0 as [e0|[]].
    + destruct e0;
        try (destruct (Hstay _ eq_refl ltac:(done)) as [Hex0 Hrec0];
             intros [= <- <-]; by rewrite Hex0, Hrec0).
      intros Hfin. pose proof (Hlast _ _ Hfin) as ->.
      rewrite Hthere by by right. exact Hfin.
    + intros Hfin. pose proof (Hlast _ _ Hfin) as ->.
      rewrite Hthere by by left. exact Hfin.
Qed.

(** A [makedirs] that has returned left a directory whose parent exists. *)
Lemma makedirs_rev_success rname fs fs' :
  makedirs_rev true rname fs = (inr tt, fs') →
  fs' !! rev rname = Some Dir ∧
  (rname ≠ [] → is_Some (fs' !! rev (tail rname))).
Proof.
  rewrite makedirs_rev_unfold.
  set (parent_step := match rname with [] => _ | _ :: _ => _ end).
  assert (Hpar : ∀ fs1, parent_step = (inr tt, fs1) →
                        rname ≠ [] → is_Some (fs1 !! rev (tail rname))).
  { subst parent_step. intros fs1. destruct rname as [|x rhead]; [done|].
    simpl. unfold path_exists.
    destruct (fs !! rev rhead) eqn:Hex; [intros [= <-]; by rewrite Hex|].
    destruct (makedirs_rev true rhead fs) as [r0 fs0] eqn:Hrec.
    intros Hr _.
    assert (fs1 = fs0 ∧ (r0 = inr tt ∨ r0 = inl FileExistsError)) as [-> Hr0].
    { destruct r0 as [[]|[]]; try done; injection Hr as <-; auto. }
    by apply (makedirs_rev_exists_after _ _ _ _ _ Hrec). }
  destruct parent_step as [[e|[]] fs1] eqn:Hps; [done|].
  specialize (Hpar fs1 eq_refl).
  destruct (mkdir (rev rname) fs1) as [[e|[]] fs2] eqn:Hmk.
  - apply mkdir_fail_state in Hmk as ->. simpl.
    destruct (negb (isdir fs1 (rev rname))) eqn:Hc; [done|].
    intros [= <-]. apply negb_false_iff in Hc. unfold isdir in Hc.
    split; [|done]. by destruct (fs1 !! rev rname) as [[|c]|].
  - intros [= <-]. apply mkdir_success in Hmk as (_ & _ & ->).
    split; [by rewrite lookup_insert_eq|].
    intros Hne. destruct (Hpar Hne) as [n Hn].
    destruct (decide (rev rname = rev (tail rname))) as [E|E].
    + rewrite <- E, lookup_insert_eq. by eexists.
    + rewrite lookup_insert_ne by done. by eexists.
Qed.

(** On a directory whose parent exists, [makedirs] with [exist_ok] returns
    without any change. *)
Lemma makedirs_rev_noop rname fs :
  fs !! rev rname = Some Dir →
  (rname ≠ [] → is_Some (fs !! rev (tail rname))) →
  makedirs_rev true rname fs = (inr tt, fs).
Proof.
  intros Hd Hpar. rewrite makedirs_rev_unfold.
  assert (mkdir (rev rname) fs = (inl FileExistsError, fs)) as Hmk.
  { unfold mkdir. by rewrite Hd. }
  assert (isdir fs (rev rname) = true) as Hdir.
  { unfold isdir. by rewrite Hd. }
  destruct rname as [|x rhead].
  - by rewrite Hmk, Hdir.
  - destruct (Hpar ltac:(done)) as [n Hn]. simpl in Hn.
    unfold path_exists. rewrite Hn. by rewrite Hmk, Hdir.
Qed.
End makedirs_settled.

Section apply_again.
Implicit Types (fs : file_system) (P rel : path).

Lemma copy2_keeps_kinds (n : string) c dst fs r fs' :
  copy2 n c dst fs = (r, fs') → keeps_kinds fs fs'.
Proof.
  unfold copy2. destruct (isdir fs dst); apply write_file_keeps_kinds.
Qed.

Lemma apply_files_keeps_kinds zip P files cp ow fl fs res fs' :
  apply_files zip P files cp ow fl fs = (res, fs') → keeps_kinds fs fs'.
Proof.
  apply (apply_files_rel keeps_kinds).
  - intros x. apply keeps_kinds_refl.
  - intros x y z. apply keeps_kinds_trans.
  - intros rel fs0 r fs1 Hmk.
    eapply only_adds_dirs_keeps_kinds. by eapply makedirs_adds.
  - intros rel c fs0 r fs1. apply copy2_keeps_kinds.
Qed.

Lemma write_file_same p c fs :
  fs !! p = Some (File c) → fs !! dirname p = Some Dir →
  write_file p c fs = (inr tt, fs).
Proof.
  intros Hp Hd. unfold write_file. rewrite Hp, Hd. by rewrite insert_id.
Qed.

(** The loop, run again on the file system it has left, changes nothing and
    reports no file as newly copied. *)
Lemma apply_files_again zip P files cp ow fl fs res fsF cp2 ow2 fl2 :
  NoDup files.*1 →
  (∀ x, x ∈ files.*1 → x ≠ []) →
  (∀ x y, x ∈ files.*1 → y ∈ files.*1 → x `prefix_of` y → x = y) →
  apply_files zip P files cp ow fl fs = (res, fsF) →
  ∃ ow' fl', apply_files zip P files cp2 ow2 fl2 fsF = ((cp2, ow', fl'), fsF).
Proof.
  revert cp ow fl fs cp2 ow2 fl2.
  induction files as [|[rel c] files IH];
    intros cp ow fl fs cp2 ow2 fl2 Hnd Hne Hpf; simpl.
  { intros [= _ <-]. by eexists _, _. }
  csimpl in Hnd; csimpl in Hne; csimpl in Hpf.
  apply NoDup_cons in Hnd as [Hrel Hnd].
  assert (Hne' : ∀ x, x ∈ files.*1 → x ≠ []).
  { intros x Hx. apply Hne. by right. }
  assert (Hpf' : ∀ x y, x ∈ files.*1 → y ∈ files.*1 → x `prefix_of` y → x = y).
  { intros x y Hx Hy. apply Hpf; by right. }
  assert (Hun : ∀ rel' c', (rel', c') ∈ files →
            rel' ≠ rel ∧ ¬ rel' `prefix_of` rel ∧ ¬ rel `prefix_of` rel').
  { intros rel' c' Hin.
    assert (rel' ∈ files.*1) as Hin'.
    { apply list_elem_of_fmap. by exists (rel', c'). }
    split_and!.
    - by intros ->.
    - intros Hp. apply Hpf in Hp; [|by right|left]. by subst.
    - intros Hp. apply Hpf in Hp; [|left|by right]. by subst. }
  set (t := P ++ rel) in *.
  destruct (makedirs true (dirname t) fs) as [[ex|[]] fs1] eqn:E1.
  { intros [= _ <-]. unfold makedirs in *.
    rewrite (makedirs_rev_fail_again _ _ _ _ _ E1). by eexists _, _. }
  unfold makedirs in E1.
  apply makedirs_rev_success in E1 as [Hd Hpar].
  rewrite rev_involutive in Hd.
  (* the first run: the copy, then the rest of the loop *)
  intros Hfirst.
  assert (∃ r2 fs2 cp0 ow0 fl0,
    copy2 (basename rel) c t fs1 = (r2, fs2) ∧
    apply_files zip P files cp0 ow0 fl0 fs2 = (res, fsF))
    as (r2 & fs2 & cp0 & ow0 & fl0 & Hcp & Hrest).
  { destruct (path_exists fs1 t);
      destruct (copy2 (basename rel) c t fs1) as [[ex|[]] fs2];
      by eexists _, _, _, _, _. }
  clear Hfirst.
  pose proof (copy2_keeps_kinds _ _ _ _ _ _ Hcp) as Hk12.
  pose proof (apply_files_keeps_kinds _ _ _ _ _ _ _ _ _ Hrest) as Hk2F.
  assert (Hk1F : keeps_kinds fs1 fsF) by by eapply keeps_kinds_trans.
  assert (HdF : fsF !! dirname t = Some Dir) by by apply Hk1F.
  assert (Hmk : makedirs true (dirname t) fsF = (inr tt, fsF)).
  { unfold makedirs. apply makedirs_rev_noop.
    - by rewrite rev_involutive.
    - intros Hn. destruct (Hpar Hn) as [n Hn1].
      destruct n as [|c0]; [apply Hk1F in Hn1|apply Hk1F in Hn1 as [c1 Hn1]];
        by eexists. }
  (* the copy, run again at the end *)
  assert (is_Some (fsF !! t) ∧
          ∃ r', copy2 (basename rel) c t fsF = (r', fsF)) as [Ht [r' Hcp']].
  { unfold copy2 in Hcp |- *. unfold isdir in *.
    destruct (fs1 !! t) as [[|c0]|] eqn:Ht1.
    - (* the target is a directory: the file goes inside *)
      assert (fsF !! t = Some Dir) as HtF by by apply Hk1F.
      rewrite HtF. split; [by eexists|].
      pose proof Hcp as Hcp0.
      apply write_file_effect in Hcp0 as [[-> Hr]|(-> & Hq & _ & ->)].
      + unfold write_file in Hcp. rewrite dirname_snoc, Ht1 in Hcp.
        destruct (fs1 !! (t ++ [basename rel])) as [[|c1]|] eqn:Hq;
          [|by injection Hcp as <- _..].
        assert (fsF !! (t ++ [basename rel]) = Some Dir) as HqF by by apply Hk1F.
        unfold write_file. rewrite HqF. by eexists.
      + exists (inr tt). apply write_file_same; [|by rewrite dirname_snoc].
        subst t. rewrite <- app_assoc.
        erewrite (apply_files_untouched _ _ _ _ _ _ _ _ _
                    (rel ++ [basename rel])); [| |exact Hrest].
        * rewrite app_assoc. by rewrite lookup_insert_eq.
        * intros rel' c' Hin. destruct (Hun rel' c' Hin) as (Hn1 & Hn2 & Hn3).
          split.
          -- intros Hp. destruct (decide (rel' = rel ++ [basename rel]))
               as [->|Hneq].
             ++ apply Hn3. by apply prefix_app_r.
             ++ apply Hn2. by eapply prefix_snoc_inv.
          -- intros Hp. apply Hn3. etrans; [|exact Hp]. by apply prefix_app_r.
    - (* the target is a regular file: it is overwritten *)
      pose proof Hcp as Hcp0.
      apply write_file_effect in Hcp0 as [[_ Hr]|(-> & _ & _ & ->)].
      { unfold write_file in Hcp. rewrite Ht1, Hd in Hcp.
        injection Hcp as <- _. done. }
      assert (fsF !! t = Some (File c)) as HtF.
      { subst t.
        erewrite (apply_files_untouched _ _ _ _ _ _ _ _ _ rel);
          [| |exact Hrest].
        - by rewrite lookup_insert_eq.
        - intros rel' c' Hin. destruct (Hun rel' c' Hin) as (_ & ? & ?).
          done. }
      rewrite HtF. split; [by eexists|]. exists (inr tt).
      by apply write_file_same.
    - (* the target is new: it is created *)
      pose proof Hcp as Hcp0.
      apply write_file_effect in Hcp0 as [[_ Hr]|(-> & _ & _ & ->)].
      { unfold write_file in Hcp. rewrite Ht1, Hd in Hcp.
        injection Hcp as <- _. done. }
      assert (fsF !! t = Some (File c)) as HtF.
      { subst t.
        erewrite (apply_files_untouched _ _ _ _ _ _ _ _ _ rel);
          [| |exact Hrest].
        - by rewrite lookup_insert_eq.
        - intros rel' c' Hin. destruct (Hun rel' c' Hin) as (_ & ? & ?).
          done. }
      rewrite HtF. split; [by eexists|]. exists (inr tt).
      by apply write_file_same. }
  rewrite Hmk. unfold path_exists. destruct Ht as [n Ht]. rewrite Ht, Hcp'.
  destruct r' as [ex|[]]; eapply IH; eauto.
Qed.
Lemma apply_update_zip_unfold zip P fs entries :
  fs !! zip = Some (File (Zip entries)) → is_Some (fs !! P) →
  apply_update_zip zip P fs =
  match extractall entries with
  | inl BadZipFile => (([], [], [(zip, "Invalid zip file")]), fs)
  | inl e => (([], [], [(zip, exn_str e)]), fs)
  | inr tmp => apply_files zip P (walk_files tmp) [] [] [] fs
  end.
Proof.
  intros Hzip [n HP]. unfold apply_update_zip, path_exists, read_zip.
  by rewrite Hzip, HP.
Qed.
End apply_again.

(** X24: Applying the same archive a second time changes nothing and reports no
    file as newly copied, provided the first application has left the
    archive itself as it was. *)
Theorem apply_update_zip_twice
    (update_zip_path primary_folder : path) (fs : file_system)
    (entries : list zip_entry) :
  fs !! update_zip_path = Some (File (Zip entries)) →
  (apply_update_zip update_zip_path primary_folder fs).2 !! update_zip_path
    = Some (File (Zip entries)) →
  let fs1 := (apply_update_zip update_zip_path primary_folder fs).2 in
  (apply_update_zip update_zip_path primary_folder fs1).1.1.1 = [] ∧
  (apply_update_zip update_zip_path primary_folder fs1).2 = fs1.
Proof.
  intros Hzip Hzip1 fs1.
  destruct (fs !! primary_folder) as [n|] eqn:HP.
  2:{ assert (fs1 = fs) as ->.
      { apply apply_update_zip_missing_primary.
        unfold path_exists. by rewrite HP. }
      unfold apply_update_zip, path_exists. by rewrite Hzip, HP. }
  pose proof (apply_update_zip_unfold update_zip_path primary_folder fs
                entries Hzip ltac:(by eexists)) as E.
  destruct (extractall entries) as [ex|tmp] eqn:Hex.
  { assert (fs1 = fs) as ->. { subst fs1. rewrite E. by destruct ex. }
    rewrite E. by destruct ex. }
  destruct (apply_files update_zip_path primary_folder (walk_files tmp)
              [] [] [] fs) as [res fsF] eqn:Hrun.
  assert (fs1 = fsF) as ->. { subst fs1. by rewrite E. }
  rewrite E in Hzip1. simpl in Hzip1.
  assert (is_Some (fsF !! primary_folder)) as HP'.
  { eapply apply_files_keeps; [exact Hrun|by eexists]. }
  rewrite (apply_update_zip_unfold _ _ _ _ Hzip1 HP'), Hex.
  destruct (extractall_spec _ _ Hex) as (Hwf & Hroot & _).
  destruct (apply_files_again update_zip_path primary_folder (walk_files tmp)
              [] [] [] fs res fsF [] [] []) as (ow' & fl' & ->); [| | |done|done].
  - apply walk_files_NoDup.
  - intros x [[rel c] [Ex Hin%elem_of_walk_files]]%list_elem_of_fmap ->.
    simpl in Ex. subst rel. congruence.
  - intros x y [[rx cx] [Ex Hx%elem_of_walk_files]]%list_elem_of_fmap
                [[ry cy] [Ey Hy%elem_of_walk_files]]%list_elem_of_fmap Hpre.
    simpl in Ex, Ey. subst x y.
    destruct (decide (rx = ry)) as [|Hne]; [done|].
    rewrite (well_formed_prefix tmp ry rx _ Hwf Hy Hpre Hne) in Hx. done.
Qed.

Lemma apply_update_zip_twice_witness :
  let fs1 := (apply_update_zip ["u"; "mod.zip"] ["game"] example_fs).2 in
  (apply_update_zip ["u"; "mod.zip"] ["game"] fs1).1.1.1 = [] ∧
  (apply_update_zip ["u"; "mod.zip"] ["game"] fs1).2 = fs1.
Proof.
  apply (apply_update_zip_twice ["u"; "mod.zip"] ["game"] example_fs
           example_entries).
  - vm_compute. reflexivity.
  - vm_compute. reflexivity.
Defined.

(** ** Removal after an overwrite *)

Lemma apply_update_zip_keeps_kinds (zip P : path) (fs : file_system) :
  keeps_kinds fs (apply_update_zip zip P fs).2.
Proof.
  apply (apply_update_zip_rel keeps_kinds).
  - intros x. apply keeps_kinds_refl.
  - intros x y z. apply keeps_kinds_trans.
  - intros rel fs0 r fs1 Hmk.
    eapply only_adds_dirs_keeps_kinds. by eapply makedirs_adds.
  - intros rel c fs0 r fs1. apply copy2_keeps_kinds.
Qed.

(** X25: Removing an update does not restore what the update overwrote: a
    regular file of the primary folder that is the target of a file member
    of the archive, the member's name having no empty, [.] or [..]
    component, is, after the archive has been applied and then removed,
    gone, whatever it held before. *)
Theorem remove_does_not_restore (fs0 : file_system)
    (zip zip' primary_folder : path) (entries : list zip_entry)
    (e : zip_entry) (c : content) :
  fs0 !! zip = Some (File (Zip entries)) →
  (apply_update_zip zip primary_folder fs0).2 !! zip'
    = Some (File (Zip entries)) →
  is_Some (fs0 !! primary_folder) →
  e ∈ entries → ze_is_dir e = false →
  sanitize (ze_name e) = ze_name e →
  fs0 !! (primary_folder ++ ze_name e) = Some (File c) →
  let fs1 := (apply_update_zip zip primary_folder fs0).2 in
  let fs2 := (analyze_update_zip zip' primary_folder fs1).2 in
  fs2 !! (primary_folder ++ ze_name e) = None.
Proof.
  intros Hzip Hzip1 [n HP] Hin Hfile _ Hold fs1 fs2.
  pose proof (apply_update_zip_keeps_kinds zip primary_folder fs0) as Hkinds.
  fold fs1 in Hkinds, Hzip1.
  destruct (proj2 (Hkinds _) _ Hold) as [c1 Hp1].
  assert (is_Some (fs1 !! primary_folder)) as [n1 HP1].
  { destruct n as [|c0].
    - apply Hkinds in HP. by eexists.
    - apply Hkinds in HP as [c2 HP]. by eexists. }
  subst fs2. unfold analyze_update_zip, path_exists, read_zip.
  rewrite Hzip1, HP1. simpl.
  destruct (analyze_entries primary_folder entries [] [] [] fs1)
    as [res fs2] eqn:Hrun. simpl.
  eapply analyze_entries_removes; [exact Hrun|done..|by rewrite Hp1].
Qed.

Lemma remove_does_not_restore_witness :
  let fs1 := (apply_update_zip ["u"; "mod.zip"] ["game"] example_fs).2 in
  let fs2 := (analyze_update_zip ["u"; "mod.zip"] ["game"] fs1).2 in
  fs2 !! (["game"] ++ ze_name (ZipEntry ["b.txt"] false (Raw "new"))) = None.
Proof.
  apply (remove_does_not_restore example_fs ["u"; "mod.zip"] ["u"; "mod.zip"]
           ["game"] example_entries (ZipEntry ["b.txt"] false (Raw "new"))
           (Raw "old")).
  - vm_compute. reflexivity.
  - vm_compute. reflexivity.
  - vm_compute. by eexists.
  - vm_compute. repeat constructor.
  - reflexivity.
  - vm_compute. reflexivity.
  - vm_compute. reflexivity.
Defined.
